(** * webgl_render2d.js: quad batching, sorting and buffered submission

    A shallow embedding of [QuadBatch], its heap sort, [QuadEffect]'s ring
    buffer and draw submission, and [QuadVertex.ptcg], from
    samples/webgl-sprite/scripts/webgl_render2d.js.

    Conventions.
    - JavaScript integers (indices, counts, cursors) are [Z].  [x << 1] and
      [x >> 1] are [Z.shiftl x 1] and [Z.shiftr x 1]; the 32-bit truncation
      of the shift operators is not reached by indices below 2^30.
    - A typed array is a [list]; reading outside it gives [None]
      (JavaScript's undefined) and writing outside it does nothing.
    - Other JavaScript numbers (depths, rectangles, angles) are values of
      an abstract type [num] with the operations the code applies to them. *)

From Stdlib Require Import ZArith List Lia Bool.
From Stdlib Require Import QArith Reals Lra.
From stdpp Require Import base tactics option list.

Local Open Scope Z_scope.

(** ** JavaScript values and arrays *)

(** Per-quad render state is opaque to the library: it is only stored,
    compared with [!==] and handed to the caller's callback. *)
Inductive token : Type :=
  | Null
  | Undefined
  | Obj (id : Z).

Global Instance token_eq_dec : EqDecision token.
Proof. solve_decision. Defined.

(** [a !== b] on tokens. *)
Definition strict_ne (a b : token) : bool := negb (bool_decide (a = b)).

(** [a[i]]: undefined outside the array. *)
Definition aget {A : Type} (a : list A) (i : Z) : option A :=
  if i <? 0 then None else a !! Z.to_nat i.

(** [a[i] = v] on a typed array: ignored outside the array. *)
Definition aset {A : Type} (a : list A) (i : Z) (v : A) : list A :=
  if i <? 0 then a else <[Z.to_nat i := v]> a.

(** [a[i] = v] on a plain JavaScript [Array]: a write past the end extends
    the array, the skipped slots reading as undefined. *)
Definition js_array_set (a : list token) (i : Z) (v : token) : list token :=
  if i <? 0 then a
  else if (Z.to_nat i <? length a)%nat then <[Z.to_nat i := v]> a
  else a ++ replicate (Z.to_nat i - length a)%nat Undefined ++ [v].

(** Conversion applied by a store into a [Uint16Array]: undefined becomes
    0, an integer is reduced modulo 2^16. *)
Definition to_uint16 (v : option Z) : Z :=
  match v with
  | Some z => z mod 65536
  | None => 0
  end.

Definition to_uint32 (z : Z) : Z := z mod 4294967296.

(** [ToInt32], applied by [>>] and [&] to their operands. *)
Definition to_int32 (z : Z) : Z :=
  let m := z mod 4294967296 in
  if m <? 2147483648 then m else m - 4294967296.

(** ** Numbers *)

(** The arithmetic and the comparison the batch code applies to
    non-integer numbers.  [f32] is the rounding of a store into a
    [Float32Array]. *)
Class Arith (num : Type) : Type := {
  n_zero : num;
  n_one : num;
  nadd : num -> num -> num;
  nsub : num -> num -> num;
  nmul : num -> num -> num;
  ndiv : num -> num -> num;
  nlt : num -> num -> bool;
  f32 : num -> num
}.

(** What vertex generation needs in addition: [Math.sin], [Math.cos] and
    the value arithmetic gives to an undefined operand. *)
Class VertexMath (num : Type) : Type := {
  nsin : num -> num;
  ncos : num -> num;
  nnan : num
}.

(** [x < y] where either side may be undefined: false then. *)
Definition js_lt {num} `{Arith num} (x y : option num) : bool :=
  match x, y with
  | Some a, Some b => nlt a b
  | _, _ => false
  end.

(** A loop either ran to its end or was cut off; both carry the state
    reached. *)
Inductive outcome (A : Type) : Type :=
  | Done (a : A)
  | Timeout (a : A).
Arguments Done {A} a.
Arguments Timeout {A} a.

Definition reached {A} (o : outcome A) : A :=
  match o with
  | Done a => a
  | Timeout a => a
  end.

Definition obind {A} (o : outcome A) (k : A -> outcome A) : outcome A :=
  match o with
  | Done a => k a
  | Timeout a => Timeout a
  end.

(** ** QuadBatch *)

Section QuadBatch.
Context {num : Type} `{Arith num}.

Record QuadBatch : Type := mkQuadBatch {
  order : list Z;          (* Uint16Array (capacity * 1), insert order *)
  sourceRects : list num;  (* Float32Array(capacity * 4), rect XYWH *)
  targetRects : list num;  (* Float32Array(capacity * 4), rect XYWH *)
  originPoint : list num;  (* Float32Array(capacity * 2), XY *)
  scaleFactor : list num;  (* Float32Array(capacity * 2), UV *)
  tintColor : list Z;      (* Uint32Array (capacity * 1), ARGB *)
  orientation : list num;  (* Float32Array(capacity * 1), radians *)
  depth : list num;        (* Float32Array(capacity * 1), layer index *)
  state : list token;      (* JavaScript array of per-quad state *)
  quadCount : Z;           (* number of quads currently in use *)
  quadCapacity : Z
}.

Definition set_order (this : QuadBatch) (a : list Z) : QuadBatch :=
  mkQuadBatch a (sourceRects this) (targetRects this) (originPoint this)
    (scaleFactor this) (tintColor this) (orientation this) (depth this)
    (state this) (quadCount this) (quadCapacity this).

Definition set_quadCount (this : QuadBatch) (n : Z) : QuadBatch :=
  mkQuadBatch (order this) (sourceRects this) (targetRects this)
    (originPoint this) (scaleFactor this) (tintColor this)
    (orientation this) (depth this) (state this) n (quadCapacity this).

(** [QuadBatch.MAX_CAPACITY = 65536] (line 529). *)
Definition MAX_CAPACITY : Z := 65536.

(** [QuadBatch.MAX_CAPCITY], the name [resize] reads (lines 577-578): no
    property of that name is ever assigned, so the read is undefined. *)
Definition MAX_CAPCITY : option Z := None.

(** [QuadBatch.prototype.flush]. *)
Definition flush (this : QuadBatch) : QuadBatch := set_quadCount this 0.

(** [QuadBatch.prototype.resize].  [capacity > undefined] is false.  An
    array constructor is given a length; a negative one (which throws
    in JavaScript) is outside the model and read as 0. *)
Definition resize (this : QuadBatch) (capacity : Z) : QuadBatch :=
  let capacity :=
    match MAX_CAPCITY with
    | Some m => if capacity >? m then m else capacity
    | None => capacity
    end in
  let len (k : Z) := Z.to_nat (capacity * k) in
  flush
    (mkQuadBatch
       (replicate (len 1) 0)
       (replicate (len 4) n_zero)
       (replicate (len 4) n_zero)
       (replicate (len 2) n_zero)
       (replicate (len 2) n_zero)
       (replicate (len 1) 0)
       (replicate (len 1) n_zero)
       (replicate (len 1) n_zero)
       (replicate (Z.to_nat capacity) Undefined)
       0
       capacity).

(** The constructor: [capacity = capacity || 2048], then [resize]. *)
Definition newQuadBatch (capacity : Z) : QuadBatch :=
  let capacity := if capacity =? 0 then 2048 else capacity in
  resize (mkQuadBatch [] [] [] [] [] [] [] [] [] 0 0) capacity.

(** [QuadBatch.prototype.add]; returns the batch and the insertion
    index. *)
Definition add (this : QuadBatch) (st : token)
    (x y dpth originX originY scaleX scaleY orient : num) (color : Z)
    (sourceX sourceY sourceWidth sourceHeight imageWidth imageHeight : num)
    : QuadBatch * Z :=
  let bi := quadCount this in
  let i4 := bi * 4 in
  let i2 := bi * 2 in
  let i1 := bi in
  let src := aset (sourceRects this) (i4 + 0) (f32 sourceX) in
  let src := aset src (i4 + 1) (f32 sourceY) in
  let src := aset src (i4 + 2) (f32 sourceWidth) in
  let src := aset src (i4 + 3) (f32 sourceHeight) in
  let dst := aset (targetRects this) (i4 + 0) (f32 x) in
  let dst := aset dst (i4 + 1) (f32 y) in
  let dst := aset dst (i4 + 2) (f32 (nmul sourceWidth scaleX)) in
  let dst := aset dst (i4 + 3) (f32 (nmul sourceHeight scaleY)) in
  let org := aset (originPoint this) (i2 + 0) (f32 originX) in
  let org := aset org (i2 + 1) (f32 originY) in
  let scl := aset (scaleFactor this) (i2 + 0) (f32 (ndiv n_one imageWidth)) in
  let scl := aset scl (i2 + 1) (f32 (ndiv n_one imageHeight)) in
  (mkQuadBatch
     (aset (order this) i1 (to_uint16 (Some bi)))
     src dst org scl
     (aset (tintColor this) i1 (to_uint32 color))
     (aset (orientation this) i1 (f32 orient))
     (aset (depth this) i1 (f32 dpth))
     (js_array_set (state this) i1 st)
     (bi + 1)
     (quadCapacity this),
   bi).

(** *** Comparison policies *)

(** A comparator receives the batch and two entries of [order]; an
    entry read outside the array is undefined. *)
Definition comparator : Type := QuadBatch -> option Z -> option Z -> Z.

(** [depth[ia]] for an index that may be undefined. *)
Definition depth_at (batch : QuadBatch) (ia : option Z) : option num :=
  match ia with
  | Some i => aget (depth batch) i
  | None => None
  end.

(** [(ia > ib) ? +1 : ((ia < ib) ? -1 : 0)]. *)
Definition insertion_cmp (ia ib : option Z) : Z :=
  match ia, ib with
  | Some a, Some b => if a >? b then 1 else if a <? b then -1 else 0
  | _, _ => 0
  end.

(** [QuadBatch.backToFront]. *)
Definition backToFront : comparator := fun batch ia ib =>
  let depthA := depth_at batch ia in
  let depthB := depth_at batch ib in
  if js_lt depthA depthB then 1
  else if js_lt depthB depthA then -1
  else insertion_cmp ia ib.

(** [QuadBatch.frontToBack]. *)
Definition frontToBack : comparator := fun batch ia ib =>
  let depthA := depth_at batch ia in
  let depthB := depth_at batch ib in
  if js_lt depthA depthB then -1
  else if js_lt depthB depthA then 1
  else insertion_cmp ia ib.

(** *** Heap sort over [order] *)

(** The body of [siftDown]'s loop, [fuel] bounding its iterations.
    [array] aliases [this.order], so each store is a store into the
    batch the comparator is given. *)
Fixpoint siftDown_loop (fuel : nat) (compare : comparator)
    (this : QuadBatch) (root e : Z) : outcome QuadBatch :=
  match fuel with
  | O => Timeout this
  | S fuel' =>
    if Z.shiftl root 1 <=? e then
      let array := order this in
      let child := Z.shiftl root 1 in
      let child :=
        if (child <? e) &&
           (compare this (aget array child) (aget array (child + 1)) <? 0)
        then child + 1 else child in
      if compare this (aget array root) (aget array child) <? 0 then
        let temp := aget array child in
        let array := aset array child (to_uint16 (aget array root)) in
        let array := aset array root (to_uint16 temp) in
        siftDown_loop fuel' compare (set_order this array) child e
      else Done this
    else Done this
  end.

(** [QuadBatch.prototype.siftDown]. *)
Definition siftDown (fuel : nat) (this : QuadBatch) (s e : Z)
    (compare : comparator) : outcome QuadBatch :=
  siftDown_loop fuel compare this s e.

(** The loop of [heapify]: [while (s >= 0) this.siftDown(s--, c - 1)]. *)
Fixpoint heapify_loop (fuel : nat) (compare : comparator)
    (this : QuadBatch) (s c : Z) : outcome QuadBatch :=
  match fuel with
  | O => Timeout this
  | S fuel' =>
    if s >=? 0 then
      obind (siftDown fuel' this s (c - 1) compare)
            (fun this' => heapify_loop fuel' compare this' (s - 1) c)
    else Done this
  end.

(** [QuadBatch.prototype.heapify]. *)
Definition heapify (fuel : nat) (this : QuadBatch) (compare : comparator)
    : outcome QuadBatch :=
  let c := quadCount this in
  let s := Z.shiftr c 1 in
  heapify_loop fuel compare this s c.

(** The loop of [sort]: swap [a[0]] and [a[e]], then
    [this.siftDown(0, --e, compare)]. *)
Fixpoint sort_loop (fuel : nat) (compare : comparator)
    (this : QuadBatch) (e : Z) : outcome QuadBatch :=
  match fuel with
  | O => Timeout this
  | S fuel' =>
    if e >? 0 then
      let a := order this in
      let t := aget a 0 in
      let a := aset a 0 (to_uint16 (aget a e)) in
      let a := aset a e (to_uint16 t) in
      let e := e - 1 in
      obind (siftDown fuel' (set_order this a) 0 e compare)
            (fun this' => sort_loop fuel' compare this' e)
    else Done this
  end.

(** [QuadBatch.prototype.sort]. *)
Definition sort (fuel : nat) (this : QuadBatch) (compare : comparator)
    : outcome QuadBatch :=
  obind (heapify fuel this compare)
        (fun this' => sort_loop fuel compare this' (quadCount this' - 1)).

End QuadBatch.

Arguments QuadBatch num : clear implicits.
Arguments comparator num : clear implicits.

(** ** QuadEffect *)

(** The calls a [QuadEffect] makes on the graphics device and on the
    caller's callbacks, in the order made. *)
Inductive glcall : Type :=
  | UseProgram
  | UseIndexBuffer
  | UseVertexBuffer
  | EnableAttributes
  | ApplyBlendState
  | ApplyRasterState
  | ApplyDepthStencilState
  | SetupProgram
  | GenerateVertices (viewOffsetVerts batchOffsetQuads countQuads : Z)
  | UploadArrayBufferRegion (offsetVB amountVB : Z)
  | UploadIndexBufferRegion (offsetIB amountIB : Z)
  | ApplyState (s : token)
  | DrawIndexed (nindex baseIndex : Z).

Definition is_draw (c : glcall) : bool :=
  match c with
  | DrawIndexed _ _ => true
  | _ => false
  end.

Definition is_upload (c : glcall) : bool :=
  match c with
  | UploadArrayBufferRegion _ _ | UploadIndexBufferRegion _ _ => true
  | _ => false
  end.

Record QuadEffect : Type := mkQuadEffect {
  currentState : token;   (* current per-quad state, opaque to us *)
  indexData : list Z;     (* Uint16Array for sys mem indices *)
  vertexCapacity : Z;     (* in vertices *)
  vertexOffset : Z;       (* in vertices *)
  indexCapacity : Z;      (* in indices *)
  indexOffset : Z;        (* in indices *)
  vertexSize : Z;         (* vertexBuffer.elementSize, in bytes *)
  indexSize : Z           (* indexBuffer.elementSize, in bytes *)
}.

(** The constructor (lines 177-205), as far as the fields above go. *)
Definition newQuadEffect : QuadEffect :=
  mkQuadEffect Null [] 0 0 0 0 0 0.

(** [QuadEffect.prototype.createResources]: [stride] stands for
    [WebGL.computeBufferStride(attributes)]; the index element size is
    [Uint16Array.BYTES_PER_ELEMENT]. *)
Definition createResources (this : QuadEffect) (stride capacity : Z)
    : QuadEffect :=
  mkQuadEffect (currentState this)
    (replicate (Z.to_nat (capacity * 6)) 0)
    (capacity * 4) 0 (capacity * 6) 0 stride 2.

(** [QuadEffect.prototype.makeCurrent]. *)
Definition makeCurrent (this : QuadEffect) : QuadEffect * list glcall :=
  (mkQuadEffect Null (indexData this) (vertexCapacity this)
     (vertexOffset this) (indexCapacity this) (indexOffset this)
     (vertexSize this) (indexSize this),
   [UseProgram; UseIndexBuffer; UseVertexBuffer; EnableAttributes;
    ApplyBlendState; ApplyRasterState; ApplyDepthStencilState;
    SetupProgram]).

(** [generateIndices]: six index stores per quad. *)
Fixpoint generateIndices_loop (todo : nat) (buffer : list Z)
    (bufferOffset baseVertex : Z) : list Z :=
  match todo with
  | O => buffer
  | S todo' =>
    let buffer := aset buffer (bufferOffset + 0) (to_uint16 (Some (baseVertex + 1))) in
    let buffer := aset buffer (bufferOffset + 1) (to_uint16 (Some (baseVertex + 0))) in
    let buffer := aset buffer (bufferOffset + 2) (to_uint16 (Some (baseVertex + 2))) in
    let buffer := aset buffer (bufferOffset + 3) (to_uint16 (Some (baseVertex + 2))) in
    let buffer := aset buffer (bufferOffset + 4) (to_uint16 (Some (baseVertex + 0))) in
    let buffer := aset buffer (bufferOffset + 5) (to_uint16 (Some (baseVertex + 3))) in
    generateIndices_loop todo' buffer (bufferOffset + 6) (baseVertex + 4)
  end.

Definition generateIndices (buffer : list Z)
    (bufferOffset baseVertex quadCount : Z) : list Z :=
  generateIndices_loop (Z.to_nat quadCount) buffer bufferOffset baseVertex.

Section QuadEffect.
Context {num : Type}.

(** [QuadEffect.prototype.bufferData]; returns the effect, the number
    of quads buffered and the calls made.  [numVertices / 4] is
    JavaScript's division; it is exact, and so equal to [Z.div], when
    [vertexCapacity] and [vertexOffset] are multiples of 4, which is how
    [createResources] and this function leave them. *)
Definition bufferData (this : QuadEffect) (batch : QuadBatch num)
    (offset count : Z) : QuadEffect * Z * list glcall :=
  let numIndices := count * 6 in
  let numVertices := count * 4 in
  let baseIndex := indexOffset this in
  let baseVertex := vertexOffset this in
  let maxIndices := indexCapacity this in
  let maxVertices := vertexCapacity this in
  let '(numVertices, numIndices) :=
    if maxVertices <? baseVertex + numVertices
    then (maxVertices - baseVertex, maxIndices - baseIndex)
    else (numVertices, numIndices) in
  let quadCount := numVertices / 4 in
  if quadCount =? 0 then (this, 0, [])
  else
    let indexData' := generateIndices (indexData this) baseIndex baseVertex quadCount in
    let offsetVB := baseVertex * vertexSize this in
    let amountVB := quadCount * vertexSize this * 4 in
    let offsetIB := baseIndex * indexSize this in
    let amountIB := quadCount * 6 in
    let indexOffset' := indexOffset this + quadCount * 6 in
    let vertexOffset' := vertexOffset this + quadCount * 4 in
    let '(indexOffset', vertexOffset') :=
      if maxVertices =? vertexOffset' then (0, 0)
      else (indexOffset', vertexOffset') in
    (mkQuadEffect (currentState this) indexData' (vertexCapacity this)
       vertexOffset' (indexCapacity this) indexOffset'
       (vertexSize this) (indexSize this),
     quadCount,
     [GenerateVertices baseVertex offset quadCount;
      UploadArrayBufferRegion offsetVB amountVB;
      UploadIndexBufferRegion offsetIB amountIB]).

(** [state[quadId]] where [quadId] was read from [order]. *)
Definition state_at (batch : QuadBatch num) (quadId : option Z) : token :=
  match quadId with
  | Some q => default Undefined (aget (state batch) q)
  | None => Undefined
  end.

(** The [for] loop of [drawRegion], from iteration [i] with [todo]
    iterations left; returns the final [state1], [index], [baseIndex]
    and the calls made.  The quad examined at iteration [i] is
    [order[i]] (line 446). *)
Fixpoint drawRegion_loop (todo : nat) (batch : QuadBatch num)
    (i : Z) (state0 state1 : token) (index baseIndex : Z)
    : token * Z * Z * list glcall :=
  match todo with
  | O => (state1, index, baseIndex, [])
  | S todo' =>
    let quadId := aget (order batch) i in
    let state1 := state_at batch quadId in
    if strict_ne state1 state0 then
      let nquad := i - index in
      let nindex := nquad * 6 in
      let '(baseIndex', drawn) :=
        if i >? index
        then (baseIndex + nindex, [DrawIndexed nindex baseIndex])
        else (baseIndex, []) in
      let '(s1, ix, bi, calls) :=
        drawRegion_loop todo' batch (i + 1) state1 state1 i baseIndex' in
      (s1, ix, bi, drawn ++ ApplyState state1 :: calls)
    else
      drawRegion_loop todo' batch (i + 1) state0 state1 index baseIndex
  end.

(** [QuadEffect.prototype.drawRegion]. *)
Definition drawRegion (this : QuadEffect) (batch : QuadBatch num)
    (offset count baseIndex : Z) : QuadEffect * list glcall :=
  let state0 := currentState this in
  let state1 := currentState this in
  let '(state1, index, baseIndex, calls) :=
    drawRegion_loop (Z.to_nat count) batch 0 state0 state1 0 baseIndex in
  let nquad := count - index in
  let nindex := nquad * 6 in
  (mkQuadEffect state1 (indexData this) (vertexCapacity this)
     (vertexOffset this) (indexCapacity this) (indexOffset this)
     (vertexSize this) (indexSize this),
   calls ++ [DrawIndexed nindex baseIndex]).

(** The [while] loop of [drawBatch]; [None] when [fuel] iterations did
    not finish it.  The third component lists the value [n] that
    [bufferData] returned in each pass. *)
Fixpoint drawBatch_loop (fuel : nat) (this : QuadEffect)
    (batch : QuadBatch num) (baseIndex quadIndex quadCount : Z)
    : option (QuadEffect * list glcall * list Z) :=
  match fuel with
  | O => None
  | S fuel' =>
    if quadCount >? 0 then
      let '(this1, n, buffered) := bufferData this batch quadIndex quadCount in
      let '(this2, drawn) := drawRegion this1 batch quadIndex n baseIndex in
      match drawBatch_loop fuel' this2 batch (indexOffset this2)
              (quadIndex + n) (quadCount - n) with
      | Some (this3, calls, passes) =>
          Some (this3, buffered ++ drawn ++ calls, n :: passes)
      | None => None
      end
    else Some (this, [], [])
  end.

(** [QuadEffect.prototype.drawBatch]. *)
Definition drawBatch (fuel : nat) (this : QuadEffect)
    (batch : QuadBatch num)
    : option (QuadEffect * list glcall * list Z) :=
  drawBatch_loop fuel this batch (indexOffset this) 0 (quadCount batch).

End QuadEffect.

(** ** QuadVertex.ptcg *)

(** The object [WebGL.createBufferViews] returns, as [ptcg] reads it:
    [baseOffsets] and [sizes] of the three attribute views, in elements
    of the view ([aPTX], [aCLR], [aDGG]).  The three typed arrays in
    [arrayViews] are the destinations of the stores below. *)
Record BufferView : Type := mkBufferView {
  aop : Z;  (* baseOffsets[0] *)
  aoc : Z;  (* baseOffsets[1] *)
  aoa : Z;  (* baseOffsets[2] *)
  asp : Z;  (* sizes[0] *)
  asc : Z;  (* sizes[1] *)
  asa : Z   (* sizes[2] *)
}.

Section Vertex.
Context {num : Type} `{Arith num} `{VertexMath num}.

(** One store into one of the three views: [ptx[i] = v] and
    [atr[i] = v] into a [Float32Array], [clr[i] = v] into a
    [Uint8Array]. *)
Inductive store : Type :=
  | StorePTX (i : Z) (v : num)
  | StoreCLR (i : Z) (v : Z)
  | StoreATR (i : Z) (v : num).

Definition is_atr (s : store) : bool :=
  match s with
  | StoreATR _ _ => true
  | _ => false
  end.

(** A read of a [Float32Array] element used as a number: undefined
    converts to NaN. *)
Definition nget (a : list num) (i : Z) : num := default nnan (aget a i).

(** [QuadVertex.XCornerOffsets] and [QuadVertex.YCornerOffsets],
    paired per corner. *)
Definition CornerOffsets : list (num * num) :=
  [(n_zero, n_zero); (n_one, n_zero); (n_one, n_one); (n_zero, n_one)].

(** The inner loop over the four corners (lines 120-144). *)
Fixpoint ptcg_corners (corners : list (num * num)) (view : BufferView)
    (aip aic aia : Z) (sx sy sw sh dx dy dw dh xc yc su sv st ct : num)
    (cR cG cB cA : Z) (d g0 g1 : num) : list store :=
  match corners with
  | [] => []
  | (xo, yo) :: corners' =>
    let xd := nmul (nsub xo xc) dw in
    let yd := nmul (nsub yo yc) dh in
    let x := nsub (nadd dx (nmul xd ct)) (nmul yd st) in
    let y := nadd (nadd dy (nmul xd st)) (nmul yd ct) in
    let u := nmul (nadd sx (nmul xo sw)) su in
    let v := nmul (nadd sy (nmul yo sh)) sv in
    [StorePTX (aip + 0) (f32 x); StorePTX (aip + 1) (f32 y);
     StorePTX (aip + 2) (f32 u); StorePTX (aip + 3) (f32 v);
     StoreCLR (aic + 0) cR; StoreCLR (aic + 1) cG;
     StoreCLR (aic + 2) cB; StoreCLR (aic + 3) cA;
     StoreATR (aia + 0) (f32 d); StoreATR (aia + 1) (f32 g0);
     StoreATR (aia + 2) (f32 g1)]
    ++ ptcg_corners corners' view (aip + asp view) (aic + asc view)
         (aia + asa view) sx sy sw sh dx dy dw dh xc yc su sv st ct
         cR cG cB cA d g0 g1
  end.

(** The stores made for the quad at position [i] of [order]
    (lines 94-144).  An undefined [ai1] shifts as 0. *)
Definition ptcg_quad (view : BufferView) (batch : QuadBatch num)
    (i aip aic aia : Z) : list store :=
  let ai1 := aget (order batch) i in
  let ai2 := Z.shiftl (default 0 ai1) 1 in
  let ai4 := Z.shiftl (default 0 ai1) 2 in
  let at1 {A} (a : list A) : option A :=
    match ai1 with
    | Some q => aget a q
    | None => None
    end in
  let sx := nget (sourceRects batch) (ai4 + 0) in
  let sy := nget (sourceRects batch) (ai4 + 1) in
  let sw := nget (sourceRects batch) (ai4 + 2) in
  let sh := nget (sourceRects batch) (ai4 + 3) in
  let dx := nget (targetRects batch) (ai4 + 0) in
  let dy := nget (targetRects batch) (ai4 + 1) in
  let dw := nget (targetRects batch) (ai4 + 2) in
  let dh := nget (targetRects batch) (ai4 + 3) in
  let xc := ndiv (nget (originPoint batch) (ai2 + 0)) sw in
  let yc := ndiv (nget (originPoint batch) (ai2 + 1)) sh in
  let a := default nnan (at1 (orientation batch)) in
  let c := default 0 (at1 (tintColor batch)) in
  let cR := Z.land (Z.shiftr (to_int32 c) 24) 255 in
  let cG := Z.land (Z.shiftr (to_int32 c) 16) 255 in
  let cB := Z.land (Z.shiftr (to_int32 c) 8) 255 in
  let cA := Z.land (Z.shiftr (to_int32 c) 0) 255 in
  let d := ndiv n_one (default nnan (at1 (depth batch))) in
  let su := nget (scaleFactor batch) (ai2 + 0) in
  let sv := nget (scaleFactor batch) (ai2 + 1) in
  let st := nsin a in
  let ct := ncos a in
  let g0 := n_zero in
  let g1 := n_zero in
  ptcg_corners CornerOffsets view aip aic aia
    sx sy sw sh dx dy dw dh xc yc su sv st ct cR cG cB cA d g0 g1.

(** The outer loop, from quad position [i] with [todo] quads left. *)
Fixpoint ptcg_loop (todo : nat) (view : BufferView)
    (batch : QuadBatch num) (i aip aic aia : Z) : list store :=
  match todo with
  | O => []
  | S todo' =>
    ptcg_quad view batch i aip aic aia
    ++ ptcg_loop todo' view batch (i + 1) (aip + 4 * asp view)
         (aic + 4 * asc view) (aia + 4 * asa view)
  end.

(** [QuadVertex.ptcg]: the stores it makes, in order. *)
Definition ptcg (view : BufferView) (bufferOffset : Z)
    (batch : QuadBatch num) (batchOffset quadCount : Z) : list store :=
  let aip := bufferOffset * asp view + aop view in
  let aic := bufferOffset * asc view + aoc view in
  let aia := bufferOffset * asa view + aoa view in
  ptcg_loop (Z.to_nat quadCount) view batch batchOffset aip aic aia.

End Vertex.

Arguments store num : clear implicits.

(** ** Two interpretations of the numbers *)

(** Exact rational arithmetic: numbers that are computed with. *)
Module QNum.
Definition lt (x y : Q) : bool :=
  match Qcompare x y with
  | Lt => true
  | _ => false
  end.

Global Instance arith : Arith Q := {
  n_zero := 0%Q;
  n_one := 1%Q;
  nadd := Qplus;
  nsub := Qminus;
  nmul := Qmult;
  ndiv := Qdiv;
  nlt := lt;
  f32 := fun x => x
}.
End QNum.

(** Real arithmetic, with the real sine and cosine: the numbers with
    rounding left out ([f32] is the identity).  No real number is NaN;
    [nnan] is 0 and is not reached where every read is inside its
    array. *)
Module RNum.
Definition lt (x y : R) : bool := if Rlt_dec x y then true else false.

Global Instance arith : Arith R := {
  n_zero := 0%R;
  n_one := 1%R;
  nadd := Rplus;
  nsub := Rminus;
  nmul := Rmult;
  ndiv := Rdiv;
  nlt := lt;
  f32 := fun x => x
}.

Global Instance vertex_math : VertexMath R := {
  nsin := sin;
  ncos := cos;
  nnan := 0%R
}.
End RNum.

(** ** Vocabulary of the properties *)

(** The ring-buffer cursors between two calls of [bufferData]. *)
Definition ring_inv (this : QuadEffect) : Prop :=
  0 <= vertexOffset this < vertexCapacity this /\
  vertexOffset this mod 4 = 0 /\
  indexOffset this = 6 * (vertexOffset this / 4).

(** Two batches that differ at most in [order]. *)
Definition same_attributes {num} (b b' : QuadBatch num) : Prop :=
  sourceRects b' = sourceRects b /\
  targetRects b' = targetRects b /\
  originPoint b' = originPoint b /\
  scaleFactor b' = scaleFactor b /\
  tintColor b' = tintColor b /\
  orientation b' = orientation b /\
  depth b' = depth b /\
  state b' = state b /\
  quadCount b' = quadCount b /\
  quadCapacity b' = quadCapacity b.

(** [state[order[i]]], the state token of the quad at position [i] of
    the draw order. *)
Definition token_at {num} (batch : QuadBatch num) (i : Z) : token :=
  state_at batch (aget (order batch) i).

(** The positions [first, first + 1, ..., first + len - 1]. *)
Definition positions (first len : nat) : list Z :=
  map Z.of_nat (seq first len).

(** The number of positions [i] in [[1, n)] at which [state[order[i]]]
    differs from [state[order[i - 1]]]. *)
Definition state_changes {num} (batch : QuadBatch num) (n : Z) : Z :=
  Z.of_nat (length (List.filter
    (fun i => strict_ne (token_at batch i) (token_at batch (i - 1)))
    (positions 1 (Z.to_nat n - 1)))).

(** The number of indexed-draw calls among [calls]. *)
Definition draw_calls (calls : list glcall) : Z :=
  Z.of_nat (length (List.filter is_draw calls)).

Definition is_generate (c : glcall) : bool :=
  match c with
  | GenerateVertices _ _ _ => true
  | _ => false
  end.

(** Batches and effects of the examples, over the rationals. *)
Module Examples.
(** [batch.add(st, 0, 0, d, 0, 0, 1, 1, 0, 0, 0, 0, 1, 1, 1, 1)]. *)
Definition quad (b : QuadBatch Q) (st : token) (d : Q) : QuadBatch Q :=
  fst (add b st 0%Q 0%Q d 0%Q 0%Q 1%Q 1%Q 0%Q 0 0%Q 0%Q 1%Q 1%Q 1%Q 1%Q).

(** Three quads of depths 3, 1, 2, inserted in this order. *)
Definition depths_3_1_2 : QuadBatch Q :=
  quad (quad (quad (newQuadBatch 3) (Obj 1) 3%Q) (Obj 1) 1%Q) (Obj 1) 2%Q.

(** Two quads of states [Obj 1] and [Obj 2]. *)
Definition two_states : QuadBatch Q :=
  quad (quad (newQuadBatch 2) (Obj 1) 0%Q) (Obj 2) 0%Q.

(** An effect with room for [capacity] quads, made current. *)
Definition effect (capacity : Z) : QuadEffect :=
  fst (makeCurrent (createResources newQuadEffect 32 capacity)).

(** The [order] a finished sort leaves in the first [quadCount]
    positions. *)
Definition sorted_order (o : outcome (QuadBatch Q)) : option (list Z) :=
  match o with
  | Done b => Some (take (Z.to_nat (quadCount b)) (order b))
  | Timeout _ => None
  end.
End Examples.

(** Two batches equal in every array and in [order], whatever their
    [depth] arrays are. *)
Definition differ_only_in_depth {num} (b1 b2 : QuadBatch num) : Prop :=
  order b1 = order b2 /\
  sourceRects b1 = sourceRects b2 /\
  targetRects b1 = targetRects b2 /\
  originPoint b1 = originPoint b2 /\
  scaleFactor b1 = scaleFactor b2 /\
  tintColor b1 = tintColor b2 /\
  orientation b1 = orientation b2 /\
  state b1 = state b2 /\
  quadCount b1 = quadCount b2 /\
  quadCapacity b1 = quadCapacity b2.

(** The stores into the position/texture view and the colour view. *)
Definition geometry_stores {num} (l : list (store num)) : list (store num) :=
  List.filter (fun s => negb (is_atr s)) l.

(** Batches of the examples over the reals. *)
Module RExamples.
(** One quad of depth [d], unrotated, at the origin. *)
Definition one_quad (d : R) : QuadBatch R :=
  fst (add (newQuadBatch 1) (Obj 1) 0%R 0%R d 0%R 0%R 1%R 1%R 0%R 0
         0%R 0%R 1%R 1%R 1%R 1%R).

(** The views of the 32-byte vertex of [QuadVertex.PTCG]: eight floats
    per vertex for the two float views, 32 bytes for the colour view,
    which starts at byte 16; the [aDGG] view starts at float 5. *)
Definition view : BufferView := mkBufferView 0 16 5 8 32 8.
End RExamples.

(** *** Heap sort *)

(** [compare(batch, x, y) < 0]: the entry [x] sorts before [y]. *)
Definition sorts_before {num} (compare : comparator num)
    (b : QuadBatch num) (x y : option Z) : bool :=
  compare b x y <? 0.

(** The array after [t = a[p]; a[p] = a[q]; a[q] = t]. *)
Definition swapped (a : list Z) (p q : Z) : list Z :=
  aset (aset a p (to_uint16 (aget a q))) q (to_uint16 (aget a p)).

(** Every entry of [a[0 .. n)] is defined and satisfies [P]. *)
Definition entries_ok (P : Z -> Prop) (a : list Z) (n : Z) : Prop :=
  forall i, 0 <= i < n -> exists v, aget a i = Some v /\ P v.

(** The heap of [siftDown] links position [c >= 1] to its parent
    [c / 2] (position 0 has the single child 1).  [heap_from L a s e]:
    within [a[0 .. e]], no parent at or after [s] sorts before its
    child. *)
Definition heap_from (L : option Z -> option Z -> bool) (a : list Z)
    (s e : Z) : Prop :=
  forall c, 1 <= c <= e -> s <= c / 2 ->
    L (aget a (c / 2)) (aget a c) = false.

(** The state of [siftDown]'s loop at [root]: the heap order holds from
    [s] on except between [root] and its children, and the parent of
    [root] does not sort before the children of [root]. *)
Definition sift_inv (L : option Z -> option Z -> bool) (a : list Z)
    (s e root : Z) : Prop :=
  (forall c, 1 <= c <= e -> s <= c / 2 -> c / 2 <> root ->
     L (aget a (c / 2)) (aget a c) = false) /\
  (root <> s -> forall c, 1 <= c <= e -> c / 2 = root -> c <> root ->
     L (aget a (root / 2)) (aget a c) = false).

(** [a'] rearranges [a[0 .. e]] and leaves the rest of [a] alone. *)
Definition within (a a' : list Z) (e : Z) : Prop :=
  length a' = length a /\
  (forall i, e < i -> aget a' i = aget a i) /\
  (forall i, 0 <= i <= e -> exists j, 0 <= j <= e /\ aget a' i = aget a j) /\
  Permutation a a'.

(** The entries of [a[0 .. n)] after position [e] are in their final
    place: none of them sorts before an entry to its left. *)
Definition tail_sorted (L : option Z -> option Z -> bool) (a : list Z)
    (n e : Z) : Prop :=
  forall p q, 0 <= p < q -> q < n -> e < q ->
    L (aget a q) (aget a p) = false.

(** The order of both policies: by key first, by insertion index among
    equal keys. *)
Definition lex_before {K : Type} (g : K -> K -> bool) (kx ky : K)
    (x y : Z) : bool :=
  if g kx ky then true else if g ky kx then false else x <? y.

(** [<] on the depths stored in the batch is a strict weak order: it is
    asymmetric, and incomparability is transitive.  This is how [<]
    behaves on numbers other than NaN. *)
Definition depth_order_ok {num} `{Arith num} (b : QuadBatch num) : Prop :=
  (forall x y, x ∈ depth b -> y ∈ depth b ->
     nlt x y = true -> nlt y x = false) /\
  (forall x y z, x ∈ depth b -> y ∈ depth b -> z ∈ depth b ->
     nlt x y = false -> nlt y z = false -> nlt x z = false).

(** An entry of [order] that fits 16 bits and indexes [depth]. *)
Definition valid_entry {num} (b : QuadBatch num) (v : Z) : Prop :=
  0 <= v < 65536 /\ v < Z.of_nat (length (depth b)).

(** The first [quadCount] entries of [order] are valid. *)
Definition batch_ok {num} (b : QuadBatch num) : Prop :=
  0 <= quadCount b /\ entries_ok (valid_entry b) (order b) (quadCount b).

(** The quads [x] and [y] have equal depth: neither depth is less than
    the other. *)
Definition same_depth {num} `{Arith num} (b : QuadBatch num) (x y : Z)
    : Prop :=
  js_lt (depth_at b (Some x)) (depth_at b (Some y)) = false /\
  js_lt (depth_at b (Some y)) (depth_at b (Some x)) = false.

(** The first [quadCount] entries of [order]. *)
Definition draw_order {num} (b : QuadBatch num) : list Z :=
  take (Z.to_nat (quadCount b)) (order b).

(** More example batches over the rationals. *)
Module TieExamples.
(** Three quads of depths 2, 1, 2: quads 0 and 2 tie. *)
Definition depths_2_1_2 : QuadBatch Q :=
  Examples.quad (Examples.quad (Examples.quad (newQuadBatch 3)
    (Obj 1) 2%Q) (Obj 1) 1%Q) (Obj 1) 2%Q.
End TieExamples.

(** Rationals with NaN: [None] is NaN, which every operation passes on
    and which [<] never holds of.  The infinities are not among these
    numbers: a division by zero is read as NaN, and no example below
    divides by zero. *)
Module QNaN.
Definition op (f : Q -> Q -> Q) (x y : option Q) : option Q :=
  match x, y with
  | Some a, Some b => Some (f a b)
  | _, _ => None
  end.

Definition div (x y : option Q) : option Q :=
  match x, y with
  | Some a, Some b => if Qeq_bool b 0 then None else Some (a / b)%Q
  | _, _ => None
  end.

Definition lt (x y : option Q) : bool :=
  match x, y with
  | Some a, Some b => QNum.lt a b
  | _, _ => false
  end.

Global Instance arith : Arith (option Q) := {
  n_zero := Some 0%Q;
  n_one := Some 1%Q;
  nadd := op Qplus;
  nsub := op Qminus;
  nmul := op Qmult;
  ndiv := div;
  nlt := lt;
  f32 := fun x => x
}.
End QNaN.

(** A batch with a NaN among its depths. *)
Module NaNExamples.
(** [batch.add(st, 0, 0, d, 0, 0, 1, 1, 0, 0, 0, 0, 1, 1, 1, 1)]. *)
Definition quad (b : QuadBatch (option Q)) (d : option Q)
    : QuadBatch (option Q) :=
  fst (add b (Obj 1) (Some 0%Q) (Some 0%Q) d (Some 0%Q) (Some 0%Q)
         (Some 1%Q) (Some 1%Q) (Some 0%Q) 0 (Some 0%Q) (Some 0%Q)
         (Some 1%Q) (Some 1%Q) (Some 1%Q) (Some 1%Q)).

(** Six quads of depths 1, NaN, 2, 1, 1, 2, inserted in this order. *)
Definition depths_1_NaN_2_1_1_2 : QuadBatch (option Q) :=
  quad (quad (quad (quad (quad (quad (newQuadBatch 6)
    (Some 1%Q)) None) (Some 2%Q)) (Some 1%Q)) (Some 1%Q)) (Some 2%Q).
End NaNExamples.

(** *** Sequences of calls on a batch *)

(** A call of [add] with its sixteen arguments, or of [sort] with a
    comparator; [fuel] bounds how long the sort is followed. *)
Inductive call (num : Type) : Type :=
  | Add (st : token)
      (x y dpth originX originY scaleX scaleY orient : num) (color : Z)
      (sourceX sourceY sourceWidth sourceHeight imageWidth imageHeight : num)
  | Sort (fuel : nat) (compare : comparator num).
Arguments Add {num}.
Arguments Sort {num}.

Definition do_call {num} `{Arith num} (b : QuadBatch num) (c : call num)
    : QuadBatch num :=
  match c with
  | Add st x y d ox oy sx sy o color srx sry srw srh iw ih =>
      fst (add b st x y d ox oy sx sy o color srx sry srw srh iw ih)
  | Sort fuel compare => reached (sort fuel b compare)
  end.

Definition run {num} `{Arith num} (b : QuadBatch num)
    (calls : list (call num)) : QuadBatch num :=
  fold_left do_call calls b.

(** Every [add] of the sequence is made with [quadCount < quadCapacity]. *)
Fixpoint adds_in_capacity {num} `{Arith num} (b : QuadBatch num)
    (calls : list (call num)) : Prop :=
  match calls with
  | [] => True
  | c :: calls' =>
      match c with
      | Add _ _ _ _ _ _ _ _ _ _ _ _ _ _ _ _ => quadCount b < quadCapacity b
      | Sort _ _ => True
      end /\ adds_in_capacity (do_call b c) calls'
  end.

(** [order[0 .. quadCount)] is a permutation of [0 .. quadCount - 1]. *)
Definition order_is_permutation {num} (b : QuadBatch num) : Prop :=
  Permutation (draw_order b) (positions 0 (Z.to_nat (quadCount b))).

(** What holds of a batch of at most 65536 quads between calls. *)
Definition order_inv {num} (b : QuadBatch num) : Prop :=
  0 <= quadCount b <= quadCapacity b /\
  quadCapacity b <= Z.of_nat (length (order b)) /\
  quadCapacity b <= 65536 /\
  order_is_permutation b.

(** [add] with a state and everything else zero. *)
Definition add_plain {num} `{Arith num} (st : token) : call num :=
  Add st n_zero n_zero n_zero n_zero n_zero n_zero n_zero n_zero 0
    n_zero n_zero n_zero n_zero n_zero n_zero.

(** [r] is [b] with [order[0 .. e]] rearranged, all of whose first [n]
    entries fit 16 bits. *)
Definition rearranged {num} (n e : Z) (b r : QuadBatch num) : Prop :=
  within (order b) (order r) e /\
  entries_ok (fun v => 0 <= v < 65536) (order r) n /\
  quadCount r = quadCount b /\ quadCapacity r = quadCapacity b.

(** *** Frames *)

(** The batch after some frames, each a sequence of [add] and [sort]
    calls ended by [flush]. *)
Fixpoint run_frames {num} `{Arith num} (b : QuadBatch num)
    (frames : list (list (call num))) : QuadBatch num :=
  match frames with
  | [] => b
  | calls :: frames' => run_frames (flush (run b calls)) frames'
  end.

(** Every [add] of every frame is made with room left. *)
Fixpoint frames_in_capacity {num} `{Arith num} (b : QuadBatch num)
    (frames : list (list (call num))) : Prop :=
  match frames with
  | [] => True
  | calls :: frames' =>
      adds_in_capacity b calls /\
      frames_in_capacity (flush (run b calls)) frames'
  end.

(** *** Vocabulary of the further properties *)

Definition Zsum (l : list Z) : Z := fold_right Z.add 0 l.

(** The ranges of the batch covered by passes of the given sizes, the
    first starting at [start]: [(start, n1); (start + n1, n2); ...]. *)
Fixpoint batch_ranges (start : Z) (passes : list Z) : list (Z * Z) :=
  match passes with
  | [] => []
  | n :: passes' => (start, n) :: batch_ranges (start + n) passes'
  end.

(** The ranges of the batch (first quad, count) for which vertices were
    generated, in the order of the calls. *)
Definition generated (calls : list glcall) : list (Z * Z) :=
  omap (fun c =>
          match c with
          | GenerateVertices _ o n => Some (o, n)
          | _ => None
          end) calls.

(** The index ranges drawn by [calls] follow one another from [base]:
    the result is the index after the last range. *)
Fixpoint draws_contiguous (base : Z) (calls : list glcall) : option Z :=
  match calls with
  | [] => Some base
  | DrawIndexed n b :: calls' =>
      if b =? base then draws_contiguous (base + n) calls' else None
  | _ :: calls' => draws_contiguous base calls'
  end.

(** The index counts of the draws among [calls]. *)
Definition draw_sizes (calls : list glcall) : list Z :=
  omap (fun c =>
          match c with
          | DrawIndexed n _ => Some n
          | _ => None
          end) calls.

(** The states handed to the [applyState] callback, in order. *)
Definition applied (calls : list glcall) : list token :=
  omap (fun c =>
          match c with
          | ApplyState s => Some s
          | _ => None
          end) calls.

(** The tokens of [l] that differ from their predecessor, [prev] being
    the predecessor of the first. *)
Fixpoint run_heads (prev : token) (l : list token) : list token :=
  match l with
  | [] => []
  | t :: l' =>
      (if strict_ne t prev then [t] else []) ++ run_heads t l'
  end.

(** A call of [bufferData] stays inside the buffers of the effect:
    vertices [base .. base + 4 n) inside the vertex buffer, and the
    uploaded byte ranges inside the vertex and index buffers. *)
Definition call_in_bounds (this : QuadEffect) (c : glcall) : Prop :=
  match c with
  | GenerateVertices base _ n =>
      0 <= base /\ base + 4 * n <= vertexCapacity this
  | UploadArrayBufferRegion offsetVB amountVB =>
      0 <= offsetVB /\ 0 <= amountVB /\
      offsetVB + amountVB <= vertexCapacity this * vertexSize this
  | UploadIndexBufferRegion offsetIB amountIB =>
      0 <= offsetIB /\ 0 <= amountIB /\
      offsetIB + amountIB * indexSize this <=
        indexCapacity this * indexSize this
  | _ => True
  end.

(** [state[order[i]]], ..., [state[order[i + todo - 1]]]. *)
Fixpoint tokens_from {num} (batch : QuadBatch num) (i : Z) (todo : nat)
    : list token :=
  match todo with
  | O => []
  | S todo' => token_at batch i :: tokens_from batch (i + 1) todo'
  end.

(** The six vertices of the two triangles of a quad, relative to its
    first vertex. *)
Definition quad_triangles : list Z := [1; 0; 2; 2; 0; 3].

(** The typed arrays of the batch have the lengths [resize] gives them
    for [quadCapacity] quads. *)
Definition typed_sized {num} (b : QuadBatch num) : Prop :=
  0 <= quadCapacity b /\
  Z.of_nat (length (order b)) = quadCapacity b /\
  Z.of_nat (length (sourceRects b)) = 4 * quadCapacity b /\
  Z.of_nat (length (targetRects b)) = 4 * quadCapacity b /\
  Z.of_nat (length (originPoint b)) = 2 * quadCapacity b /\
  Z.of_nat (length (scaleFactor b)) = 2 * quadCapacity b /\
  Z.of_nat (length (tintColor b)) = quadCapacity b /\
  Z.of_nat (length (orientation b)) = quadCapacity b /\
  Z.of_nat (length (depth b)) = quadCapacity b.


(** *** Vertex layout *)

(** The view a store of [ptcg] goes to. *)
Inductive stream : Type := PTX | CLR | ATR.

Definition target {num} (s : store num) : stream * Z :=
  match s with
  | StorePTX i _ => (PTX, i)
  | StoreCLR i _ => (CLR, i)
  | StoreATR i _ => (ATR, i)
  end.

(** The elements of vertex [v] in the three views, in the order [ptcg]
    stores them: four of position and texture, four of colour, three
    generic ones. *)
Definition vertex_targets (view : BufferView) (v : Z) : list (stream * Z) :=
  [(PTX, v * asp view + aop view + 0); (PTX, v * asp view + aop view + 1);
   (PTX, v * asp view + aop view + 2); (PTX, v * asp view + aop view + 3);
   (CLR, v * asc view + aoc view + 0); (CLR, v * asc view + aoc view + 1);
   (CLR, v * asc view + aoc view + 2); (CLR, v * asc view + aoc view + 3);
   (ATR, v * asa view + aoa view + 0); (ATR, v * asa view + aoa view + 1);
   (ATR, v * asa view + aoa view + 2)].

(** [v; v + 1; ...], [n] vertices. *)
Fixpoint vertices_from (v : Z) (n : nat) : list Z :=
  match n with
  | O => []
  | S n' => v :: vertices_from (v + 1) n'
  end.

(** The values stored into the colour view, in order. *)
Definition clr_values {num} (l : list (store num)) : list Z :=
  omap (fun s =>
          match s with
          | StoreCLR _ v => Some v
          | _ => None
          end) l.

(** The 32-bit colour of four channel bytes, the first the most
    significant. *)
Definition rgba (r g b a : Z) : Z := ((r * 256 + g) * 256 + b) * 256 + a.

(** *** The generic attribute *)

(** The stores into the generic view ([aDGG]), as index and value, in
    order. *)
Definition atr_stores {num} (l : list (store num)) : list (Z * num) :=
  omap (fun s =>
          match s with
          | StoreATR i v => Some (i, v)
          | _ => None
          end) l.

(** The depth [ptcg] reads for the quad at position [i] of [order]:
    [depth[order[i]]], NaN when the read is undefined. *)
Definition depth_read {num} `{VertexMath num} (batch : QuadBatch num)
    (i : Z) : num :=
  default nnan (depth_at batch (aget (order batch) i)).

(** The three generic elements of vertex [v] of a quad of depth [d]:
    [1 / d], 0 and 0, each rounded by the store. *)
Definition generic_of_vertex {num} `{Arith num} (view : BufferView)
    (d : num) (v : Z) : list (Z * num) :=
  [(v * asa view + aoa view + 0, f32 (ndiv n_one d));
   (v * asa view + aoa view + 1, f32 n_zero);
   (v * asa view + aoa view + 2, f32 n_zero)].

(** The generic elements of the four vertices of each of the [todo]
    quads from position [i] of [order], the first quad at vertex [v]. *)
Fixpoint generic_of_quads {num} `{Arith num} `{VertexMath num} (todo : nat)
    (view : BufferView) (batch : QuadBatch num) (i v : Z)
    : list (Z * num) :=
  match todo with
  | O => []
  | S todo' =>
    flat_map (generic_of_vertex view (depth_read batch i))
      (vertices_from v 4)
    ++ generic_of_quads todo' view batch (i + 1) (v + 4)
  end.

(** *** Batches drawn one after the other *)

(** [makeCurrent] and [drawBatch] for each batch of the list in turn,
    as a frame loop does; each [drawBatch] is followed for one
    iteration more than the batch has quads. *)
Fixpoint drawBatches {num} (this : QuadEffect) (batches : list (QuadBatch num))
    : option (QuadEffect * list glcall) :=
  match batches with
  | [] => Some (this, [])
  | batch :: batches' =>
    let '(this0, selected) := makeCurrent this in
    match drawBatch (S (Z.to_nat (quadCount batch))) this0 batch with
    | Some (this1, calls, _) =>
      match drawBatches this1 batches' with
      | Some (this2, calls') => Some (this2, selected ++ calls ++ calls')
      | None => None
      end
    | None => None
    end
  end.

(** ** GLContext: buffer proxies and buffer binding *)

(** The part of [GLContext] (src/scripts/webgl.js) that [QuadEffect]
    drives its two buffers through.  Proxy objects live in a store and
    are named by their position in it, so that [===] on proxies is
    equality of references; the calls made on the underlying
    [WebGLRenderingContext] are recorded in order. *)
Module GL.

(** [gl.ARRAY_BUFFER] and [gl.ELEMENT_ARRAY_BUFFER]. *)
Definition ARRAY_BUFFER : Z := 34962.
Definition ELEMENT_ARRAY_BUFFER : Z := 34963.

Inductive index_type : Type := UNSIGNED_BYTE | UNSIGNED_SHORT | UNSIGNED_INT.

(** The object [createBufferProxy] returns; [bufferResource] is a
    [WebGLBuffer] or null, [webglContext] the owning [GLContext] or
    null. *)
Record BufferProxy : Type := mkBufferProxy {
  bufferResource : option Z;
  webglContext : option Z;
  bindTarget : Z;
  usageType : Z;
  totalSize : Z;
  elementSize : Z;
  elementCount : Z
}.

(** Calls on the [WebGLRenderingContext]; [CreateBuffer r] is a call of
    [gl.createBuffer()] that returned the buffer [r].  The data of an
    upload is left out. *)
Inductive rawcall : Type :=
  | CreateBuffer (r : Z)
  | BindBuffer (target : Z) (buffer : option Z)
  | BufferData (target size usage : Z)
  | BufferSubData (target byteOffset : Z)
  | DeleteBuffer (buffer : option Z)
  | DrawElements (count : Z) (type : index_type) (offset : Z).

(** A [GLContext] ([identity] tells it from other contexts) with the
    proxy objects of the program and the number of buffers
    [gl.createBuffer] has handed out, which names the next one. *)
Record GLContext : Type := mkGLContext {
  identity : Z;
  activeArrayBuffer : option nat;
  activeElementBuffer : option nat;
  proxies : list BufferProxy;
  created : Z
}.

(** The context of the constructor: nothing is active. *)
Definition newGLContext (id : Z) : GLContext :=
  mkGLContext id None None [] 0.

Definition set_activeArrayBuffer (this : GLContext) (a : option nat)
    : GLContext :=
  mkGLContext (identity this) a (activeElementBuffer this)
    (proxies this) (created this).

Definition set_activeElementBuffer (this : GLContext) (a : option nat)
    : GLContext :=
  mkGLContext (identity this) (activeArrayBuffer this) a
    (proxies this) (created this).

Definition is_active (a : option nat) (proxy : nat) : bool :=
  match a with
  | Some q => Nat.eqb q proxy
  | None => false
  end.

(** [GLContext.prototype.createBufferProxy]. *)
Definition createBufferProxy (this : GLContext) : GLContext * nat :=
  (mkGLContext (identity this) (activeArrayBuffer this)
     (activeElementBuffer this)
     (proxies this ++ [mkBufferProxy None (Some (identity this)) 0 0 0 0 0])
     (created this),
   length (proxies this)).

(** [GLContext.prototype.unbindBuffer]. *)
Definition unbindBuffer (this : GLContext) (target : Z)
    : GLContext * list rawcall :=
  if (ARRAY_BUFFER =? target) && bool_decide (is_Some (activeArrayBuffer this))
  then (set_activeArrayBuffer this None, [BindBuffer ARRAY_BUFFER None])
  else if (ELEMENT_ARRAY_BUFFER =? target) &&
          bool_decide (is_Some (activeElementBuffer this))
  then (set_activeElementBuffer this None,
        [BindBuffer ELEMENT_ARRAY_BUFFER None])
  else (this, []).

(** [GLContext.prototype.useBuffer]; [None] when [proxy] names no
    object. *)
Definition useBuffer (this : GLContext) (proxy : nat)
    : option (GLContext * list rawcall) :=
  match proxies this !! proxy with
  | None => None
  | Some px =>
    let '(this, bound1) :=
      if (ARRAY_BUFFER =? bindTarget px) &&
         negb (is_active (activeArrayBuffer this) proxy)
      then (set_activeArrayBuffer this (Some proxy),
            [BindBuffer ARRAY_BUFFER (bufferResource px)])
      else (this, []) in
    let '(this, bound2) :=
      if (ELEMENT_ARRAY_BUFFER =? bindTarget px) &&
         negb (is_active (activeElementBuffer this) proxy)
      then (set_activeElementBuffer this (Some proxy),
            [BindBuffer ELEMENT_ARRAY_BUFFER (bufferResource px)])
      else (this, []) in
    Some (this, bound1 ++ bound2)
  end.

(** [GLContext.prototype.createBufferResource]; [target] and [usage]
    are [gl[args.target]] and [gl[args.usage]].  Returns the function's
    boolean result as well. *)
Definition createBufferResource (this : GLContext) (proxy : nat)
    (target usage elemSize elemCount : Z)
    : option (GLContext * bool * list rawcall) :=
  match proxies this !! proxy with
  | None => None
  | Some px =>
    if bool_decide (webglContext px = Some (identity this)) then
      let r := created this in
      let px' := mkBufferProxy (Some r) (webglContext px) target usage
                   (elemSize * elemCount) elemSize elemCount in
      Some (mkGLContext (identity this) (activeArrayBuffer this)
              (activeElementBuffer this) (<[proxy := px']> (proxies this))
              (created this + 1),
            true,
            [CreateBuffer r; BindBuffer target (Some r);
             BufferData target (elemSize * elemCount) usage])
    else Some (this, false, [])
  end.

(** [GLContext.prototype.deleteBufferResource]. *)
Definition deleteBufferResource (this : GLContext) (proxy : nat)
    : option (GLContext * list rawcall) :=
  match proxies this !! proxy with
  | None => None
  | Some px =>
    if bool_decide (webglContext px = Some (identity this)) then
      let '(this, unbound) :=
        if is_active (activeArrayBuffer this) proxy ||
           is_active (activeElementBuffer this) proxy
        then unbindBuffer this (bindTarget px)
        else (this, []) in
      let px' := mkBufferProxy None (webglContext px) (bindTarget px)
                   (usageType px) (totalSize px) (elementSize px)
                   (elementCount px) in
      Some (mkGLContext (identity this) (activeArrayBuffer this)
              (activeElementBuffer this) (<[proxy := px']> (proxies this))
              (created this),
            unbound ++ [DeleteBuffer (bufferResource px)])
    else Some (this, [])
  end.

(** [GLContext.prototype.uploadArrayBufferRegion]. *)
Definition uploadArrayBufferRegion (this : GLContext) (byteOffset : Z)
    : list rawcall :=
  match activeArrayBuffer this with
  | None => []
  | Some _ => [BufferSubData ARRAY_BUFFER byteOffset]
  end.

(** [GLContext.prototype.uploadIndexBufferRegion]. *)
Definition uploadIndexBufferRegion (this : GLContext) (byteOffset : Z)
    : list rawcall :=
  match activeElementBuffer this with
  | None => []
  | Some _ => [BufferSubData ELEMENT_ARRAY_BUFFER byteOffset]
  end.

(** [GLContext.prototype.drawIndexed], for an integer [startIndex]
    (on which [startIndex || 0] changes nothing); [None] when the
    active element buffer names no object. *)
Definition drawIndexed (this : GLContext) (count startIndex : Z)
    : option (list rawcall) :=
  match activeElementBuffer this with
  | None => Some []
  | Some indices =>
    match proxies this !! indices with
    | None => None
    | Some px =>
      let offset := startIndex * elementSize px in
      if elementSize px =? 1
      then Some [DrawElements count UNSIGNED_BYTE offset]
      else if elementSize px =? 2
      then Some [DrawElements count UNSIGNED_SHORT offset]
      else if elementSize px =? 4
      then Some [DrawElements count UNSIGNED_INT offset]
      else Some []
    end
  end.

(** *** Programs of buffer calls *)

Inductive op : Type :=
  | OpCreateBufferProxy
  | OpCreateBufferResource (proxy : nat) (target usage elemSize elemCount : Z)
  | OpDeleteBufferResource (proxy : nat)
  | OpUseBuffer (proxy : nat)
  | OpUnbindBuffer (target : Z)
  | OpUploadArrayBufferRegion (byteOffset : Z)
  | OpUploadIndexBufferRegion (byteOffset : Z)
  | OpDrawIndexed (count startIndex : Z).

Definition exec (this : GLContext) (o : op)
    : option (GLContext * list rawcall) :=
  match o with
  | OpCreateBufferProxy => Some (fst (createBufferProxy this), [])
  | OpCreateBufferResource proxy target usage elemSize elemCount =>
      match createBufferResource this proxy target usage elemSize elemCount
      with
      | Some (this', _, calls) => Some (this', calls)
      | None => None
      end
  | OpDeleteBufferResource proxy => deleteBufferResource this proxy
  | OpUseBuffer proxy => useBuffer this proxy
  | OpUnbindBuffer target => Some (unbindBuffer this target)
  | OpUploadArrayBufferRegion byteOffset =>
      Some (this, uploadArrayBufferRegion this byteOffset)
  | OpUploadIndexBufferRegion byteOffset =>
      Some (this, uploadIndexBufferRegion this byteOffset)
  | OpDrawIndexed count startIndex =>
      match drawIndexed this count startIndex with
      | Some calls => Some (this, calls)
      | None => None
      end
  end.

Fixpoint run_ops (this : GLContext) (ops : list op)
    : option (GLContext * list rawcall) :=
  match ops with
  | [] => Some (this, [])
  | o :: ops' =>
    match exec this o with
    | None => None
    | Some (this1, calls1) =>
      match run_ops this1 ops' with
      | None => None
      | Some (this2, calls2) => Some (this2, calls1 ++ calls2)
      end
    end
  end.

(** *** The bindings of the WebGL context *)

(** The buffers bound to the two targets. *)
Record bindings : Type := mkBindings {
  boundArray : option Z;
  boundElement : option Z
}.

Definition unbind_deleted (bound buffer : option Z) : option Z :=
  match bound, buffer with
  | Some b, Some r => if b =? r then None else bound
  | _, _ => bound
  end.

(** The effect of one call on the bindings: [bindBuffer] sets the
    binding of its target, [deleteBuffer] resets the bindings that hold
    the deleted buffer. *)
Definition gl_step (g : bindings) (c : rawcall) : bindings :=
  match c with
  | BindBuffer target buffer =>
      if target =? ARRAY_BUFFER then mkBindings buffer (boundElement g)
      else if target =? ELEMENT_ARRAY_BUFFER
      then mkBindings (boundArray g) buffer
      else g
  | DeleteBuffer buffer =>
      mkBindings (unbind_deleted (boundArray g) buffer)
                 (unbind_deleted (boundElement g) buffer)
  | _ => g
  end.

Definition gl_replay (g : bindings) (calls : list rawcall) : bindings :=
  fold_left gl_step calls g.

(** The buffer of the proxy the context holds as active, if it holds
    one. *)
Definition resource_of (this : GLContext) (proxy : nat) : option Z :=
  match proxies this !! proxy with
  | Some px => bufferResource px
  | None => None
  end.

(** What the context records agrees with the bindings: a proxy recorded
    as active for a target has that bind target and its buffer is the
    one bound. *)
Definition coherent (this : GLContext) (g : bindings) : Prop :=
  (forall q, activeArrayBuffer this = Some q ->
     exists px, proxies this !! q = Some px /\
       bindTarget px = ARRAY_BUFFER /\ boundArray g = bufferResource px) /\
  (forall q, activeElementBuffer this = Some q ->
     exists px, proxies this !! q = Some px /\
       bindTarget px = ELEMENT_ARRAY_BUFFER /\
       boundElement g = bufferResource px).

(** The buffers of the proxies are buffers [gl.createBuffer] returned,
    each held by one proxy. *)
Definition resources_distinct (this : GLContext) : Prop :=
  (forall p px r, proxies this !! p = Some px ->
     bufferResource px = Some r -> r < created this) /\
  (forall p q px qx r, proxies this !! p = Some px ->
     proxies this !! q = Some qx ->
     bufferResource px = Some r -> bufferResource qx = Some r -> p = q).

(** The proxy recorded as active for [target], if the target is one of
    the two. *)
Definition active_on (this : GLContext) (target : Z) : option nat :=
  if target =? ARRAY_BUFFER then activeArrayBuffer this
  else if target =? ELEMENT_ARRAY_BUFFER then activeElementBuffer this
  else None.

(** [createBufferResource(proxy, target)] is called while no other
    proxy is recorded as active for [target] and [proxy] is not
    recorded for the other target. *)
Definition create_unshadowed (this : GLContext) (proxy : nat) (target : Z)
    : Prop :=
  (forall q, active_on this target = Some q -> q = proxy) /\
  (activeArrayBuffer this = Some proxy -> target = ARRAY_BUFFER) /\
  (activeElementBuffer this = Some proxy -> target = ELEMENT_ARRAY_BUFFER).

(** Every [createBufferResource] of the program is made unshadowed. *)
Fixpoint creates_unshadowed (this : GLContext) (ops : list op) : Prop :=
  match ops with
  | [] => True
  | o :: ops' =>
    match o with
    | OpCreateBufferResource proxy target _ _ _ =>
        create_unshadowed this proxy target
    | _ => True
    end /\
    match exec this o with
    | Some (this', _) => creates_unshadowed this' ops'
    | None => True
    end
  end.

End GL.

Module GLPrograms.
Import GL.

(** The program names only proxies that exist: the [n] there are at
    its start and those it has created. *)
Fixpoint proxies_in_scope (n : nat) (ops : list op) : Prop :=
  match ops with
  | [] => True
  | o :: ops' =>
    match o with
    | OpCreateBufferProxy => proxies_in_scope (S n) ops'
    | OpCreateBufferResource p _ _ _ _
    | OpDeleteBufferResource p
    | OpUseBuffer p => (p < n)%nat /\ proxies_in_scope n ops'
    | _ => proxies_in_scope n ops'
    end
  end.

(** Nothing is bound. *)
Definition unbound : bindings := mkBindings None None.

End GLPrograms.

(** ** QuadEffect on a GLContext *)

Module EffectOnGL.
Import GL.

(** The buffer calls of [GLContext] behind a call of the effect, for an
    effect whose [vertexBuffer] and [indexBuffer] are the proxies [vbo]
    and [ibo]: [makeCurrent] selects the two buffers, [bufferData]
    uploads the two regions, [drawRegion] draws.  The other calls go to
    the program and the render states and to the caller's callbacks. *)
Definition buffer_ops (vbo ibo : nat) (c : glcall) : list op :=
  match c with
  | UseIndexBuffer => [OpUseBuffer ibo]
  | UseVertexBuffer => [OpUseBuffer vbo]
  | UploadArrayBufferRegion offsetVB _ => [OpUploadArrayBufferRegion offsetVB]
  | UploadIndexBufferRegion offsetIB _ => [OpUploadIndexBufferRegion offsetIB]
  | DrawIndexed nindex baseIndex => [OpDrawIndexed nindex baseIndex]
  | _ => []
  end.

(** The upload or draw on the WebGL context that a call of the effect
    asks for, the indices being 16-bit ones. *)
Definition reaching (c : glcall) : option rawcall :=
  match c with
  | UploadArrayBufferRegion offsetVB _ =>
      Some (BufferSubData ARRAY_BUFFER offsetVB)
  | UploadIndexBufferRegion offsetIB _ =>
      Some (BufferSubData ELEMENT_ARRAY_BUFFER offsetIB)
  | DrawIndexed nindex baseIndex =>
      Some (DrawElements nindex UNSIGNED_SHORT (baseIndex * 2))
  | _ => None
  end.

Definition is_work (c : rawcall) : bool :=
  match c with
  | BufferSubData _ _ | DrawElements _ _ _ => true
  | _ => false
  end.

End EffectOnGL.

(** Contexts of the examples. *)
Module GLExamples.
Import GL.

(** What the constructor and [createResources] of a [QuadEffect] of
    2048 quads with 32-byte vertices do to the buffers, then
    [makeCurrent], one pass of two quads and [deleteResources]; 35048
    is [gl.DYNAMIC_DRAW]. *)
Definition construct : list op :=
  [OpCreateBufferProxy; OpCreateBufferProxy;
   OpCreateBufferResource 0 ARRAY_BUFFER 35048 32 8192;
   OpCreateBufferResource 1 ELEMENT_ARRAY_BUFFER 35048 2 12288].

Definition select : list op := [OpUseBuffer 1; OpUseBuffer 0].

Definition sprite_program : list op :=
  construct ++ select ++
  [OpUploadArrayBufferRegion 0; OpUploadIndexBufferRegion 0;
   OpDrawIndexed 12 0;
   OpDeleteBufferResource 1; OpDeleteBufferResource 0].

(** The context a program leaves, started on a new context. *)
Definition after (ops : list op) : GLContext :=
  match run_ops (newGLContext 1) ops with
  | Some (this, _) => this
  | None => newGLContext 1
  end.

(** The calls of [drawBatch] for the two quads of [two_states]. *)
Definition two_quads_drawn : list glcall :=
  match drawBatch 3 (Examples.effect 2) Examples.two_states with
  | Some (_, calls, _) => calls
  | None => []
  end.
End GLExamples.

(** An indexed draw reads the indices [lo .. hi) at most. *)
Definition draw_within (lo hi : Z) (c : glcall) : Prop :=
  match c with
  | DrawIndexed n b => 0 <= n /\ lo <= b /\ b + n <= hi
  | _ => True
  end.

(** * Properties *)

(** ** The ring buffer *)

(** Under the cursor invariant the quotient [numVertices / 4] of
    [bufferData] is exact, whichever branch computed [numVertices]. *)
Lemma bufferData_division_exact (this : QuadEffect) (count : Z) :
  vertexCapacity this mod 4 = 0 ->
  ring_inv this ->
  (count * 4) mod 4 = 0 /\
  (vertexCapacity this - vertexOffset this) mod 4 = 0.
Proof.
  intros Hcap (_ & Hoff & _). split.
  - apply Z.mod_mul. lia.
  - rewrite Zminus_mod, Hcap, Hoff. reflexivity.
Qed.

(** C3. From cursors with [0 <= vertexOffset < vertexCapacity],
    [vertexOffset] a multiple of 4 and [indexOffset = 6 * (vertexOffset / 4)],
    [bufferData] returns [q = min count ((vertexCapacity - vertexOffset) / 4)];
    with [q = 0] it changes nothing and makes no call; otherwise the
    cursors advance by [4 q] and [6 q] and both wrap to 0 exactly when
    [vertexOffset] reaches [vertexCapacity]; the invariant holds again
    afterwards.  [count] is a number of quads and [vertexCapacity] four
    times a number of quads, as [createResources] sets it. *)
Theorem bufferData_ring_invariant {num} (this : QuadEffect)
    (batch : QuadBatch num) (offset count : Z) :
  vertexCapacity this mod 4 = 0 ->
  0 <= count ->
  ring_inv this ->
  let '(this', q, calls) := bufferData this batch offset count in
  q = Z.min count ((vertexCapacity this - vertexOffset this) / 4) /\
  (q = 0 -> this' = this /\ calls = []) /\
  (q <> 0 ->
     (vertexOffset this + 4 * q = vertexCapacity this ->
        vertexOffset this' = 0 /\ indexOffset this' = 0) /\
     (vertexOffset this + 4 * q <> vertexCapacity this ->
        vertexOffset this' = vertexOffset this + 4 * q /\
        indexOffset this' = indexOffset this + 6 * q)) /\
  vertexCapacity this' = vertexCapacity this /\
  ring_inv this'.
Proof.
  intros Hcap Hcount (Hrange & Hoff & Hidx).
  unfold bufferData, ring_inv.
  destruct this as [cs idata vcap voff icap ioff vsz isz]; simpl in *.
  apply Z.mod_divide in Hcap; [|lia]. destruct Hcap as [c ->].
  apply Z.mod_divide in Hoff; [|lia]. destruct Hoff as [o ->].
  rewrite Z.div_mul in Hidx by lia. subst ioff.
  replace (c * 4 - o * 4) with ((c - o) * 4) by lia.
  rewrite Z.div_mul by lia.
  destruct (c * 4 <? o * 4 + count * 4) eqn:Hclamp.
  - apply Z.ltb_lt in Hclamp.
    replace (c * 4 - o * 4) with ((c - o) * 4) by lia.
    rewrite Z.div_mul by lia.
    destruct (c - o =? 0) eqn:Hz; [apply Z.eqb_eq in Hz; lia|].
    apply Z.eqb_neq in Hz.
    replace (c * 4 =? o * 4 + (c - o) * 4) with true
      by (symmetry; apply Z.eqb_eq; lia).
    simpl. repeat split; try lia; try (intros; lia).
  - apply Z.ltb_ge in Hclamp.
    rewrite Z.div_mul by lia.
    destruct (count =? 0) eqn:Hz.
    + apply Z.eqb_eq in Hz. subst count. simpl.
      repeat split; try lia; try (intros; lia); try congruence.
      * apply Z.mod_mul; lia.
      * rewrite Z.div_mul; lia.
    + apply Z.eqb_neq in Hz.
      destruct (c * 4 =? o * 4 + count * 4) eqn:Hw; simpl.
      * apply Z.eqb_eq in Hw.
        repeat split; try lia; try (intros; lia).
      * apply Z.eqb_neq in Hw.
        replace (o * 4 + count * 4) with ((o + count) * 4) by lia.
        rewrite Z.div_mul by lia.
        repeat split; try lia; try (intros; lia).
        apply Z.mod_mul; lia.
Qed.

Lemma bufferData_ring_invariant_witness :
  let this := createResources newQuadEffect 32 2 in
  let batch : QuadBatch Q := newQuadBatch 4 in
  let '(this', q, calls) := bufferData this batch 0 3 in
  q = Z.min 3 ((vertexCapacity this - vertexOffset this) / 4) /\
  (q = 0 -> this' = this /\ calls = []) /\
  (q <> 0 ->
     (vertexOffset this + 4 * q = vertexCapacity this ->
        vertexOffset this' = 0 /\ indexOffset this' = 0) /\
     (vertexOffset this + 4 * q <> vertexCapacity this ->
        vertexOffset this' = vertexOffset this + 4 * q /\
        indexOffset this' = indexOffset this + 6 * q)) /\
  vertexCapacity this' = vertexCapacity this /\
  ring_inv this'.
Proof.
  apply (bufferData_ring_invariant (num := Q)
           (createResources newQuadEffect 32 2) (newQuadBatch 4) 0 3).
  - reflexivity.
  - lia.
  - unfold ring_inv. simpl. repeat split; lia.
Defined.

(** [createResources] establishes the cursor invariant for every
    positive capacity. *)
Lemma createResources_ring_inv (this : QuadEffect) (stride capacity : Z) :
  0 < capacity ->
  ring_inv (createResources this stride capacity) /\
  vertexCapacity (createResources this stride capacity) mod 4 = 0.
Proof.
  intros Hc. unfold ring_inv. simpl. repeat split; try lia.
  apply Z.mod_mul. lia.
Qed.

(** ** resize *)

Lemma resize_spec {num} `{Arith num} (this : QuadBatch num) (capacity : Z) :
  quadCapacity (resize this capacity) = capacity /\
  quadCount (resize this capacity) = 0 /\
  length (order (resize this capacity)) = Z.to_nat (capacity * 1) /\
  length (sourceRects (resize this capacity)) = Z.to_nat (capacity * 4) /\
  length (targetRects (resize this capacity)) = Z.to_nat (capacity * 4) /\
  length (originPoint (resize this capacity)) = Z.to_nat (capacity * 2) /\
  length (scaleFactor (resize this capacity)) = Z.to_nat (capacity * 2) /\
  length (tintColor (resize this capacity)) = Z.to_nat (capacity * 1) /\
  length (orientation (resize this capacity)) = Z.to_nat (capacity * 1) /\
  length (depth (resize this capacity)) = Z.to_nat (capacity * 1) /\
  length (state (resize this capacity)) = Z.to_nat capacity.
Proof.
  unfold resize, MAX_CAPCITY; simpl.
  rewrite !length_replicate. repeat split; reflexivity.
Qed.

(** C8, at a request above the maximum.  [resize 65537] sizes the arrays
    for 65537 quads, one more than [MAX_CAPACITY]: the comparison of
    lines 577-578 reads the misspelt [MAX_CAPCITY] and never clamps. *)
Theorem resize_above_maximum_not_clamped {num} `{Arith num}
    (this : QuadBatch num) :
  MAX_CAPACITY < 65537 /\
  quadCapacity (resize this 65537) = 65537 /\
  Z.of_nat (length (order (resize this 65537))) = 65537 /\
  Z.of_nat (length (depth (resize this 65537))) = 65537 /\
  Z.of_nat (length (state (resize this 65537))) = 65537 /\
  Z.of_nat (length (sourceRects (resize this 65537))) = 4 * 65537 /\
  quadCount (resize this 65537) = 0.
Proof.
  pose proof (resize_spec this 65537) as Hspec.
  generalize dependent (resize this 65537). intros b Hspec.
  destruct Hspec as (Hcap & Hcnt & Ho & Hs & _ & _ & _ & _ & _ & Hd & Hst).
  unfold MAX_CAPACITY.
  rewrite Ho, Hd, Hst, Hs, Hcap, Hcnt.
  rewrite !Z2Nat.id by lia.
  repeat split; lia.
Qed.

(** ** Sorting touches [order] only *)

Lemma same_attributes_refl {num} (b : QuadBatch num) : same_attributes b b.
Proof. unfold same_attributes. repeat split. Qed.

Lemma same_attributes_trans {num} (b1 b2 b3 : QuadBatch num) :
  same_attributes b1 b2 -> same_attributes b2 b3 -> same_attributes b1 b3.
Proof.
  unfold same_attributes. intros H12 H23.
  destruct_and!. repeat split; congruence.
Qed.

Lemma same_attributes_set_order {num} (b : QuadBatch num) (a : list Z) :
  same_attributes b (set_order b a).
Proof. unfold same_attributes. repeat split. Qed.

Lemma obind_reached_inv {A} (P : A -> Prop) (o : outcome A)
    (k : A -> outcome A) :
  P (reached o) ->
  (forall a, P a -> P (reached (k a))) ->
  P (reached (obind o k)).
Proof. destruct o; simpl; auto. Qed.

Section Frame.
Context {num : Type} `{Arith num}.
Implicit Types (this : QuadBatch num) (compare : comparator num).

Lemma siftDown_loop_frame fuel compare this root e :
  same_attributes this (reached (siftDown_loop fuel compare this root e)).
Proof.
  revert this root. induction fuel as [|fuel IH]; intros this root; simpl.
  - apply same_attributes_refl.
  - repeat case_match; simpl; try apply same_attributes_refl.
    all: eapply same_attributes_trans; [|apply IH].
    all: apply same_attributes_set_order.
Qed.

Lemma heapify_loop_frame fuel compare this s c :
  same_attributes this (reached (heapify_loop fuel compare this s c)).
Proof.
  revert this s. induction fuel as [|fuel IH]; intros this s; simpl.
  - apply same_attributes_refl.
  - case_match; simpl; [|apply same_attributes_refl].
    apply (obind_reached_inv (same_attributes this)).
    + apply siftDown_loop_frame.
    + intros a Ha. eapply same_attributes_trans; [exact Ha|apply IH].
Qed.

Lemma sort_loop_frame fuel compare this e :
  same_attributes this (reached (sort_loop fuel compare this e)).
Proof.
  revert this e. induction fuel as [|fuel IH]; intros this e; simpl.
  - apply same_attributes_refl.
  - case_match; simpl; [|apply same_attributes_refl].
    apply (obind_reached_inv (same_attributes this)).
    + eapply same_attributes_trans; [apply same_attributes_set_order|].
      apply siftDown_loop_frame.
    + intros a Ha. eapply same_attributes_trans; [exact Ha|apply IH].
Qed.

(** C9. For every comparator and however long the loops run, [sort],
    [heapify] and [siftDown] leave [sourceRects], [targetRects],
    [originPoint], [scaleFactor], [tintColor], [orientation], [depth],
    [state], [quadCount] and [quadCapacity] as they were. *)
Theorem sort_modifies_only_order fuel compare this s e :
  same_attributes this (reached (sort fuel this compare)) /\
  same_attributes this (reached (heapify fuel this compare)) /\
  same_attributes this (reached (siftDown fuel this s e compare)).
Proof.
  split; [|split].
  - unfold sort. apply (obind_reached_inv (same_attributes this)).
    + apply heapify_loop_frame.
    + intros a Ha. eapply same_attributes_trans; [exact Ha|].
      apply sort_loop_frame.
  - apply heapify_loop_frame.
  - apply siftDown_loop_frame.
Qed.
End Frame.
(** ** Draw submission *)

Section Submission.
Context {num : Type}.
Implicit Types (this : QuadEffect) (batch : QuadBatch num).

(** [drawRegion] never reads its [offset] argument. *)
Lemma drawRegion_ignores_offset this batch offset count baseIndex :
  drawRegion this batch offset count baseIndex =
  drawRegion this batch 0 count baseIndex.
Proof. reflexivity. Qed.

(** [drawRegion] moves no cursor. *)
Lemma drawRegion_cursors this batch offset count baseIndex :
  let this' := fst (drawRegion this batch offset count baseIndex) in
  vertexOffset this' = vertexOffset this /\
  indexOffset this' = indexOffset this /\
  vertexCapacity this' = vertexCapacity this /\
  indexCapacity this' = indexCapacity this /\
  vertexSize this' = vertexSize this /\
  indexSize this' = indexSize this.
Proof.
  unfold drawRegion.
  destruct (drawRegion_loop _ _ _ _ _ _ _) as [[[s1 ix] bi] calls].
  simpl. repeat split.
Qed.

(** The calls of the loop of [drawRegion] are state applications and
    draws. *)
Lemma drawRegion_loop_no_generate todo batch i state0 state1 index baseIndex :
  List.filter is_generate
    (snd (drawRegion_loop todo batch i state0 state1 index baseIndex)) = [].
Proof.
  revert i state0 state1 index baseIndex.
  induction todo as [|todo IH]; intros i state0 state1 index baseIndex;
    simpl; [reflexivity|].
  destruct (strict_ne _ state0); [|apply IH].
  destruct (i >? index);
    specialize (IH (i + 1) (state_at batch (aget (order batch) i))
                   (state_at batch (aget (order batch) i)) i);
    match goal with
    | |- context [drawRegion_loop todo batch (i + 1) ?a ?b ?c ?d] =>
        specialize (IH d);
        destruct (drawRegion_loop todo batch (i + 1) a b c d)
          as [[[s1 ix] bi] calls]
    end; simpl in *; exact IH.
Qed.

Lemma drawRegion_no_generate this batch offset count baseIndex :
  List.filter is_generate
    (snd (drawRegion this batch offset count baseIndex)) = [].
Proof.
  unfold drawRegion.
  pose proof (drawRegion_loop_no_generate (Z.to_nat count) batch 0
                (currentState this) (currentState this) 0 baseIndex) as Hl.
  destruct (drawRegion_loop _ _ _ _ _ _ _) as [[[s1 ix] bi] calls].
  simpl in *. rewrite List.filter_app, Hl. reflexivity.
Qed.

(** The draws made inside the loop of [drawRegion], once the previous
    quad's state is the state in force: one per position of the range
    whose state differs from its predecessor's. *)
Lemma drawRegion_loop_draws todo batch (s : nat) state1 index baseIndex :
  index < Z.of_nat s ->
  (1 <= s)%nat ->
  draw_calls
    (snd (drawRegion_loop todo batch (Z.of_nat s)
            (token_at batch (Z.of_nat s - 1)) state1 index baseIndex)) =
  Z.of_nat (length (List.filter
    (fun i => strict_ne (token_at batch i) (token_at batch (i - 1)))
    (positions s todo))).
Proof.
  revert s state1 index baseIndex.
  induction todo as [|todo IH]; intros s state1 index baseIndex Hix Hs;
    [reflexivity|].
  cbn [drawRegion_loop positions seq map List.filter].
  fold (positions (S s) todo).
  fold (token_at batch (Z.of_nat s)).
  replace (Z.of_nat s + 1) with (Z.of_nat (S s)) by lia.
  destruct (strict_ne (token_at batch (Z.of_nat s))
              (token_at batch (Z.of_nat s - 1))) eqn:Hne.
  - replace (Z.of_nat s >? index) with true by (symmetry; lia).
    specialize (IH (S s) (token_at batch (Z.of_nat s)) (Z.of_nat s)
                  (baseIndex + (Z.of_nat s - index) * 6)).
    replace (Z.of_nat (S s) - 1) with (Z.of_nat s) in IH by lia.
    destruct (drawRegion_loop todo batch (Z.of_nat (S s)) _ _ _ _)
      as [[[s1 ix] bi] calls].
    unfold draw_calls in *. simpl in *.
    specialize (IH ltac:(lia) ltac:(lia)). lia.
  - unfold strict_ne in Hne. apply negb_false_iff in Hne.
    apply bool_decide_eq_true in Hne.
    specialize (IH (S s) (token_at batch (Z.of_nat s)) index baseIndex).
    replace (Z.of_nat (S s) - 1) with (Z.of_nat s) in IH by lia.
    rewrite <- Hne. apply IH; lia.
Qed.

Lemma draw_calls_app (c1 c2 : list glcall) :
  draw_calls (c1 ++ c2) = draw_calls c1 + draw_calls c2.
Proof. unfold draw_calls. rewrite List.filter_app, length_app. lia. Qed.

(** One [drawRegion] over [count >= 1] quads issues one draw per
    maximal run of equal states among positions [0 .. count - 1],
    whatever [currentState] is on entry. *)
Lemma drawRegion_draws this batch offset count baseIndex :
  1 <= count ->
  draw_calls (snd (drawRegion this batch offset count baseIndex)) =
  state_changes batch count + 1.
Proof.
  intros Hc. unfold drawRegion, state_changes.
  destruct (Z.to_nat count) as [|k] eqn:Hk; [lia|].
  replace (S k - 1)%nat with k by lia.
  cbn [drawRegion_loop]. fold (token_at batch 0).
  pose proof (drawRegion_loop_draws k batch 1) as Hl.
  change (Z.of_nat 1) with 1 in Hl. change (1 - 1) with 0 in Hl.
  change (0 + 1) with 1.
  destruct (strict_ne (token_at batch 0) (currentState this)) eqn:Hne.
  - change (0 >? 0) with false. cbv iota.
    specialize (Hl (token_at batch 0) 0 baseIndex ltac:(lia) ltac:(lia)).
    destruct (drawRegion_loop k batch 1 _ _ _ _) as [[[s1 ix] bi] calls].
    unfold draw_calls in *. simpl in *.
    rewrite List.filter_app, length_app. simpl. lia.
  - unfold strict_ne in Hne. apply negb_false_iff in Hne.
    apply bool_decide_eq_true in Hne. rewrite <- Hne.
    specialize (Hl (token_at batch 0) 0 baseIndex ltac:(lia) ltac:(lia)).
    destruct (drawRegion_loop k batch 1 _ _ _ _) as [[[s1 ix] bi] calls].
    unfold draw_calls in *. simpl in *.
    rewrite List.filter_app, length_app. simpl. lia.
Qed.

(** [bufferData] from an empty ring of [C] quads. *)
Lemma bufferData_from_start this batch offset count C :
  vertexCapacity this = 4 * C ->
  vertexOffset this = 0 ->
  indexOffset this = 0 ->
  1 <= count -> 1 <= C ->
  let n := Z.min count C in
  bufferData this batch offset count =
  (mkQuadEffect (currentState this)
     (generateIndices (indexData this) 0 0 n)
     (4 * C) (if count <? C then 4 * count else 0)
     (indexCapacity this) (if count <? C then 6 * count else 0)
     (vertexSize this) (indexSize this),
   n,
   [GenerateVertices 0 offset n;
    UploadArrayBufferRegion 0 (n * vertexSize this * 4);
    UploadIndexBufferRegion 0 (n * 6)]).
Proof.
  intros Hcap Hvo Hio Hcount HC n. subst n.
  unfold bufferData. rewrite Hcap, Hvo, Hio.
  destruct (4 * C <? 0 + count * 4) eqn:Hclamp.
  - apply Z.ltb_lt in Hclamp.
    replace (4 * C - 0) with (C * 4) by lia. rewrite Z.div_mul by lia.
    replace (C =? 0) with false by (symmetry; lia).
    replace (4 * C =? 0 + C * 4) with true by (symmetry; lia).
    replace (count <? C) with false by (symmetry; lia).
    rewrite Z.min_r by lia. simpl. reflexivity.
  - apply Z.ltb_ge in Hclamp.
    rewrite Z.div_mul by lia.
    replace (count =? 0) with false by (symmetry; lia).
    rewrite Z.min_l by lia.
    destruct (count <? C) eqn:Hlt.
    + replace (4 * C =? 0 + count * 4) with false by (symmetry; lia).
      simpl. repeat f_equal; lia.
    + replace (4 * C =? 0 + count * 4) with true by (symmetry; lia).
      simpl. reflexivity.
Qed.

(** One turn of the loop of [drawBatch] from an empty ring. *)
Lemma drawBatch_loop_turn fuel this batch baseIndex quadIndex quadCount C :
  vertexCapacity this = 4 * C ->
  vertexOffset this = 0 ->
  indexOffset this = 0 ->
  1 <= quadCount -> 1 <= C ->
  exists this2 drawn,
    let n := Z.min quadCount C in
    vertexCapacity this2 = 4 * C /\
    vertexOffset this2 = (if quadCount <? C then 4 * quadCount else 0) /\
    indexOffset this2 = (if quadCount <? C then 6 * quadCount else 0) /\
    List.filter is_generate drawn = [] /\
    draw_calls drawn = state_changes batch n + 1 /\
    drawBatch_loop (S fuel) this batch baseIndex quadIndex quadCount =
    match drawBatch_loop fuel this2 batch (indexOffset this2)
            (quadIndex + n) (quadCount - n) with
    | Some (this3, calls, passes) =>
        Some (this3,
              [GenerateVertices 0 quadIndex n;
               UploadArrayBufferRegion 0 (n * vertexSize this * 4);
               UploadIndexBufferRegion 0 (n * 6)] ++ drawn ++ calls,
              n :: passes)
    | None => None
    end.
Proof.
  intros Hcap Hvo Hio Hq HC.
  cbn [drawBatch_loop].
  replace (quadCount >? 0) with true by (symmetry; lia).
  rewrite (bufferData_from_start this batch quadIndex quadCount C)
    by assumption.
  set (n := Z.min quadCount C).
  set (this1 := mkQuadEffect _ _ _ _ _ _ _ _).
  pose proof (drawRegion_cursors this1 batch quadIndex n baseIndex) as Hcur.
  pose proof (drawRegion_no_generate this1 batch quadIndex n baseIndex) as Hng.
  pose proof (drawRegion_draws this1 batch quadIndex n baseIndex) as Hdr.
  destruct (drawRegion this1 batch quadIndex n baseIndex)
    as [this2 drawn] eqn:Hd.
  simpl in Hcur, Hng, Hdr.
  destruct Hcur as (Hv & Hi & Hvc & _ & _ & _).
  exists this2, drawn. cbv zeta.
  repeat split; try assumption.
  apply Hdr. subst n. lia.
Qed.

(** C1. A batch of [N >= 1] quads that fits the ring in one pass
    (cursors at 0, [N] at most the capacity [C] in quads) is submitted
    in one buffering pass and exactly [K + 1] indexed draws, [K] the
    number of positions [i] in [[1, N)] with
    [state[order[i]] <> state[order[i - 1]]].  The count holds whatever
    [currentState] is on entry. *)
Theorem drawBatch_coalesces this batch (C : Z) (fuel : nat) :
  1 <= quadCount batch ->
  quadCount batch <= C ->
  vertexCapacity this = 4 * C ->
  vertexOffset this = 0 ->
  indexOffset this = 0 ->
  (2 <= fuel)%nat ->
  exists this' calls,
    drawBatch fuel this batch = Some (this', calls, [quadCount batch]) /\
    draw_calls calls = state_changes batch (quadCount batch) + 1.
Proof.
  intros HN HNC Hcap Hvo Hio Hfuel.
  destruct fuel as [|[|fuel]]; try lia.
  unfold drawBatch.
  destruct (drawBatch_loop_turn (S fuel) this batch (indexOffset this) 0
              (quadCount batch) C Hcap Hvo Hio HN ltac:(lia))
    as (this2 & drawn & _ & _ & _ & _ & Hdraws & ->).
  rewrite Z.min_l in * by lia.
  cbn [drawBatch_loop].
  replace (quadCount batch - quadCount batch >? 0) with false
    by (symmetry; lia).
  eexists _, _. split; [reflexivity|].
  rewrite app_nil_r. unfold draw_calls in *. simpl. exact Hdraws.
Qed.

(** C4. With a ring of [C >= 1] quads and both cursors at 0, a batch of
    [2 C + 1] quads is submitted in exactly three buffering passes of
    [C], [C] and 1 quads; each pass starts writing at vertex 0, the
    first two having filled the ring and wrapped the cursors. *)
Theorem drawBatch_ring_wrap this batch (C : Z) (fuel : nat) :
  1 <= C ->
  quadCount batch = 2 * C + 1 ->
  vertexCapacity this = 4 * C ->
  vertexOffset this = 0 ->
  indexOffset this = 0 ->
  (4 <= fuel)%nat ->
  exists this' calls,
    drawBatch fuel this batch = Some (this', calls, [C; C; 1]) /\
    List.filter is_generate calls =
      [GenerateVertices 0 0 C; GenerateVertices 0 C C;
       GenerateVertices 0 (2 * C) 1] /\
    vertexOffset this' = (if 1 <? C then 4 else 0) /\
    indexOffset this' = (if 1 <? C then 6 else 0).
Proof.
  intros HC HN Hcap Hvo Hio Hfuel.
  destruct fuel as [|[|[|[|fuel]]]]; try lia.
  unfold drawBatch. rewrite HN.
  destruct (drawBatch_loop_turn (S (S (S fuel))) this batch
              (indexOffset this) 0 (2 * C + 1) C Hcap Hvo Hio
              ltac:(lia) HC)
    as (this2 & drawn1 & Hcap2 & Hvo2 & Hio2 & Hg1 & _ & ->).
  rewrite Z.min_r in * by lia.
  replace (2 * C + 1 <? C) with false in * by (symmetry; lia).
  replace (2 * C + 1 - C) with (C + 1) by lia.
  destruct (drawBatch_loop_turn (S (S fuel)) this2 batch
              (indexOffset this2) (0 + C) (C + 1) C Hcap2 Hvo2 Hio2
              ltac:(lia) HC)
    as (this3 & drawn2 & Hcap3 & Hvo3 & Hio3 & Hg2 & _ & ->).
  rewrite Z.min_r in * by lia.
  replace (C + 1 <? C) with false in * by (symmetry; lia).
  replace (C + 1 - C) with 1 by lia.
  destruct (drawBatch_loop_turn (S fuel) this3 batch
              (indexOffset this3) (0 + C + C) 1 C Hcap3 Hvo3 Hio3
              ltac:(lia) HC)
    as (this4 & drawn3 & Hcap4 & Hvo4 & Hio4 & Hg3 & _ & ->).
  rewrite Z.min_l in * by lia.
  cbn [drawBatch_loop]. change (1 - 1 >? 0) with false. cbv iota.
  eexists _, _. split; [reflexivity|].
  split; [|split; assumption].
  repeat (cbn [app List.filter is_generate];
          rewrite ?List.filter_app, ?Hg1, ?Hg2, ?Hg3).
  repeat f_equal; lia.
Qed.
End Submission.

Lemma drawBatch_coalesces_witness :
  exists this' calls,
    drawBatch 2 (Examples.effect 2) Examples.two_states =
      Some (this', calls, [quadCount Examples.two_states]) /\
    draw_calls calls =
      state_changes Examples.two_states (quadCount Examples.two_states) + 1.
Proof.
  apply (drawBatch_coalesces (Examples.effect 2) Examples.two_states 2 2).
  - by vm_compute.
  - by vm_compute.
  - reflexivity.
  - reflexivity.
  - reflexivity.
  - lia.
Defined.

Lemma drawBatch_ring_wrap_witness :
  exists this' calls,
    drawBatch 4 (Examples.effect 1) Examples.depths_3_1_2 =
      Some (this', calls, [1; 1; 1]) /\
    List.filter is_generate calls =
      [GenerateVertices 0 0 1; GenerateVertices 0 1 1;
       GenerateVertices 0 (2 * 1) 1] /\
    vertexOffset this' = (if 1 <? 1 then 4 else 0) /\
    indexOffset this' = (if 1 <? 1 then 6 else 0).
Proof.
  apply (drawBatch_ring_wrap (Examples.effect 1) Examples.depths_3_1_2 1 4).
  - lia.
  - reflexivity.
  - reflexivity.
  - reflexivity.
  - reflexivity.
  - lia.
Defined.

(** C2, at a ring of one quad and a batch of two quads with states
    [Obj 1] and [Obj 2].  The second pass starts at logical offset 1 and
    buffers the quad at position 1, whose state is [Obj 2]; [drawRegion]
    examines [state[order[0]]] again, finds [Obj 1] still in force, and
    draws without applying [Obj 2]. *)
Theorem drawBatch_second_pass_examines_first_quads :
  token_at Examples.two_states 0 = Obj 1 /\
  token_at Examples.two_states 1 = Obj 2 /\
  exists this',
    drawBatch 3 (Examples.effect 1) Examples.two_states =
      Some (this',
            [GenerateVertices 0 0 1; UploadArrayBufferRegion 0 128;
             UploadIndexBufferRegion 0 6; ApplyState (Obj 1);
             DrawIndexed 6 0;
             GenerateVertices 0 1 1; UploadArrayBufferRegion 0 128;
             UploadIndexBufferRegion 0 6; DrawIndexed 6 0],
            [1; 1]) /\
    currentState this' = Obj 1.
Proof.
  split; [reflexivity|]. split; [reflexivity|].
  eexists. split; vm_compute; reflexivity.
Qed.
(** ** Vertex generation and depth *)

Section VertexDepth.
Context {num : Type} `{Arith num} `{VertexMath num}.
Implicit Types (batch : QuadBatch num) (view : BufferView).

(** The corner loop stores the same positions, texture coordinates and
    colours whatever value [d] it is given. *)
Lemma ptcg_corners_geometry corners view aip aic aia
    sx sy sw sh dx dy dw dh xc yc su sv st ct cR cG cB cA d d' g0 g1 :
  geometry_stores
    (ptcg_corners corners view aip aic aia sx sy sw sh dx dy dw dh
       xc yc su sv st ct cR cG cB cA d g0 g1) =
  geometry_stores
    (ptcg_corners corners view aip aic aia sx sy sw sh dx dy dw dh
       xc yc su sv st ct cR cG cB cA d' g0 g1).
Proof.
  revert aip aic aia.
  induction corners as [|[xo yo] corners IH]; intros aip aic aia;
    [reflexivity|].
  unfold geometry_stores in *. simpl. rewrite IH. reflexivity.
Qed.

Lemma geometry_stores_app (l1 l2 : list (store num)) :
  geometry_stores (l1 ++ l2) = geometry_stores l1 ++ geometry_stores l2.
Proof. apply List.filter_app. Qed.

Lemma ptcg_quad_geometry view b1 b2 i aip aic aia :
  differ_only_in_depth b1 b2 ->
  geometry_stores (ptcg_quad view b1 i aip aic aia) =
  geometry_stores (ptcg_quad view b2 i aip aic aia).
Proof.
  intros (Ho & Hs & Ht & Hp & Hf & Hc & Ha & _).
  unfold ptcg_quad. rewrite Ho, Hs, Ht, Hp, Hf, Hc, Ha.
  apply ptcg_corners_geometry.
Qed.

Lemma ptcg_loop_geometry todo view b1 b2 i aip aic aia :
  differ_only_in_depth b1 b2 ->
  geometry_stores (ptcg_loop todo view b1 i aip aic aia) =
  geometry_stores (ptcg_loop todo view b2 i aip aic aia).
Proof.
  intros Hd. revert i aip aic aia.
  induction todo as [|todo IH]; intros i aip aic aia; [reflexivity|].
  cbn [ptcg_loop]. rewrite !geometry_stores_app.
  rewrite IH, (ptcg_quad_geometry view b1 b2 i aip aic aia Hd).
  reflexivity.
Qed.

(** The ninth store of a call is the first component of the [aDGG]
    attribute of the first vertex: the reciprocal of the depth of the
    first quad drawn. *)
Lemma ptcg_depth_store view bufferOffset batch batchOffset quadCount q dq :
  1 <= quadCount ->
  aget (order batch) batchOffset = Some q ->
  aget (depth batch) q = Some dq ->
  ptcg view bufferOffset batch batchOffset quadCount !! 8%nat =
  Some (StoreATR (bufferOffset * asa view + aoa view + 0)
          (f32 (ndiv n_one dq))).
Proof.
  intros Hn Ho Hd. unfold ptcg.
  destruct (Z.to_nat quadCount) as [|k] eqn:Hk; [lia|].
  cbn [ptcg_loop]. unfold ptcg_quad. rewrite Ho. cbn [default].
  rewrite Hd. reflexivity.
Qed.
End VertexDepth.

(** C10 as stated fails: two one-quad batches that differ only in the
    depth of the quad (1 and 2) get different vertex data, the first
    [aDGG] component being 1/1 for one and 1/2 for the other. *)
Lemma ptcg_output_depends_on_depth :
  differ_only_in_depth (RExamples.one_quad 1) (RExamples.one_quad 2) /\
  ptcg RExamples.view 0 (RExamples.one_quad 1) 0 1 <>
  ptcg RExamples.view 0 (RExamples.one_quad 2) 0 1.
Proof.
  split; [unfold differ_only_in_depth; repeat split|].
  intros Heq.
  pose proof (ptcg_depth_store RExamples.view 0 (RExamples.one_quad 1)
                0 1 0 1%R ltac:(lia) eq_refl eq_refl) as H1.
  pose proof (ptcg_depth_store RExamples.view 0 (RExamples.one_quad 2)
                0 1 0 2%R ltac:(lia) eq_refl eq_refl) as H2.
  rewrite Heq, H2 in H1.
  injection H1 as H1. simpl in H1. lra.
Qed.

(** ** What of the vertex data follows the depth *)

Section GenericAttribute.
Context {num : Type} `{Arith num} `{VertexMath num}.
Implicit Types (batch : QuadBatch num) (view : BufferView).

Lemma atr_stores_app (l1 l2 : list (store num)) :
  atr_stores (l1 ++ l2) = atr_stores l1 ++ atr_stores l2.
Proof. unfold atr_stores. apply omap_app. Qed.

Lemma ptcg_corners_generic corners view v aip aic aia
    sx sy sw sh dx dy dw dh xc yc su sv st ct cR cG cB cA d :
  aia = v * asa view + aoa view ->
  atr_stores (ptcg_corners corners view aip aic aia sx sy sw sh
                dx dy dw dh xc yc su sv st ct cR cG cB cA
                (ndiv n_one d) n_zero n_zero) =
  flat_map (generic_of_vertex view d) (vertices_from v (length corners)).
Proof.
  revert v aip aic aia.
  induction corners as [|[xo yo] corners IH]; intros v aip aic aia Ha;
    [reflexivity|].
  cbn [ptcg_corners length vertices_from flat_map].
  rewrite atr_stores_app, (IH (v + 1)) by lia.
  subst aia. reflexivity.
Qed.

Lemma ptcg_loop_generic todo view batch : forall v i aip aic aia,
  aia = v * asa view + aoa view ->
  atr_stores (ptcg_loop todo view batch i aip aic aia) =
  generic_of_quads todo view batch i v.
Proof.
  induction todo as [|todo IH]; intros v i aip aic aia Ha; [reflexivity|].
  cbn [ptcg_loop generic_of_quads].
  rewrite atr_stores_app, (IH (v + 4)) by lia.
  f_equal. unfold ptcg_quad.
  apply (ptcg_corners_generic CornerOffsets view v), Ha.
Qed.

(** C10, amended.  For two batches equal in every array and in [order]
    that differ arbitrarily in [depth], [ptcg] with equal arguments
    makes the same stores into the position/texture view and into the
    colour view; and for each batch the stores into the generic view
    are, for every vertex of every quad, the reciprocal of the depth of
    the quad in the first component and 0 in the other two.  So of all
    the vertex data the first [aDGG] component alone follows the
    depth. *)
Theorem ptcg_first_generic_component_alone_follows_depth view bufferOffset
    b1 b2 batchOffset quadCount :
  differ_only_in_depth b1 b2 ->
  geometry_stores (ptcg view bufferOffset b1 batchOffset quadCount) =
  geometry_stores (ptcg view bufferOffset b2 batchOffset quadCount) /\
  atr_stores (ptcg view bufferOffset b1 batchOffset quadCount) =
  generic_of_quads (Z.to_nat quadCount) view b1 batchOffset bufferOffset /\
  atr_stores (ptcg view bufferOffset b2 batchOffset quadCount) =
  generic_of_quads (Z.to_nat quadCount) view b2 batchOffset bufferOffset.
Proof.
  intros Hd. split; [|split].
  - unfold ptcg. apply ptcg_loop_geometry, Hd.
  - unfold ptcg. apply ptcg_loop_generic. reflexivity.
  - unfold ptcg. apply ptcg_loop_generic. reflexivity.
Qed.
End GenericAttribute.

Lemma ptcg_first_generic_component_alone_follows_depth_witness :
  geometry_stores (ptcg RExamples.view 0 (RExamples.one_quad 1) 0 1) =
  geometry_stores (ptcg RExamples.view 0 (RExamples.one_quad 2) 0 1) /\
  atr_stores (ptcg RExamples.view 0 (RExamples.one_quad 1) 0 1) =
  generic_of_quads (Z.to_nat 1) RExamples.view (RExamples.one_quad 1) 0 0 /\
  atr_stores (ptcg RExamples.view 0 (RExamples.one_quad 2) 0 1) =
  generic_of_quads (Z.to_nat 1) RExamples.view (RExamples.one_quad 2) 0 0.
Proof.
  apply (ptcg_first_generic_component_alone_follows_depth RExamples.view 0
           (RExamples.one_quad 1) (RExamples.one_quad 2) 0 1).
  unfold differ_only_in_depth. repeat split.
Defined.
(** ** Arrays *)

Section Arrays.
Context {A : Type}.
Implicit Types (a : list A) (i j : Z) (v : A).

Lemma aget_Some_range a i v :
  aget a i = Some v -> 0 <= i < Z.of_nat (length a).
Proof.
  unfold aget. destruct (i <? 0) eqn:Hi; [discriminate|].
  intros Hl. apply lookup_lt_Some in Hl. lia.
Qed.

Lemma aget_in_range a i :
  0 <= i < Z.of_nat (length a) -> exists v, aget a i = Some v.
Proof.
  intros Hi. unfold aget.
  replace (i <? 0) with false by (symmetry; lia).
  destruct (lookup_lt_is_Some_2 a (Z.to_nat i)) as [v Hv]; [lia|].
  exists v. exact Hv.
Qed.

Lemma length_aset a i v : length (aset a i v) = length a.
Proof. unfold aset. destruct (i <? 0); [reflexivity|apply length_insert]. Qed.

Lemma aget_aset_eq a i v :
  0 <= i < Z.of_nat (length a) -> aget (aset a i v) i = Some v.
Proof.
  intros Hi. unfold aget, aset.
  replace (i <? 0) with false by (symmetry; lia).
  apply list_lookup_insert_eq. lia.
Qed.

Lemma aget_aset_ne a i j v : i <> j -> aget (aset a i v) j = aget a j.
Proof.
  intros Hne. unfold aget, aset.
  destruct (j <? 0) eqn:Hj; [reflexivity|].
  destruct (i <? 0) eqn:Hi; [reflexivity|].
  apply list_lookup_insert_ne. lia.
Qed.

Lemma aget_elem_of a i v : aget a i = Some v -> v ∈ a.
Proof.
  unfold aget. destruct (i <? 0); [discriminate|].
  intros Hl. eapply list_elem_of_lookup_2, Hl.
Qed.
End Arrays.

Lemma shiftl_1 (x : Z) : Z.shiftl x 1 = 2 * x.
Proof. rewrite Z.shiftl_mul_pow2 by lia. lia. Qed.

Lemma shiftr_1 (x : Z) : Z.shiftr x 1 = x / 2.
Proof. rewrite Z.shiftr_div_pow2 by lia. reflexivity. Qed.

(** Reading the array after a swap of two of its entries that fit 16
    bits. *)
Lemma aget_swapped (a : list Z) (p q k : Z) (x y : Z) :
  aget a p = Some x -> aget a q = Some y ->
  0 <= x < 65536 -> 0 <= y < 65536 ->
  aget (swapped a p q) k =
  if k =? q then Some x else if k =? p then Some y else aget a k.
Proof.
  intros Hp Hq Hx Hy. unfold swapped. rewrite Hp, Hq. simpl.
  rewrite !Z.mod_small by lia.
  pose proof (aget_Some_range _ _ _ Hp) as Rp.
  pose proof (aget_Some_range _ _ _ Hq) as Rq.
  destruct (k =? q) eqn:Hkq.
  - apply Z.eqb_eq in Hkq. subst k.
    apply aget_aset_eq. rewrite length_aset. lia.
  - apply Z.eqb_neq in Hkq. rewrite aget_aset_ne by lia.
    destruct (k =? p) eqn:Hkp.
    + apply Z.eqb_eq in Hkp. subst k. apply aget_aset_eq. lia.
    + apply Z.eqb_neq in Hkp. apply aget_aset_ne. lia.
Qed.

Lemma length_swapped (a : list Z) (p q : Z) :
  length (swapped a p q) = length a.
Proof. unfold swapped. rewrite !length_aset. reflexivity. Qed.

Lemma lookup_swapped (a : list Z) (p q : Z) (x y : Z) (k : nat) :
  aget a p = Some x -> aget a q = Some y ->
  0 <= x < 65536 -> 0 <= y < 65536 ->
  swapped a p q !! k =
  if decide (k = Z.to_nat q) then Some x
  else if decide (k = Z.to_nat p) then Some y else a !! k.
Proof.
  intros Hp Hq Hx Hy.
  pose proof (aget_Some_range _ _ _ Hp) as Rp.
  pose proof (aget_Some_range _ _ _ Hq) as Rq.
  pose proof (aget_swapped a p q (Z.of_nat k) x y Hp Hq Hx Hy) as Hk.
  unfold aget in Hk.
  assert (Hz : (Z.of_nat k <? 0) = false) by (apply Z.ltb_ge; lia).
  rewrite Hz, Nat2Z.id in Hk. rewrite Hk.
  destruct (Z.eqb_spec (Z.of_nat k) q), (Z.eqb_spec (Z.of_nat k) p);
    repeat case_decide; try lia; reflexivity.
Qed.

Lemma swapped_Permutation (a : list Z) (p q : Z) (x y : Z) :
  aget a p = Some x -> aget a q = Some y ->
  0 <= x < 65536 -> 0 <= y < 65536 ->
  Permutation a (swapped a p q).
Proof.
  intros Hp Hq Hx Hy.
  apply Permutation_inj. split; [rewrite length_swapped; reflexivity|].
  exists (fun i => if decide (i = Z.to_nat p) then Z.to_nat q
                   else if decide (i = Z.to_nat q) then Z.to_nat p else i).
  split.
  - intros i j. repeat case_decide; subst; congruence.
  - intros i. rewrite (lookup_swapped a p q x y) by assumption.
    assert (HP : a !! Z.to_nat p = Some x).
    { unfold aget in Hp. destruct (p <? 0); [discriminate|exact Hp]. }
    assert (HQ : a !! Z.to_nat q = Some y).
    { unfold aget in Hq. destruct (q <? 0); [discriminate|exact Hq]. }
    repeat case_decide; subst; congruence.
Qed.
(** ** Heap sort *)

Ltac dlia := Z.div_mod_to_equations; lia.

Section HeapSort.
Context {num : Type} `{Arith num}.
Variables (compare : comparator num) (b0 : QuadBatch num) (P : Z -> Prop).

(** The comparator does not read [order]; on entries that satisfy [P]
    it is a strict weak order; such entries fit a [Uint16Array]. *)
Hypothesis compare_frame : forall (b : QuadBatch num) (a : list Z) x y,
  compare (set_order b a) x y = compare b x y.
Hypothesis P_uint16 : forall v, P v -> 0 <= v < 65536.
Hypothesis before_asym : forall x y, P x -> P y ->
  sorts_before compare b0 (Some x) (Some y) = true ->
  sorts_before compare b0 (Some y) (Some x) = false.
Hypothesis before_negtrans : forall x y z, P x -> P y -> P z ->
  sorts_before compare b0 (Some x) (Some y) = false ->
  sorts_before compare b0 (Some y) (Some z) = false ->
  sorts_before compare b0 (Some x) (Some z) = false.

Local Abbreviation L := (sorts_before compare b0).

Lemma before_irrefl x : P x -> L (Some x) (Some x) = false.
Proof.
  intros Hx. destruct (L (Some x) (Some x)) eqn:E; [|reflexivity].
  rewrite (before_asym x x Hx Hx E) in E. discriminate.
Qed.

Lemma before_irrefl_at a n i :
  entries_ok P a n -> 0 <= i < n -> L (aget a i) (aget a i) = false.
Proof.
  intros Hok Hi. destruct (Hok i Hi) as (x & -> & Hx).
  apply before_irrefl, Hx.
Qed.

Lemma before_asym_at a n i j :
  entries_ok P a n -> 0 <= i < n -> 0 <= j < n ->
  L (aget a i) (aget a j) = true -> L (aget a j) (aget a i) = false.
Proof.
  intros Hok Hi Hj.
  destruct (Hok i Hi) as (x & -> & Hx), (Hok j Hj) as (y & -> & Hy).
  apply before_asym; assumption.
Qed.

Lemma before_negtrans_at a n i j k :
  entries_ok P a n -> 0 <= i < n -> 0 <= j < n -> 0 <= k < n ->
  L (aget a i) (aget a j) = false -> L (aget a j) (aget a k) = false ->
  L (aget a i) (aget a k) = false.
Proof.
  intros Hok Hi Hj Hk.
  destruct (Hok i Hi) as (x & -> & Hx), (Hok j Hj) as (y & -> & Hy),
    (Hok k Hk) as (z & -> & Hz).
  apply before_negtrans; assumption.
Qed.

Lemma within_refl a e : within a a e.
Proof.
  unfold within. repeat split; try reflexivity.
  intros i Hi. exists i. split; [lia|reflexivity].
Qed.

Lemma within_trans a1 a2 a3 e :
  within a1 a2 e -> within a2 a3 e -> within a1 a3 e.
Proof.
  intros (Hl1 & Hout1 & Hin1 & Hp1) (Hl2 & Hout2 & Hin2 & Hp2).
  unfold within. repeat split.
  - congruence.
  - intros i Hi. rewrite Hout2, Hout1 by lia. reflexivity.
  - intros i Hi. destruct (Hin2 i Hi) as (j & Hj & ->).
    destruct (Hin1 j Hj) as (k & Hk & ->). exists k. split; [lia|reflexivity].
  - etransitivity; eassumption.
Qed.

Lemma within_weaken a a' e e' : e <= e' -> within a a' e -> within a a' e'.
Proof.
  intros He (Hl & Hout & Hin & Hp). unfold within. repeat split; try assumption.
  - intros i Hi. apply Hout. lia.
  - intros i Hi. destruct (Z_le_gt_dec i e) as [Hie|Hie].
    + destruct (Hin i ltac:(lia)) as (j & Hj & ->). exists j.
      split; [lia|reflexivity].
    + exists i. split; [lia|]. apply Hout. lia.
Qed.

Lemma within_swapped a n p q e :
  entries_ok P a n -> e < n -> 0 <= p <= e -> 0 <= q <= e ->
  within a (swapped a p q) e.
Proof.
  intros Hok He Hp Hq.
  destruct (Hok p ltac:(lia)) as (x & Hx & Px).
  destruct (Hok q ltac:(lia)) as (y & Hy & Py).
  pose proof (P_uint16 x Px). pose proof (P_uint16 y Py).
  unfold within. repeat split.
  - apply length_swapped.
  - intros i Hi. rewrite (aget_swapped a p q i x y) by assumption.
    destruct (Z.eqb_spec i q); [lia|]. destruct (Z.eqb_spec i p); [lia|].
    reflexivity.
  - intros i Hi. rewrite (aget_swapped a p q i x y) by assumption.
    destruct (Z.eqb_spec i q); [exists p; split; [lia|congruence]|].
    destruct (Z.eqb_spec i p); [exists q; split; [lia|congruence]|].
    exists i. split; [lia|reflexivity].
  - eapply swapped_Permutation; eassumption.
Qed.

Lemma entries_ok_within a a' n e :
  e < n -> entries_ok P a n -> within a a' e -> entries_ok P a' n.
Proof.
  intros He Hok (_ & Hout & Hin & _) i Hi.
  destruct (Z_le_gt_dec i e) as [Hie|Hie].
  - destruct (Hin i ltac:(lia)) as (j & Hj & ->). apply Hok. lia.
  - rewrite Hout by lia. apply Hok, Hi.
Qed.

(** When [root] does not sort before any of its children the heap
    order holds from [s] on. *)
Lemma sift_done_heap a s e root :
  sift_inv L a s e root ->
  (forall c, 1 <= c <= e -> c / 2 = root ->
     L (aget a root) (aget a c) = false) ->
  heap_from L a s e.
Proof.
  intros (Hi & _) Hroot c Hc Hsc.
  destruct (Z.eq_dec (c / 2) root) as [Hr|Hr].
  - rewrite Hr. apply Hroot; assumption.
  - apply Hi; assumption.
Qed.

(** Swapping [root] with its largest child [m] moves the one possible
    violation of the heap order down to [m]. *)
Lemma sift_step_inv a n s e root m :
  entries_ok P a n -> e < n -> 0 <= s <= root ->
  1 <= m <= e -> root < m -> m / 2 = root ->
  sift_inv L a s e root ->
  (forall c, 1 <= c <= e -> c / 2 = root ->
     L (aget a m) (aget a c) = false) ->
  L (aget a root) (aget a m) = true ->
  sift_inv L (swapped a m root) s e m.
Proof.
  intros Hok He Hs Hm Hrm Hmr (Hi & Hii) HM Htest.
  destruct (Hok m ltac:(lia)) as (x & Hx & Px).
  destruct (Hok root ltac:(lia)) as (y & Hy & Py).
  pose proof (P_uint16 x Px). pose proof (P_uint16 y Py).
  assert (Hread : forall k, aget (swapped a m root) k =
            if k =? root then aget a m
            else if k =? m then aget a root else aget a k).
  { intros k. rewrite (aget_swapped a m root k x y) by assumption.
    rewrite Hx, Hy. reflexivity. }
  split.
  - intros c Hc Hsc Hcm. rewrite !Hread.
    destruct (Z.eqb_spec (c / 2) root) as [Hpr|Hpr].
    + destruct (Z.eqb_spec c root) as [Hcr|Hcr]; [dlia|].
      destruct (Z.eqb_spec c m) as [->|Hcm'].
      * eapply before_asym_at; [exact Hok|lia|lia|exact Htest].
      * apply HM; assumption.
    + destruct (Z.eqb_spec (c / 2) m) as [?|_]; [contradiction|].
      destruct (Z.eqb_spec c root) as [Hcr|Hcr].
      * subst c. apply Hii; [dlia|lia|assumption|lia].
      * destruct (Z.eqb_spec c m) as [->|Hcm']; [contradiction|].
        apply Hi; assumption.
  - intros _ c Hc Hcm Hne. rewrite !Hread. rewrite Hmr.
    rewrite Z.eqb_refl.
    destruct (Z.eqb_spec c root) as [Hcr|Hcr]; [dlia|].
    destruct (Z.eqb_spec c m) as [?|_]; [contradiction|].
    rewrite <- Hcm. apply Hi; [assumption|dlia|dlia].
Qed.

(** [siftDown] from [root], a descendant of [s]: with more fuel than
    there are positions from [root] to [e] it returns, the heap order
    then holds from [s] on, and only [a[0 .. e]] was rearranged. *)
Lemma siftDown_loop_heap n s e fuel : forall a root,
  entries_ok P a n -> e < n -> 0 <= s <= root ->
  (Z.to_nat (e + 1 - root) < fuel)%nat ->
  sift_inv L a s e root ->
  exists a',
    siftDown_loop fuel compare (set_order b0 a) root e =
      Done (set_order b0 a') /\
    heap_from L a' s e /\ within a a' e /\ entries_ok P a' n.
Proof.
  induction fuel as [|fuel IH]; intros a root Hok He Hs Hfuel Hinv; [lia|].
  cbn [siftDown_loop]. rewrite shiftl_1.
  destruct (2 * root <=? e) eqn:Hloop.
  2: { apply Z.leb_gt in Hloop. exists a.
       split; [reflexivity|]. split; [|split; [apply within_refl|exact Hok]].
       apply (sift_done_heap a s e root Hinv). intros c Hc Hcr. dlia. }
  apply Z.leb_le in Hloop.
  change (order (set_order b0 a)) with a.
  rewrite !compare_frame.
  fold (L (aget a (2 * root)) (aget a (2 * root + 1))).
  set (m := if (2 * root <? e) && L (aget a (2 * root)) (aget a (2 * root + 1))
            then 2 * root + 1 else 2 * root).
  fold (L (aget a root) (aget a m)).
  assert (Hm : (m = 2 * root \/ m = 2 * root + 1) /\ m <= e /\
               forall c, 1 <= c <= e -> c / 2 = root ->
                 L (aget a m) (aget a c) = false).
  { subst m. destruct (Z.ltb_spec (2 * root) e) as [Hlt|Hge]; cbn [andb].
    - destruct (L (aget a (2 * root)) (aget a (2 * root + 1))) eqn:Hcmp.
      + split; [right; reflexivity|]. split; [lia|].
        intros c Hc Hcr.
        assert (c = 2 * root \/ c = 2 * root + 1) as [->| ->] by dlia.
        * eapply before_asym_at; [exact Hok|lia|lia|exact Hcmp].
        * eapply before_irrefl_at; [exact Hok|lia].
      + split; [left; reflexivity|]. split; [lia|].
        intros c Hc Hcr.
        assert (c = 2 * root \/ c = 2 * root + 1) as [->| ->] by dlia.
        * eapply before_irrefl_at; [exact Hok|lia].
        * exact Hcmp.
    - split; [left; reflexivity|]. split; [lia|].
      intros c Hc Hcr. assert (c = 2 * root) as -> by dlia.
      eapply before_irrefl_at; [exact Hok|lia]. }
  clearbody m. destruct Hm as (Hmc & Hme & HM).
  destruct (L (aget a root) (aget a m)) eqn:Htest.
  - assert (Hrm : root < m).
    { destruct (Z.eq_dec m root) as [->|Hne]; [|lia].
      rewrite (before_irrefl_at a n root Hok) in Htest by lia. discriminate. }
    destruct (IH (swapped a m root) m) as (a' & Hrun & Hheap & Hwit & Hok').
    + eapply entries_ok_within; [exact He|exact Hok|].
      apply (within_swapped a n); [assumption|lia|lia|lia].
    + exact He.
    + lia.
    + lia.
    + apply (sift_step_inv a n); try assumption; try lia. dlia.
    + exists a'. split; [exact Hrun|]. split; [exact Hheap|].
      split; [|exact Hok'].
      eapply within_trans; [|exact Hwit].
      apply (within_swapped a n); [assumption|lia|lia|lia].
  - exists a. split; [reflexivity|].
    split; [|split; [apply within_refl|exact Hok]].
    apply (sift_done_heap a s e root Hinv). intros c Hc Hcr.
    eapply (before_negtrans_at a n root m c); try assumption; try lia.
    apply HM; assumption.
Qed.

(** [heapify]'s loop, from [s] down to 0. *)
Lemma heapify_loop_heap n fuel : forall a s,
  entries_ok P a n -> -1 <= s ->
  (Z.to_nat (s + 1) + Z.to_nat n + 2 < fuel)%nat ->
  heap_from L a (s + 1) (n - 1) ->
  exists a',
    heapify_loop fuel compare (set_order b0 a) s n = Done (set_order b0 a') /\
    heap_from L a' 0 (n - 1) /\ within a a' (n - 1) /\ entries_ok P a' n.
Proof.
  induction fuel as [|fuel IH]; intros a s Hok Hs Hfuel Hheap; [lia|].
  cbn [heapify_loop].
  destruct (s >=? 0) eqn:Hloop.
  2: { assert (s = -1) as -> by lia. exists a.
       split; [reflexivity|]. split; [exact Hheap|].
       split; [apply within_refl|exact Hok]. }
  assert (0 <= s) by lia.
  destruct (siftDown_loop_heap n s (n - 1) fuel a s)
    as (a1 & Hrun & Hheap1 & Hwit1 & Hok1); try assumption; try lia.
  { split.
    - intros c Hc Hsc Hne. apply Hheap; [assumption|lia].
    - intros Hne. contradiction. }
  unfold siftDown. rewrite Hrun. cbn [obind].
  destruct (IH a1 (s - 1)) as (a' & Hrun' & Hheap' & Hwit' & Hok');
    try assumption; try lia.
  { replace (s - 1 + 1) with s by lia. exact Hheap1. }
  exists a'. split; [exact Hrun'|]. split; [exact Hheap'|].
  split; [|exact Hok']. eapply within_trans; eassumption.
Qed.

(** In a heap the root sorts before no entry. *)
Lemma heap_root_max a n e :
  entries_ok P a n -> e < n -> heap_from L a 0 e ->
  forall j, 0 <= j <= e -> L (aget a 0) (aget a j) = false.
Proof.
  intros Hok He Hheap j Hj.
  destruct Hj as [Hj0 Hje]. revert Hje.
  pattern j. apply Zlt_0_ind; [|exact Hj0]. clear j Hj0.
  intros j IHj Hj0 Hje.
  destruct (Z.eq_dec j 0) as [->|Hne].
  - eapply before_irrefl_at; [exact Hok|lia].
  - eapply (before_negtrans_at a n 0 (j / 2) j); try assumption; try dlia.
    + apply IHj; dlia.
    + apply Hheap; dlia.
Qed.

(** [sort]'s loop: each turn moves the root of the heap [a[0 .. e]] to
    position [e], its final place. *)
Lemma sort_loop_sorted n fuel : forall a e,
  entries_ok P a n -> e < n ->
  (Z.to_nat e + 2 < fuel)%nat ->
  heap_from L a 0 e -> tail_sorted L a n e ->
  exists a',
    sort_loop fuel compare (set_order b0 a) e = Done (set_order b0 a') /\
    tail_sorted L a' n 0 /\ within a a' e /\ entries_ok P a' n.
Proof.
  induction fuel as [|fuel IH]; intros a e Hok He Hfuel Hheap Htail; [lia|].
  cbn [sort_loop].
  destruct (e >? 0) eqn:Hloop.
  2: { exists a. split; [reflexivity|].
       split; [|split; [apply within_refl|exact Hok]].
       intros p q Hp Hq _. apply Htail; lia. }
  assert (0 < e) by lia.
  change (order (set_order b0 a)) with a.
  change (aset (aset a 0 (to_uint16 (aget a e))) e (to_uint16 (aget a 0)))
    with (swapped a 0 e).
  assert (Hwit0 : within a (swapped a 0 e) e)
    by (apply (within_swapped a n); [assumption|lia|lia|lia]).
  assert (Hok0 : entries_ok P (swapped a 0 e) n)
    by (eapply entries_ok_within; [exact He|exact Hok|exact Hwit0]).
  destruct (Hok 0 ltac:(lia)) as (x & Hx & Px).
  destruct (Hok e ltac:(lia)) as (y & Hy & Py).
  pose proof (P_uint16 x Px). pose proof (P_uint16 y Py).
  assert (Hread : forall k, aget (swapped a 0 e) k =
            if k =? e then aget a 0
            else if k =? 0 then aget a e else aget a k).
  { intros k. rewrite (aget_swapped a 0 e k x y) by assumption.
    rewrite Hx, Hy. reflexivity. }
  destruct (siftDown_loop_heap n 0 (e - 1) fuel (swapped a 0 e) 0)
    as (a1 & Hrun & Hheap1 & Hwit1 & Hok1); try assumption; try lia.
  { split.
    - intros c Hc Hsc Hne. rewrite !Hread.
      destruct (Z.eqb_spec (c / 2) e); [dlia|].
      destruct (Z.eqb_spec (c / 2) 0); [contradiction|].
      destruct (Z.eqb_spec c e); [lia|].
      destruct (Z.eqb_spec c 0); [lia|].
      apply Hheap; [lia|dlia].
    - intros Hne. contradiction. }
  unfold siftDown.
  change (set_order (set_order b0 a) (swapped a 0 e))
    with (set_order b0 (swapped a 0 e)).
  rewrite Hrun. cbn [obind].
  assert (Hwit : within a a1 e).
  { eapply within_trans; [exact Hwit0|].
    eapply within_weaken; [|exact Hwit1]. lia. }
  destruct (IH a1 (e - 1)) as (a' & Hrun' & Htail' & Hwit' & Hok');
    try assumption; try lia.
  { intros p q Hp Hq Heq.
    destruct Hwit as (_ & Hout & Hin & _).
    destruct Hwit1 as (_ & Hout1 & Hin1 & _).
    destruct (Z.eq_dec q e) as [->|Hqe].
    - rewrite Hout1 by lia. rewrite Hread, Z.eqb_refl.
      destruct (Hin p ltac:(lia)) as (j & Hj & ->).
      apply (heap_root_max a n e); assumption.
    - rewrite (Hout q) by lia.
      destruct (Z_le_gt_dec p e) as [Hpe|Hpe].
      + destruct (Hin p ltac:(lia)) as (j & Hj & ->).
        apply Htail; lia.
      + rewrite (Hout p) by lia. apply Htail; lia. }
  exists a'. split; [exact Hrun'|]. split; [exact Htail'|].
  split; [|exact Hok'].
  eapply within_trans; [exact Hwit|].
  eapply within_weaken; [|exact Hwit']. lia.
Qed.

(** [sort] returns when given enough fuel, and then [order[0 .. n)] is
    a rearrangement of what it was in which no entry sorts before an
    entry to its left. *)
Lemma sort_sorted fuel a :
  let n := quadCount b0 in
  0 <= n -> entries_ok P a n ->
  (Z.to_nat (2 * n) + 4 <= fuel)%nat ->
  exists a',
    sort fuel (set_order b0 a) compare = Done (set_order b0 a') /\
    tail_sorted L a' n 0 /\ within a a' (n - 1) /\ entries_ok P a' n.
Proof.
  intros n Hn Hok Hfuel. unfold sort, heapify.
  change (quadCount (set_order b0 a)) with n. rewrite shiftr_1.
  destruct (heapify_loop_heap n fuel a (n / 2))
    as (a1 & Hrun & Hheap & Hwit & Hok1); try assumption; try dlia.
  { intros c Hc Hsc. dlia. }
  rewrite Hrun. cbn [obind].
  change (quadCount (set_order b0 a1)) with n.
  destruct (sort_loop_sorted n fuel a1 (n - 1))
    as (a' & Hrun' & Htail & Hwit' & Hok'); try assumption; try lia.
  { intros p q Hp Hq Hnq. lia. }
  exists a'. split; [exact Hrun'|]. split; [exact Htail|].
  split; [|exact Hok']. eapply within_trans; eassumption.
Qed.
End HeapSort.
(** ** The two policies are strict weak orders *)

Section Lex.
Context {K : Type} (g : K -> K -> bool) (D : K -> Prop).
Hypothesis g_asym : forall x y, D x -> D y -> g x y = true -> g y x = false.
Hypothesis g_negtrans : forall x y z, D x -> D y -> D z ->
  g x y = false -> g y z = false -> g x z = false.

Lemma lex_before_asym kx ky x y :
  D kx -> D ky ->
  lex_before g kx ky x y = true -> lex_before g ky kx y x = false.
Proof.
  intros Dx Dy. unfold lex_before.
  pose proof (g_asym kx ky Dx Dy). pose proof (g_asym ky kx Dy Dx).
  destruct (g kx ky), (g ky kx); try (intuition congruence).
  intros Hlt. apply Z.ltb_lt in Hlt. apply Z.ltb_ge. lia.
Qed.

Lemma lex_before_negtrans kx ky kz x y z :
  D kx -> D ky -> D kz ->
  lex_before g kx ky x y = false -> lex_before g ky kz y z = false ->
  lex_before g kx kz x z = false.
Proof.
  intros Dx Dy Dz. unfold lex_before.
  pose proof (g_asym kx ky Dx Dy). pose proof (g_asym ky kx Dy Dx).
  pose proof (g_asym kx kz Dx Dz). pose proof (g_asym kz kx Dz Dx).
  pose proof (g_asym ky kz Dy Dz). pose proof (g_asym kz ky Dz Dy).
  pose proof (g_negtrans kx ky kz Dx Dy Dz).
  pose proof (g_negtrans kx kz ky Dx Dz Dy).
  pose proof (g_negtrans ky kx kz Dy Dx Dz).
  pose proof (g_negtrans ky kz kx Dy Dz Dx).
  pose proof (g_negtrans kz kx ky Dz Dx Dy).
  pose proof (g_negtrans kz ky kx Dz Dy Dx).
  destruct (g kx ky), (g ky kx), (g ky kz), (g kz ky), (g kx kz), (g kz kx);
    try (intuition congruence).
  intros Hxy Hyz. apply Z.ltb_ge in Hxy, Hyz. apply Z.ltb_ge. lia.
Qed.
End Lex.
Section Policies.
Context {num : Type} `{Arith num}.
Variable b : QuadBatch num.
Hypothesis depth_ok : depth_order_ok b.

Lemma depth_at_valid x :
  valid_entry b x ->
  exists dx, depth_at b (Some x) = Some dx /\ dx ∈ depth b.
Proof.
  intros (Hx & Hd). destruct (aget_in_range (depth b) x) as [dx Hdx]; [lia|].
  exists dx. split; [exact Hdx|]. eapply aget_elem_of, Hdx.
Qed.

Lemma insertion_cmp_before (x y : Z) :
  (insertion_cmp (Some x) (Some y) <? 0) = (x <? y).
Proof.
  unfold insertion_cmp.
  destruct (Z.gtb_spec x y), (Z.ltb_spec x y); try lia; reflexivity.
Qed.

Lemma frontToBack_before x y dx dy :
  depth_at b (Some x) = Some dx -> depth_at b (Some y) = Some dy ->
  sorts_before frontToBack b (Some x) (Some y) = lex_before nlt dx dy x y.
Proof.
  intros Hx Hy. unfold sorts_before, frontToBack, lex_before.
  rewrite Hx, Hy. cbn [js_lt].
  destruct (nlt dx dy); [reflexivity|].
  destruct (nlt dy dx); [reflexivity|]. apply insertion_cmp_before.
Qed.

Lemma backToFront_before x y dx dy :
  dx ∈ depth b -> dy ∈ depth b ->
  depth_at b (Some x) = Some dx -> depth_at b (Some y) = Some dy ->
  sorts_before backToFront b (Some x) (Some y) =
  lex_before (fun k k' => nlt k' k) dx dy x y.
Proof.
  intros Dx Dy Hx Hy. unfold sorts_before, backToFront, lex_before.
  rewrite Hx, Hy. cbn [js_lt].
  destruct depth_ok as [Hasym _]. pose proof (Hasym dx dy Dx Dy) as Ha.
  destruct (nlt dx dy), (nlt dy dx); try reflexivity.
  - specialize (Ha eq_refl). discriminate.
  - apply insertion_cmp_before.
Qed.

(** Both policies, on valid entries, are asymmetric and negatively
    transitive. *)
Lemma policy_asym compare x y :
  compare = backToFront \/ compare = frontToBack ->
  valid_entry b x -> valid_entry b y ->
  sorts_before compare b (Some x) (Some y) = true ->
  sorts_before compare b (Some y) (Some x) = false.
Proof.
  intros Hc Vx Vy.
  destruct (depth_at_valid x Vx) as (dx & Hx & Dx).
  destruct (depth_at_valid y Vy) as (dy & Hy & Dy).
  destruct depth_ok as [Hasym Hneg].
  destruct Hc as [-> | ->].
  - rewrite (backToFront_before x y dx dy), (backToFront_before y x dy dx)
      by assumption.
    apply (lex_before_asym _ (fun k => k ∈ depth b)); auto.
  - rewrite (frontToBack_before x y dx dy), (frontToBack_before y x dy dx)
      by assumption.
    apply (lex_before_asym _ (fun k => k ∈ depth b)); auto.
Qed.

Lemma policy_negtrans compare x y z :
  compare = backToFront \/ compare = frontToBack ->
  valid_entry b x -> valid_entry b y -> valid_entry b z ->
  sorts_before compare b (Some x) (Some y) = false ->
  sorts_before compare b (Some y) (Some z) = false ->
  sorts_before compare b (Some x) (Some z) = false.
Proof.
  intros Hc Vx Vy Vz.
  destruct (depth_at_valid x Vx) as (dx & Hx & Dx).
  destruct (depth_at_valid y Vy) as (dy & Hy & Dy).
  destruct (depth_at_valid z Vz) as (dz & Hz & Dz).
  destruct depth_ok as [Hasym Hneg].
  destruct Hc as [-> | ->].
  - rewrite (backToFront_before x y dx dy), (backToFront_before y z dy dz),
      (backToFront_before x z dx dz) by assumption.
    apply (lex_before_negtrans _ (fun k => k ∈ depth b)); auto.
    intros k1 k2 k3 D1 D2 D3 H12 H23. eapply (Hneg k3 k2 k1); eauto.
  - rewrite (frontToBack_before x y dx dy), (frontToBack_before y z dy dz),
      (frontToBack_before x z dx dz) by assumption.
    apply (lex_before_negtrans _ (fun k => k ∈ depth b)); auto.
Qed.

(** Among quads of equal depth both policies sort the smaller insertion
    index first. *)
Lemma policy_tie compare x y :
  compare = backToFront \/ compare = frontToBack ->
  valid_entry b x -> valid_entry b y ->
  same_depth b x y -> x < y ->
  sorts_before compare b (Some x) (Some y) = true.
Proof.
  intros Hc Vx Vy (Hxy & Hyx) Hlt.
  destruct (depth_at_valid x Vx) as (dx & Hx & Dx).
  destruct (depth_at_valid y Vy) as (dy & Hy & Dy).
  rewrite Hx, Hy in Hxy, Hyx. cbn [js_lt] in Hxy, Hyx.
  destruct Hc as [-> | ->].
  - rewrite (backToFront_before x y dx dy) by assumption.
    unfold lex_before. rewrite Hyx, Hxy. lia.
  - rewrite (frontToBack_before x y dx dy) by assumption.
    unfold lex_before. rewrite Hyx, Hxy. lia.
Qed.
End Policies.

Lemma set_order_order {num} (b : QuadBatch num) : set_order b (order b) = b.
Proof. destruct b. reflexivity. Qed.

Lemma within_draw_order (a a' : list Z) (n : Z) :
  0 <= n -> n <= Z.of_nat (length a) -> within a a' (n - 1) ->
  Permutation (take (Z.to_nat n) a) (take (Z.to_nat n) a').
Proof.
  intros Hn Hlen (Hl & Hout & _ & Hperm).
  assert (Hdrop : drop (Z.to_nat n) a' = drop (Z.to_nat n) a).
  { apply list_eq. intros i. rewrite !lookup_drop.
    specialize (Hout (Z.of_nat (Z.to_nat n + i)) ltac:(lia)).
    unfold aget in Hout.
    assert (Hz : (Z.of_nat (Z.to_nat n + i) <? 0) = false)
      by (apply Z.ltb_ge; lia).
    rewrite Hz, Nat2Z.id in Hout. exact Hout. }
  rewrite <- (take_drop (Z.to_nat n) a) in Hperm.
  rewrite <- (take_drop (Z.to_nat n) a') in Hperm.
  rewrite Hdrop in Hperm.
  eapply Permutation_app_inv_r, Hperm.
Qed.
Lemma entries_ok_length (P : Z -> Prop) (a : list Z) (n : Z) :
  entries_ok P a n -> n <= Z.of_nat (length a) \/ n <= 0.
Proof.
  intros Hok. destruct (Z_le_gt_dec n 0) as [?|Hn]; [right; assumption|left].
  destruct (Hok (n - 1) ltac:(lia)) as (v & Hv & _).
  apply aget_Some_range in Hv. lia.
Qed.

(** C6, amended.  On a batch whose first [quadCount] entries of
    [order] are valid and none of whose depths is NaN ([<] is a strict
    weak order on them), sorting with [backToFront] or [frontToBack]
    returns, rearranges the first [quadCount] entries of [order], and
    puts every two quads of equal depth in insertion order: the one
    with the smaller insertion index is at the smaller position. *)
Theorem sort_ties_keep_insertion_order {num} `{Arith num}
    (b : QuadBatch num) (compare : comparator num) (fuel : nat) :
  compare = backToFront \/ compare = frontToBack ->
  batch_ok b ->
  depth_order_ok b ->
  (Z.to_nat (2 * quadCount b) + 4 <= fuel)%nat ->
  exists b',
    sort fuel b compare = Done b' /\
    same_attributes b b' /\
    Permutation (draw_order b) (draw_order b') /\
    forall p q x y,
      0 <= p < quadCount b -> 0 <= q < quadCount b ->
      aget (order b') p = Some x -> aget (order b') q = Some y ->
      same_depth b x y -> x < y -> p < q.
Proof.
  intros Hc (Hn & Hok) Hdepth Hfuel.
  assert (Hframe : forall (b1 : QuadBatch num) (a : list Z) x y,
             compare (set_order b1 a) x y = compare b1 x y)
    by (destruct Hc as [-> | ->]; reflexivity).
  destruct (sort_sorted compare b (valid_entry b) Hframe
              (fun v Hv => proj1 Hv)
              (fun x y => policy_asym b Hdepth compare x y Hc)
              (fun x y z => policy_negtrans b Hdepth compare x y z Hc)
              fuel (order b) Hn Hok Hfuel)
    as (a' & Hrun & Hsorted & Hwit & Hok').
  rewrite set_order_order in Hrun.
  exists (set_order b a'). split; [exact Hrun|].
  split; [apply same_attributes_set_order|].
  split.
  - unfold draw_order. cbn [quadCount set_order order].
    destruct (entries_ok_length _ _ _ Hok) as [Hlen|Hz].
    + apply within_draw_order; assumption.
    + replace (Z.to_nat (quadCount b)) with 0%nat by lia.
      rewrite !take_0. reflexivity.
  - cbn [order set_order]. intros p q x y Hp Hq Hx Hy Hsame Hlt.
    destruct (Hok' p Hp) as (x' & Hx' & Vx).
    destruct (Hok' q Hq) as (y' & Hy' & Vy).
    assert (x' = x) as -> by congruence.
    assert (y' = y) as -> by congruence.
    pose proof (policy_tie b Hdepth compare x y Hc Vx Vy Hsame Hlt) as Hb.
    destruct (Z_lt_le_dec p q) as [?|Hqp]; [assumption|exfalso].
    destruct (Z.eq_dec p q) as [->|Hne]; [rewrite Hx in Hy; injection Hy; lia|].
    specialize (Hsorted q p ltac:(lia) ltac:(lia) ltac:(lia)).
    rewrite Hx, Hy in Hsorted. congruence.
Qed.
(** [<] on the rationals is a strict weak order. *)
Lemma QNum_lt_spec (x y : Q) : QNum.lt x y = true <-> (x < y)%Q.
Proof.
  unfold QNum.lt. rewrite Qlt_alt. destruct (x ?= y)%Q; split; congruence.
Qed.

Lemma QNum_lt_false (x y : Q) : QNum.lt x y = false <-> (y <= x)%Q.
Proof.
  rewrite <- not_true_iff_false, QNum_lt_spec. split.
  - apply Qnot_lt_le.
  - apply Qle_not_lt.
Qed.

Lemma QNum_depth_order_ok (b : QuadBatch Q) : depth_order_ok b.
Proof.
  split.
  - intros x y _ _ Hxy. apply QNum_lt_false. apply Qlt_le_weak.
    apply QNum_lt_spec. exact Hxy.
  - intros x y z _ _ _ Hxy Hyz. apply QNum_lt_false.
    apply QNum_lt_false in Hxy, Hyz. eapply Qle_trans; eassumption.
Qed.

Lemma depths_2_1_2_ok : batch_ok TieExamples.depths_2_1_2.
Proof.
  split; [by vm_compute|].
  intros i Hi. change (quadCount TieExamples.depths_2_1_2) with 3 in Hi.
  assert (i = 0 \/ i = 1 \/ i = 2) as [-> | [-> | ->]] by lia;
    eexists; (split; [reflexivity|]); by vm_compute.
Qed.

Lemma sort_ties_keep_insertion_order_witness :
  exists b',
    sort 10 TieExamples.depths_2_1_2 backToFront = Done b' /\
    same_attributes TieExamples.depths_2_1_2 b' /\
    Permutation (draw_order TieExamples.depths_2_1_2) (draw_order b') /\
    forall p q x y,
      0 <= p < quadCount TieExamples.depths_2_1_2 ->
      0 <= q < quadCount TieExamples.depths_2_1_2 ->
      aget (order b') p = Some x -> aget (order b') q = Some y ->
      same_depth TieExamples.depths_2_1_2 x y -> x < y -> p < q.
Proof.
  apply (sort_ties_keep_insertion_order TieExamples.depths_2_1_2
           backToFront 10).
  - left. reflexivity.
  - exact depths_2_1_2_ok.
  - apply QNum_depth_order_ok.
  - vm_compute. lia.
Defined.

(** ** Ties beside a NaN depth *)

(** Among numbers none of which is NaN, [<] is a strict weak order: the
    hypothesis [depth_order_ok] says that no depth of the batch is
    NaN. *)
Lemma QNaN_depth_order_ok (b : QuadBatch (option Q)) :
  Forall is_Some (depth b) -> depth_order_ok b.
Proof.
  intros Hall. rewrite Forall_forall in Hall. split.
  - intros x y Hx Hy. destruct (Hall x Hx) as [a ->].
    destruct (Hall y Hy) as [c ->]. cbn. intros Hxy.
    apply QNum_lt_false. apply Qlt_le_weak. apply QNum_lt_spec. exact Hxy.
  - intros x y z Hx Hy Hz. destruct (Hall x Hx) as [a ->].
    destruct (Hall y Hy) as [c ->]. destruct (Hall z Hz) as [e ->].
    cbn. intros Hxy Hyz. apply QNum_lt_false.
    apply QNum_lt_false in Hxy, Hyz. eapply Qle_trans; eassumption.
Qed.

(** C6 as stated fails on a batch that holds a NaN depth.  Six quads of
    depths 1, NaN, 2, 1, 1, 2 sorted back to front end in the order
    5, 0, 1, 2, 3, 4: the quads 2 and 5 have the same depth, and quad 5,
    inserted later, comes first.  Every entry of [order] is valid; what
    fails is that [<] orders the depths. *)
Lemma sort_beside_NaN_reverses_a_tie :
  batch_ok NaNExamples.depths_1_NaN_2_1_1_2 /\
  ~ depth_order_ok NaNExamples.depths_1_NaN_2_1_1_2 /\
  exists b',
    sort 16 NaNExamples.depths_1_NaN_2_1_1_2 backToFront = Done b' /\
    draw_order b' = [5; 0; 1; 2; 3; 4] /\
    same_depth NaNExamples.depths_1_NaN_2_1_1_2 2 5 /\
    ~ (forall p q x y,
         0 <= p < quadCount NaNExamples.depths_1_NaN_2_1_1_2 ->
         0 <= q < quadCount NaNExamples.depths_1_NaN_2_1_1_2 ->
         aget (order b') p = Some x -> aget (order b') q = Some y ->
         same_depth NaNExamples.depths_1_NaN_2_1_1_2 x y -> x < y ->
         p < q).
Proof.
  split; [|split].
  - split; [by vm_compute|].
    intros i Hi.
    change (quadCount NaNExamples.depths_1_NaN_2_1_1_2) with 6 in Hi.
    assert (i = 0 \/ i = 1 \/ i = 2 \/ i = 3 \/ i = 4 \/ i = 5)
      as [-> | [-> | [-> | [-> | [-> | ->]]]]] by lia;
      eexists; (split; [reflexivity|]); by vm_compute.
  - intros [_ Hneg].
    specialize (Hneg (Some 1%Q) None (Some 2%Q)).
    assert (Hin : forall d, In d [Some 1%Q; None; Some 2%Q] ->
              d ∈ depth NaNExamples.depths_1_NaN_2_1_1_2).
    { intros d Hd. apply list_elem_of_In.
      change (depth NaNExamples.depths_1_NaN_2_1_1_2)
        with [Some 1%Q; None; Some 2%Q; Some 1%Q; Some 1%Q; Some 2%Q].
      cbn in Hd |- *. tauto. }
    specialize (Hneg (Hin (Some 1%Q) ltac:(cbn; tauto))
                  (Hin None ltac:(cbn; tauto))
                  (Hin (Some 2%Q) ltac:(cbn; tauto)) eq_refl eq_refl).
    vm_compute in Hneg. discriminate.
  - eexists. split; [vm_compute; reflexivity|].
    split; [reflexivity|]. split; [split; reflexivity|].
    intros Hall.
    specialize (Hall 3 0 2 5 ltac:(by vm_compute) ltac:(by vm_compute)
                  eq_refl eq_refl ltac:(split; reflexivity) ltac:(lia)).
    lia.
Qed.

Example sort_depths_2_1_2 :
  Examples.sorted_order (sort 10 TieExamples.depths_2_1_2 backToFront) =
    Some [0; 2; 1] /\
  Examples.sorted_order (sort 10 TieExamples.depths_2_1_2 frontToBack) =
    Some [1; 0; 2].
Proof. split; vm_compute; reflexivity. Qed.

(** ** More fuel does not change a finished run *)

Section Fuel.
Context {num : Type} `{Arith num}.
Implicit Types (this r : QuadBatch num) (compare : comparator num).

Lemma obind_Done {A} (o : outcome A) (k : A -> outcome A) (r : A) :
  obind o k = Done r -> exists a, o = Done a /\ k a = Done r.
Proof. destruct o; simpl; [eauto|discriminate]. Qed.

Lemma siftDown_loop_mono fuel fuel' compare this root e r :
  (fuel <= fuel')%nat ->
  siftDown_loop fuel compare this root e = Done r ->
  siftDown_loop fuel' compare this root e = Done r.
Proof.
  revert fuel' this root.
  induction fuel as [|fuel IH]; intros fuel' this root Hle; [discriminate|].
  destruct fuel' as [|fuel']; [lia|]. cbn [siftDown_loop].
  repeat case_match; try (intros; assumption).
  all: apply IH; lia.
Qed.

Lemma heapify_loop_mono fuel fuel' compare this s c r :
  (fuel <= fuel')%nat ->
  heapify_loop fuel compare this s c = Done r ->
  heapify_loop fuel' compare this s c = Done r.
Proof.
  revert fuel' this s.
  induction fuel as [|fuel IH]; intros fuel' this s Hle; [discriminate|].
  destruct fuel' as [|fuel']; [lia|]. cbn [heapify_loop].
  destruct (s >=? 0); [|intros; assumption].
  intros Hrun. apply obind_Done in Hrun as (a & Hsift & Hrest).
  unfold siftDown in *.
  rewrite (siftDown_loop_mono fuel fuel' _ _ _ _ a) by (lia || assumption).
  cbn [obind]. apply IH; [lia|assumption].
Qed.

Lemma sort_loop_mono fuel fuel' compare this e r :
  (fuel <= fuel')%nat ->
  sort_loop fuel compare this e = Done r ->
  sort_loop fuel' compare this e = Done r.
Proof.
  revert fuel' this e.
  induction fuel as [|fuel IH]; intros fuel' this e Hle; [discriminate|].
  destruct fuel' as [|fuel']; [lia|]. cbn [sort_loop].
  destruct (e >? 0); [|intros; assumption].
  intros Hrun. apply obind_Done in Hrun as (a & Hsift & Hrest).
  unfold siftDown in *.
  rewrite (siftDown_loop_mono fuel fuel' _ _ _ _ a) by (lia || assumption).
  cbn [obind]. apply IH; [lia|assumption].
Qed.

Lemma sort_mono fuel fuel' compare this r :
  (fuel <= fuel')%nat ->
  sort fuel this compare = Done r -> sort fuel' this compare = Done r.
Proof.
  intros Hle. unfold sort, heapify. intros Hrun.
  apply obind_Done in Hrun as (a & Hheap & Hrest).
  rewrite (heapify_loop_mono fuel fuel' _ _ _ _ a) by assumption.
  cbn [obind]. eapply sort_loop_mono; eassumption.
Qed.
End Fuel.

(** C5. The batch of three quads inserted with depths 3, 1, 2: sorted
    back to front its order is [0; 2; 1], sorted front to back
    [1; 2; 0], with any fuel from 6 on. *)
Theorem sort_depths_3_1_2 (fuel : nat) :
  (6 <= fuel)%nat ->
  Examples.sorted_order (sort fuel Examples.depths_3_1_2 backToFront) =
    Some [0; 2; 1] /\
  Examples.sorted_order (sort fuel Examples.depths_3_1_2 frontToBack) =
    Some [1; 2; 0].
Proof.
  intros Hfuel. split.
  - destruct (sort 6 Examples.depths_3_1_2 backToFront) as [r|r] eqn:Hrun;
      [|vm_compute in Hrun; discriminate].
    rewrite (sort_mono 6 fuel _ _ r Hfuel Hrun).
    vm_compute in Hrun. injection Hrun as <-. reflexivity.
  - destruct (sort 6 Examples.depths_3_1_2 frontToBack) as [r|r] eqn:Hrun;
      [|vm_compute in Hrun; discriminate].
    rewrite (sort_mono 6 fuel _ _ r Hfuel Hrun).
    vm_compute in Hrun. injection Hrun as <-. reflexivity.
Qed.

Lemma sort_depths_3_1_2_witness :
  Examples.sorted_order (sort 6 Examples.depths_3_1_2 backToFront) =
    Some [0; 2; 1] /\
  Examples.sorted_order (sort 6 Examples.depths_3_1_2 frontToBack) =
    Some [1; 2; 0].
Proof. apply (sort_depths_3_1_2 6). lia. Defined.
(** ** The permutation invariant *)

Lemma positions_S (k : nat) :
  positions 0 (S k) = positions 0 k ++ [Z.of_nat k].
Proof. unfold positions. rewrite seq_S, map_app. reflexivity. Qed.

Lemma positions_NoDup (k : nat) : NoDup (positions 0 k).
Proof.
  unfold positions. apply NoDup_fmap_2; [|apply NoDup_seq].
  intros x y Hxy. lia.
Qed.

Lemma elem_of_positions (k : nat) (v : Z) :
  v ∈ positions 0 k <-> 0 <= v < Z.of_nat k.
Proof.
  unfold positions. rewrite list_elem_of_fmap. split.
  - intros (i & -> & Hi). apply elem_of_seq in Hi. lia.
  - intros Hv. exists (Z.to_nat v). split; [lia|]. apply elem_of_seq. lia.
Qed.

Section PermutationInvariant.
Context {num : Type} `{Arith num}.
Implicit Types (b : QuadBatch num) (compare : comparator num).

(** The entries of a permutation of [0 .. quadCount - 1] fit 16 bits
    when [quadCount <= 65536]. *)
Lemma order_inv_entries b :
  order_inv b ->
  entries_ok (fun v => 0 <= v < 65536) (order b) (quadCount b).
Proof.
  intros ((Hn & Hnc) & Hlen & Hcap & Hperm) i Hi.
  destruct (aget_in_range (order b) i) as [v Hv]; [lia|].
  exists v. split; [exact Hv|].
  assert (Hin : v ∈ draw_order b).
  { unfold draw_order. apply list_elem_of_lookup. exists (Z.to_nat i).
    rewrite lookup_take_lt by lia.
    unfold aget in Hv. destruct (i <? 0); [discriminate|exact Hv]. }
  unfold order_is_permutation in Hperm. rewrite Hperm in Hin.
  apply elem_of_positions in Hin. lia.
Qed.

Lemma add_order_inv b st x y d ox oy sx sy o color srx sry srw srh iw ih :
  order_inv b ->
  quadCount b < quadCapacity b ->
  order_inv (fst (add b st x y d ox oy sx sy o color srx sry srw srh iw ih)).
Proof.
  intros ((Hn & Hnc) & Hlen & Hcap & Hperm) Hroom.
  unfold order_inv, order_is_permutation, draw_order in *.
  cbn [add fst quadCount quadCapacity order].
  rewrite length_aset. repeat split; try lia.
  unfold aset, to_uint16.
  replace (quadCount b <? 0) with false by (symmetry; lia).
  rewrite Z.mod_small by lia.
  replace (Z.to_nat (quadCount b + 1)) with (S (Z.to_nat (quadCount b)))
    by lia.
  rewrite (take_S_r _ _ (quadCount b))
    by (apply list_lookup_insert_eq; lia).
  rewrite take_insert_ge by lia.
  rewrite positions_S, Z2Nat.id by lia.
  apply Permutation_app; [exact Hperm|reflexivity].
Qed.


Local Abbreviation U16 := (fun v : Z => 0 <= v < 65536).

Lemma rearranged_refl n e b :
  entries_ok U16 (order b) n -> rearranged n e b b.
Proof.
  intros Hok. unfold rearranged.
  split; [apply within_refl|]. split; [exact Hok|]. split; reflexivity.
Qed.

Lemma rearranged_trans n e b1 b2 b3 :
  rearranged n e b1 b2 -> rearranged n e b2 b3 -> rearranged n e b1 b3.
Proof.
  intros (Hw1 & _ & Hc1 & Hq1) (Hw2 & Hok & Hc2 & Hq2). unfold rearranged.
  split; [eapply within_trans; eassumption|].
  split; [exact Hok|]. split; congruence.
Qed.

Lemma rearranged_weaken n e e' b r :
  e <= e' -> rearranged n e b r -> rearranged n e' b r.
Proof.
  intros He (Hw & Hrest). split; [|exact Hrest].
  eapply within_weaken; eassumption.
Qed.

Lemma rearranged_swapped n e b p q :
  entries_ok U16 (order b) n -> e < n -> 0 <= p <= e -> 0 <= q <= e ->
  rearranged n e b (set_order b (swapped (order b) p q)).
Proof.
  intros Hok He Hp Hq.
  assert (Hw : within (order b) (swapped (order b) p q) e)
    by (apply (within_swapped U16 (fun v Hv => Hv) (order b) n);
        assumption).
  unfold rearranged. cbn [order set_order quadCount quadCapacity].
  split; [exact Hw|].
  split; [|split; reflexivity].
  eapply (entries_ok_within U16); [exact He|exact Hok|exact Hw].
Qed.

Lemma siftDown_loop_rearranged n fuel compare : forall b root e,
  entries_ok U16 (order b) n -> e < n -> 0 <= root ->
  rearranged n e b (reached (siftDown_loop fuel compare b root e)).
Proof.
  induction fuel as [|fuel IH]; intros b root e Hok He Hroot;
    cbn [siftDown_loop reached]; [apply rearranged_refl, Hok|].
  rewrite shiftl_1.
  destruct (Z.leb_spec (2 * root) e) as [Hloop|Hloop];
    [|apply rearranged_refl, Hok].
  set (m := if (2 * root <? e) && _ then 2 * root + 1 else 2 * root).
  assert (Hm : 2 * root <= m <= e).
  { subst m. destruct (Z.ltb_spec (2 * root) e); cbn [andb]; [|lia].
    match goal with |- context [if ?c then _ else _] => destruct c end; lia. }
  clearbody m.
  destruct (compare b (aget (order b) root) (aget (order b) m) <? 0);
    [|apply rearranged_refl, Hok].
  change (aset (aset (order b) m (to_uint16 (aget (order b) root))) root
            (to_uint16 (aget (order b) m)))
    with (swapped (order b) m root).
  assert (Hsw : rearranged n e b (set_order b (swapped (order b) m root)))
    by (apply rearranged_swapped; (assumption || lia)).
  eapply rearranged_trans; [exact Hsw|].
  apply IH; [apply Hsw|exact He|lia].
Qed.

Lemma heapify_loop_rearranged n fuel compare : forall b s,
  entries_ok U16 (order b) n ->
  rearranged n (n - 1) b (reached (heapify_loop fuel compare b s n)).
Proof.
  induction fuel as [|fuel IH]; intros b s Hok;
    cbn [heapify_loop reached]; [apply rearranged_refl, Hok|].
  destruct (Z.geb_spec s 0) as [Hs|Hs]; [|apply rearranged_refl, Hok].
  apply (obind_reached_inv (rearranged n (n - 1) b)).
  - apply siftDown_loop_rearranged; (assumption || lia).
  - intros a Ha. eapply rearranged_trans; [exact Ha|]. apply IH, Ha.
Qed.

Lemma sort_loop_rearranged n fuel compare : forall b e,
  entries_ok U16 (order b) n -> e < n ->
  rearranged n e b (reached (sort_loop fuel compare b e)).
Proof.
  induction fuel as [|fuel IH]; intros b e Hok He;
    cbn [sort_loop reached]; [apply rearranged_refl, Hok|].
  destruct (Z.gtb_spec e 0) as [Hloop|Hloop]; [|apply rearranged_refl, Hok].
  change (aset (aset (order b) 0 (to_uint16 (aget (order b) e))) e
            (to_uint16 (aget (order b) 0)))
    with (swapped (order b) 0 e).
  assert (Hsw : rearranged n e b (set_order b (swapped (order b) 0 e)))
    by (apply rearranged_swapped; (assumption || lia)).
  apply (obind_reached_inv (rearranged n e b)).
  - eapply rearranged_trans; [exact Hsw|].
    apply (rearranged_weaken n (e - 1)); [lia|].
    apply siftDown_loop_rearranged; [apply Hsw|lia|lia].
  - intros a Ha. eapply rearranged_trans; [exact Ha|].
    apply (rearranged_weaken n (e - 1)); [lia|].
    apply IH; [apply Ha|lia].
Qed.

Lemma sort_rearranged fuel compare b :
  entries_ok U16 (order b) (quadCount b) ->
  rearranged (quadCount b) (quadCount b - 1) b
    (reached (sort fuel b compare)).
Proof.
  intros Hok. unfold sort, heapify.
  apply (obind_reached_inv (rearranged (quadCount b) (quadCount b - 1) b)).
  - apply heapify_loop_rearranged, Hok.
  - intros a Ha. eapply rearranged_trans; [exact Ha|].
    destruct Ha as (_ & Hoka & Hq & _). rewrite Hq.
    apply sort_loop_rearranged; [exact Hoka|lia].
Qed.

(** [sort] keeps the invariant, for every comparator, finished or not. *)
Lemma sort_order_inv fuel compare b :
  order_inv b -> order_inv (reached (sort fuel b compare)).
Proof.
  intros Hinv. pose proof (order_inv_entries b Hinv) as Hok.
  destruct (sort_rearranged fuel compare b Hok) as (Hw & _ & Hq & Hc).
  destruct Hinv as ((Hn & Hnc) & Hlen & Hcap & Hperm).
  pose proof Hw as (Hl & _).
  unfold order_inv, order_is_permutation, draw_order in *.
  rewrite Hq, Hc, Hl. repeat split; try lia.
  rewrite <- Hperm. symmetry.
  apply within_draw_order; [lia|lia|exact Hw].
Qed.

Lemma run_order_inv (calls : list (call num)) : forall b,
  order_inv b -> adds_in_capacity b calls -> order_inv (run b calls).
Proof.
  induction calls as [|c calls IH]; intros b Hinv Hadds; [exact Hinv|].
  destruct Hadds as [Hroom Hadds]. unfold run. cbn [fold_left].
  apply IH; [|exact Hadds].
  destruct c; cbn [do_call].
  - apply add_order_inv; assumption.
  - apply sort_order_inv, Hinv.
Qed.

Lemma newQuadBatch_order_inv (capacity : Z) :
  0 < capacity <= 65536 -> order_inv (newQuadBatch capacity).
Proof.
  intros Hc. unfold newQuadBatch.
  replace (capacity =? 0) with false by (symmetry; lia).
  destruct (resize_spec (mkQuadBatch [] [] [] [] [] [] [] [] [] 0 0)
              capacity) as (Hcap & Hcnt & Ho & _).
  unfold order_inv, order_is_permutation, draw_order.
  rewrite Hcap, Hcnt, Ho. repeat split; try lia.
  reflexivity.
Qed.

(** For batches of at most 65536 quads the invariant of C7 holds:
    after any sequence of [add] calls made with room left and [sort]
    calls with any comparator, [order[0 .. quadCount)] is a permutation
    of [0 .. quadCount - 1]. *)
Theorem order_is_permutation_up_to_65536 (capacity : Z)
    (calls : list (call num)) :
  0 < capacity <= 65536 ->
  adds_in_capacity (newQuadBatch capacity) calls ->
  order_is_permutation (run (newQuadBatch capacity) calls).
Proof.
  intros Hc Hadds.
  apply (run_order_inv calls (newQuadBatch capacity));
    [apply newQuadBatch_order_inv, Hc|exact Hadds].
Qed.
End PermutationInvariant.
Section BeyondSixteenBits.
Context {num : Type} `{Arith num}.
Implicit Types (b : QuadBatch num).

Lemma run_app b (l1 l2 : list (call num)) :
  run b (l1 ++ l2) = run (run b l1) l2.
Proof. unfold run. apply fold_left_app. Qed.

Lemma adds_in_capacity_app (l1 l2 : list (call num)) : forall b,
  adds_in_capacity b l1 -> adds_in_capacity (run b l1) l2 ->
  adds_in_capacity b (l1 ++ l2).
Proof.
  induction l1 as [|c l1 IH]; intros b H1 H2; [exact H2|].
  destruct H1 as [Hc H1]. split; [exact Hc|]. apply IH; assumption.
Qed.

(** [k] quads added to a fresh batch of capacity [C >= k]: entry [i] of
    [order] is [i] reduced modulo 2^16. *)
Lemma run_adds (C : Z) (k : nat) :
  0 < C -> Z.of_nat k <= C ->
  let calls := replicate k (add_plain Null) in
  let b := run (newQuadBatch C) calls in
  adds_in_capacity (newQuadBatch C) calls /\
  quadCount b = Z.of_nat k /\
  quadCapacity b = C /\
  Z.of_nat (length (order b)) = C /\
  forall i, 0 <= i < Z.of_nat k -> aget (order b) i = Some (i mod 65536).
Proof.
  intros HC. induction k as [|k IH]; intros Hk; cbv zeta.
  - destruct (resize_spec (mkQuadBatch (num := num) [] [] [] [] [] [] [] [] [] 0 0)
                C) as (Hcap & Hcnt & Ho & _).
    unfold newQuadBatch. replace (C =? 0) with false by (symmetry; lia).
    cbn [replicate run fold_left adds_in_capacity].
    rewrite Hcap, Hcnt, Ho. repeat split; try lia.
  - destruct (IH ltac:(lia)) as (Hadds & Hcnt & Hcap & Hlen & Hord).
    rewrite replicate_S_end, run_app.
    set (b := run (newQuadBatch C) (replicate k (add_plain Null))) in *.
    split.
    { apply adds_in_capacity_app; [exact Hadds|].
      fold b. cbn [adds_in_capacity add_plain]. split; [lia|exact I]. }
    change (run b [add_plain Null]) with (do_call b (add_plain Null)).
    cbn [do_call add_plain add fst].
    cbn [quadCount quadCapacity order]. rewrite length_aset.
    repeat split; try lia.
    intros i Hi. rewrite Hcnt. cbn [to_uint16].
    destruct (Z.eq_dec i (Z.of_nat k)) as [->|Hne].
    + apply aget_aset_eq. lia.
    + rewrite aget_aset_ne by lia. apply Hord. lia.
Qed.

(** A batch whose [order] holds 0 at positions 0 and 65536, both below
    [quadCount], is not a permutation. *)
Lemma repeated_entry_not_permutation b :
  quadCount b = 65537 ->
  aget (order b) 0 = Some 0 ->
  aget (order b) 65536 = Some 0 ->
  ~ order_is_permutation b.
Proof.
  intros Hcnt H0 H1 Hperm. unfold order_is_permutation in Hperm.
  pose proof (positions_NoDup (Z.to_nat (quadCount b))) as Hnd.
  rewrite <- Hperm in Hnd.
  assert (Hl0 : draw_order b !! Z.to_nat 0 = Some 0).
  { unfold draw_order. rewrite lookup_take_lt by lia. exact H0. }
  assert (Hl1 : draw_order b !! Z.to_nat 65536 = Some 0).
  { unfold draw_order. rewrite lookup_take_lt by lia. exact H1. }
  pose proof (NoDup_lookup _ _ _ _ Hnd Hl0 Hl1). lia.
Qed.

(** [k = 65537] quads added to a fresh batch of capacity 65537. *)
Lemma run_adds_65537 (k : nat) :
  Z.of_nat k = 65537 ->
  adds_in_capacity (newQuadBatch 65537)
    (replicate k (add_plain (num := num) Null)) /\
  quadCount (run (newQuadBatch 65537)
    (replicate k (add_plain (num := num) Null))) = 65537 /\
  aget (order (run (newQuadBatch 65537)
    (replicate k (add_plain (num := num) Null)))) 0 = Some 0 /\
  aget (order (run (newQuadBatch 65537)
    (replicate k (add_plain (num := num) Null)))) 65536 = Some 0 /\
  ~ order_is_permutation (run (newQuadBatch 65537)
    (replicate k (add_plain (num := num) Null))).
Proof.
  intros Hk.
  destruct (run_adds 65537 k ltac:(lia) ltac:(lia))
    as (Hadds & Hcnt & Hcap & Hlen & Hord).
  revert Hadds Hcnt Hcap Hlen Hord.
  generalize (replicate k (add_plain (num := num) Null)). intros calls.
  generalize (newQuadBatch (num := num) 65537). intros b0.
  generalize (run b0 calls). intros b Hadds Hcnt Hcap Hlen Hord.
  rewrite Hk in Hcnt, Hord.
  pose proof (Hord 0 ltac:(lia)) as H0.
  pose proof (Hord 65536 ltac:(lia)) as H1.
  change (0 mod 65536) with 0 in H0. change (65536 mod 65536) with 0 in H1.
  split; [exact Hadds|]. split; [exact Hcnt|].
  split; [exact H0|]. split; [exact H1|].
  apply repeated_entry_not_permutation; assumption.
Qed.

(** C7, at a batch of capacity 65537 to which 65537 quads are added,
    each with room left.  [order] is a [Uint16Array]: the insertion
    index 65536 is stored as 0, which [order[0]] holds already, so
    [order[0 .. quadCount)] is not a permutation of
    [0 .. quadCount - 1]. *)
Theorem order_not_permutation_beyond_65536 :
  adds_in_capacity (newQuadBatch 65537)
    (replicate (Z.to_nat 65537) (add_plain (num := num) Null)) /\
  quadCount (run (newQuadBatch 65537)
    (replicate (Z.to_nat 65537) (add_plain (num := num) Null))) = 65537 /\
  aget (order (run (newQuadBatch 65537)
    (replicate (Z.to_nat 65537) (add_plain (num := num) Null)))) 0 =
    Some 0 /\
  aget (order (run (newQuadBatch 65537)
    (replicate (Z.to_nat 65537) (add_plain (num := num) Null)))) 65536 =
    Some 0 /\
  ~ order_is_permutation (run (newQuadBatch 65537)
    (replicate (Z.to_nat 65537) (add_plain (num := num) Null))).
Proof.
  exact (run_adds_65537 (Z.to_nat 65537)
           (Z2Nat.id 65537 ltac:(discriminate))).
Qed.
End BeyondSixteenBits.
(** * Further properties *)

(** ** The submission loop *)

Section SubmissionLoop.
Context {num : Type}.
Implicit Types (this : QuadEffect) (batch : QuadBatch num).

(** One call of [bufferData] that is asked for at least one quad, from
    cursors that satisfy the invariant. *)
Lemma bufferData_step this batch offset count :
  vertexCapacity this mod 4 = 0 ->
  ring_inv this ->
  1 <= count ->
  exists this1 q,
    bufferData this batch offset count =
      (this1, q,
       [GenerateVertices (vertexOffset this) offset q;
        UploadArrayBufferRegion (vertexOffset this * vertexSize this)
          (q * vertexSize this * 4);
        UploadIndexBufferRegion (indexOffset this * indexSize this)
          (q * 6)]) /\
    1 <= q <= count /\
    vertexOffset this + 4 * q <= vertexCapacity this /\
    ring_inv this1 /\
    vertexCapacity this1 = vertexCapacity this /\
    indexCapacity this1 = indexCapacity this /\
    vertexSize this1 = vertexSize this /\
    indexSize this1 = indexSize this /\
    currentState this1 = currentState this.
Proof.
  intros Hcap (Hrange & Hoff & Hidx) Hcount.
  unfold bufferData, ring_inv.
  destruct this as [cs idata vcap voff icap ioff vsz isz]; simpl in *.
  apply Z.mod_divide in Hcap; [|lia]. destruct Hcap as [c ->].
  apply Z.mod_divide in Hoff; [|lia]. destruct Hoff as [o ->].
  rewrite Z.div_mul in Hidx by lia. subst ioff.
  destruct (c * 4 <? o * 4 + count * 4) eqn:Hclamp.
  - apply Z.ltb_lt in Hclamp.
    replace (c * 4 - o * 4) with ((c - o) * 4) by lia.
    rewrite Z.div_mul by lia.
    replace (c - o =? 0) with false by (symmetry; lia).
    replace (c * 4 =? o * 4 + (c - o) * 4) with true by (symmetry; lia).
    eexists _, (c - o). split; [reflexivity|]. simpl.
    repeat split; try lia.
  - apply Z.ltb_ge in Hclamp.
    rewrite Z.div_mul by lia.
    replace (count =? 0) with false by (symmetry; lia).
    destruct (c * 4 =? o * 4 + count * 4) eqn:Hw.
    + apply Z.eqb_eq in Hw.
      eexists _, count. split; [reflexivity|]. simpl.
      repeat split; try lia.
    + apply Z.eqb_neq in Hw.
      eexists _, count. split; [reflexivity|]. simpl.
      replace (o * 4 + count * 4) with ((o + count) * 4) by lia.
      rewrite Z.div_mul by lia.
      repeat split; try lia. apply Z.mod_mul; lia.
Qed.

Lemma generated_app (c1 c2 : list glcall) :
  generated (c1 ++ c2) = generated c1 ++ generated c2.
Proof. unfold generated. apply omap_app. Qed.

Lemma generated_no_generate (calls : list glcall) :
  List.filter is_generate calls = [] -> generated calls = [].
Proof.
  induction calls as [|c calls IH]; [reflexivity|].
  destruct c; simpl; intros Hf; try (apply IH, Hf); discriminate.
Qed.

Lemma drawBatch_loop_covers fuel : forall this batch baseIndex quadIndex quadCount,
  vertexCapacity this mod 4 = 0 ->
  ring_inv this ->
  0 <= quadCount ->
  (Z.to_nat quadCount < fuel)%nat ->
  exists this' calls passes,
    drawBatch_loop fuel this batch baseIndex quadIndex quadCount =
      Some (this', calls, passes) /\
    Forall (fun n => 1 <= n) passes /\
    Zsum passes = quadCount /\
    generated calls = batch_ranges quadIndex passes /\
    ring_inv this' /\
    vertexCapacity this' = vertexCapacity this.
Proof.
  induction fuel as [|fuel IH];
    intros this batch baseIndex quadIndex quadCount Hcap Hinv Hq Hfuel;
    [lia|].
  cbn [drawBatch_loop].
  destruct (Z.gtb_spec quadCount 0) as [Hpos|Hzero].
  2: { exists this, [], []. assert (quadCount = 0) as -> by lia.
       repeat split; try reflexivity; try assumption; try apply Hinv.
       constructor. }
  destruct (bufferData_step this batch quadIndex quadCount Hcap Hinv)
    as (this1 & q & -> & Hqr & _ & Hinv1 & Hcap1 & _); [lia|].
  pose proof (drawRegion_cursors this1 batch quadIndex q baseIndex) as Hcur.
  pose proof (drawRegion_no_generate this1 batch quadIndex q baseIndex) as Hng.
  destruct (drawRegion this1 batch quadIndex q baseIndex) as [this2 drawn].
  cbn [fst snd] in Hcur, Hng.
  destruct Hcur as (Hv & Hi & Hvc & _).
  assert (Hinv2 : ring_inv this2).
  { unfold ring_inv in *. rewrite Hv, Hi, Hvc. exact Hinv1. }
  destruct (IH this2 batch (indexOffset this2) (quadIndex + q)
              (quadCount - q))
    as (this' & calls & passes & -> & Hall & Hsum & Hgen & Hinv' & Hcap');
    try assumption; try lia.
  { rewrite Hvc, Hcap1. exact Hcap. }
  eexists _, _, _. split; [reflexivity|].
  split; [constructor; [lia|exact Hall]|].
  split; [cbn [Zsum fold_right]; fold (Zsum passes); lia|].
  split.
  { rewrite !generated_app, (generated_no_generate drawn Hng), Hgen.
    reflexivity. }
  split; [exact Hinv'|]. congruence.
Qed.

(** With cursors that satisfy the invariant, [drawBatch] returns; every
    pass buffers at least one quad, the passes cover the batch from
    quad 0 to quad [quadCount - 1] in consecutive ranges, each quad
    once, and the cursors satisfy the invariant again. *)
Theorem drawBatch_buffers_every_quad_once this batch (fuel : nat) :
  vertexCapacity this mod 4 = 0 ->
  ring_inv this ->
  0 <= quadCount batch ->
  (Z.to_nat (quadCount batch) < fuel)%nat ->
  exists this' calls passes,
    drawBatch fuel this batch = Some (this', calls, passes) /\
    Forall (fun n => 1 <= n) passes /\
    Zsum passes = quadCount batch /\
    generated calls = batch_ranges 0 passes /\
    ring_inv this' /\
    vertexCapacity this' = vertexCapacity this.
Proof.
  intros Hcap Hinv Hq Hfuel. unfold drawBatch.
  apply drawBatch_loop_covers; assumption.
Qed.

Lemma drawBatch_loop_stuck batch (count : Z) (fuel : nat) :
  0 < count ->
  forall this baseIndex quadIndex,
  vertexCapacity this = 0 ->
  vertexOffset this = 0 ->
  drawBatch_loop fuel this batch baseIndex quadIndex count = None.
Proof.
  intros Hq.
  induction fuel as [|fuel IH]; intros this baseIndex quadIndex Hcap Hoff;
    [reflexivity|].
  cbn [drawBatch_loop].
  replace (count >? 0) with true by (symmetry; lia).
  assert (Hbuf : bufferData this batch quadIndex count = (this, 0, [])).
  { unfold bufferData. rewrite Hcap, Hoff.
    replace (0 <? 0 + count * 4) with true by (symmetry; lia).
    reflexivity. }
  rewrite Hbuf.
  pose proof (drawRegion_cursors this batch quadIndex 0 baseIndex) as Hcur.
  destruct (drawRegion this batch quadIndex 0 baseIndex) as [this2 drawn].
  cbn [fst] in Hcur. destruct Hcur as (Hv & Hi & Hvc & _).
  replace (count - 0) with count by lia.
  rewrite IH by congruence. reflexivity.
Qed.

(** An effect whose vertex buffer holds no vertex (capacity 0) never
    finishes drawing a batch that is not empty: [bufferData] buffers
    nothing, so the loop of [drawBatch] makes no progress. *)
Theorem drawBatch_without_capacity_never_returns this batch :
  vertexCapacity this = 0 ->
  vertexOffset this = 0 ->
  0 < quadCount batch ->
  forall fuel, drawBatch fuel this batch = None.
Proof.
  intros Hcap Hoff Hq fuel. unfold drawBatch.
  apply drawBatch_loop_stuck; assumption.
Qed.
End SubmissionLoop.

Lemma drawBatch_buffers_every_quad_once_witness :
  exists this' calls passes,
    drawBatch 3 (Examples.effect 1) Examples.two_states =
      Some (this', calls, passes) /\
    Forall (fun n => 1 <= n) passes /\
    Zsum passes = quadCount Examples.two_states /\
    generated calls = batch_ranges 0 passes /\
    ring_inv this' /\
    vertexCapacity this' = vertexCapacity (Examples.effect 1).
Proof.
  apply (drawBatch_buffers_every_quad_once (Examples.effect 1)
           Examples.two_states 3).
  - reflexivity.
  - unfold ring_inv. simpl. repeat split; lia.
  - by vm_compute.
  - vm_compute. lia.
Defined.

Lemma drawBatch_without_capacity_never_returns_witness :
  drawBatch 100 (Examples.effect 0) Examples.two_states = None.
Proof.
  apply (drawBatch_without_capacity_never_returns (Examples.effect 0)
           Examples.two_states).
  - reflexivity.
  - reflexivity.
  - by vm_compute.
Defined.
(** ** Empty batches *)

(** Flushing empties the batch for the sorter and for the effect: a
    sort of the flushed batch returns it as it is, and drawing it makes
    no call and leaves the effect as it was. *)
Theorem flushed_batch_sorts_and_draws_nothing {num} `{Arith num}
    (b : QuadBatch num) (this : QuadEffect) (compare : comparator num)
    (fuel : nat) :
  (2 <= fuel)%nat ->
  sort fuel (flush b) compare = Done (flush b) /\
  drawBatch fuel this (flush b) = Some (this, [], []).
Proof.
  intros Hfuel. destruct fuel as [|[|fuel]]; try lia.
  split; reflexivity.
Qed.

Lemma flushed_batch_sorts_and_draws_nothing_witness :
  sort 2 (flush Examples.two_states) backToFront =
    Done (flush Examples.two_states) /\
  drawBatch 2 (Examples.effect 1) (flush Examples.two_states) =
    Some (Examples.effect 1, [], []).
Proof.
  apply (flushed_batch_sorts_and_draws_nothing Examples.two_states
           (Examples.effect 1) backToFront 2).
  lia.
Defined.

(** ** What one region draws *)

Section Region.
Context {num : Type}.
Implicit Types (this : QuadEffect) (batch : QuadBatch num).

Lemma draws_contiguous_app (c1 c2 : list glcall) (base mid : Z) :
  draws_contiguous base c1 = Some mid ->
  draws_contiguous base (c1 ++ c2) = draws_contiguous mid c2.
Proof.
  revert base. induction c1 as [|c c1 IH]; intros base; simpl.
  - intros [= ->]. reflexivity.
  - destruct c; try apply IH.
    destruct (baseIndex =? base); [apply IH|discriminate].
Qed.

(** The loop of [drawRegion] from position [i]: the draws it makes
    follow one another from [baseIndex], each is of at least one quad,
    and together with the quads from [index] still to be drawn they
    account for the positions [index .. i + todo). *)
Lemma drawRegion_loop_ranges todo batch : forall i state0 state1 index baseIndex,
  index <= i ->
  let '(s1, ix, bi, calls) :=
    drawRegion_loop todo batch i state0 state1 index baseIndex in
  draws_contiguous baseIndex calls = Some bi /\
  bi = baseIndex + 6 * (ix - index) /\
  index <= ix /\ (ix = index \/ i <= ix < i + Z.of_nat todo) /\
  Forall (fun n => 0 < n) (draw_sizes calls).
Proof.
  induction todo as [|todo IH]; intros i state0 state1 index baseIndex Hix;
    cbn [drawRegion_loop].
  - split; [reflexivity|]. split; [lia|]. split; [lia|].
    split; [left; reflexivity|constructor].
  - destruct (strict_ne _ state0).
    + destruct (Z.gtb_spec i index) as [Hgt|Hle].
      * specialize (IH (i + 1)
                      (state_at batch (aget (order batch) i))
                      (state_at batch (aget (order batch) i)) i
                      (baseIndex + (i - index) * 6) ltac:(lia)).
        destruct (drawRegion_loop todo batch (i + 1) _ _ i _)
          as [[[s1 ix] bi] calls].
        destruct IH as (Hc & Hbi & Hi1 & Hi2 & Hall).
        cbn [app draws_contiguous draw_sizes omap].
        rewrite Z.eqb_refl.
        split; [exact Hc|]. split; [lia|]. split; [lia|].
        split; [right; lia|]. constructor; [lia|exact Hall].
      * assert (index = i) as -> by lia.
        specialize (IH (i + 1)
                      (state_at batch (aget (order batch) i))
                      (state_at batch (aget (order batch) i)) i
                      baseIndex ltac:(lia)).
        destruct (drawRegion_loop todo batch (i + 1) _ _ i _)
          as [[[s1 ix] bi] calls].
        destruct IH as (Hc & Hbi & Hi1 & Hi2 & Hall).
        cbn [app draws_contiguous draw_sizes omap].
        split; [exact Hc|]. split; [lia|]. split; [lia|].
        split; [right; lia|]. exact Hall.
    + specialize (IH (i + 1) state0
                    (state_at batch (aget (order batch) i)) index
                    baseIndex ltac:(lia)).
      destruct (drawRegion_loop todo batch (i + 1) _ _ index _)
        as [[[s1 ix] bi] calls].
      destruct IH as (Hc & Hbi & Hi1 & Hi2 & Hall).
      split; [exact Hc|]. split; [lia|]. split; [lia|].
      split; [lia|exact Hall].
Qed.

(** The draws of one [drawRegion] follow one another in the index
    buffer from [baseIndex] and cover exactly the [6 * count] indices of
    the region; for a region that is not empty none of them is empty. *)
Theorem drawRegion_draws_cover_region this batch offset count baseIndex :
  0 <= count ->
  let calls := snd (drawRegion this batch offset count baseIndex) in
  draws_contiguous baseIndex calls = Some (baseIndex + 6 * count) /\
  Zsum (draw_sizes calls) = 6 * count /\
  (1 <= count -> Forall (fun n => 0 < n) (draw_sizes calls)).
Proof.
  intros Hc. unfold drawRegion.
  pose proof (drawRegion_loop_ranges (Z.to_nat count) batch 0
                (currentState this) (currentState this) 0 baseIndex
                ltac:(lia)) as Hl.
  destruct (drawRegion_loop _ _ _ _ _ _ _) as [[[s1 ix] bi] calls].
  destruct Hl as (Hcont & Hbi & Hi1 & Hi2 & Hall).
  cbn [snd].
  assert (Hsizes : forall c1 base mid,
             draws_contiguous base c1 = Some mid ->
             Zsum (draw_sizes c1) = mid - base).
  { clear. induction c1 as [|c c1 IH]; intros base mid; simpl.
    - intros [= ->]. lia.
    - destruct c; try apply IH.
      destruct (baseIndex =? base); [|discriminate].
      intros Hd. cbn [Zsum fold_right]. fold (Zsum (draw_sizes c1)).
      rewrite (IH _ _ Hd). lia. }
  assert (Hfull : draws_contiguous baseIndex
                    (calls ++ [DrawIndexed ((count - ix) * 6) bi]) =
                  Some (baseIndex + 6 * count)).
  { rewrite (draws_contiguous_app _ _ _ _ Hcont). simpl.
    rewrite Z.eqb_refl. f_equal. lia. }
  split; [exact Hfull|]. split.
  - rewrite (Hsizes _ _ _ Hfull). lia.
  - intros H1. unfold draw_sizes in *. rewrite omap_app.
    apply Forall_app. split; [exact Hall|].
    repeat constructor. lia.
Qed.
End Region.

Lemma drawRegion_draws_cover_region_witness :
  let calls := snd (drawRegion (Examples.effect 2) Examples.two_states 0 2 0) in
  draws_contiguous 0 calls = Some (0 + 6 * 2) /\
  Zsum (draw_sizes calls) = 6 * 2 /\
  (1 <= 2 -> Forall (fun n => 0 < n) (draw_sizes calls)).
Proof.
  apply (drawRegion_draws_cover_region (Examples.effect 2)
           Examples.two_states 0 2 0).
  lia.
Defined.
(** ** The states one region applies *)

Section RegionStates.
Context {num : Type}.
Implicit Types (this : QuadEffect) (batch : QuadBatch num).

Lemma applied_app (c1 c2 : list glcall) :
  applied (c1 ++ c2) = applied c1 ++ applied c2.
Proof. unfold applied. apply omap_app. Qed.

Lemma last_cons_default (l : list token) : forall x d,
  List.last (x :: l) d = List.last l x.
Proof.
  induction l as [|t l IH]; intros x d; [reflexivity|].
  change (List.last (x :: t :: l) d) with (List.last (t :: l) d).
  rewrite (IH t d), (IH t x). reflexivity.
Qed.

Lemma drawRegion_loop_applied todo batch : forall i state0 state1 index baseIndex,
  let '(s1, ix, bi, calls) :=
    drawRegion_loop todo batch i state0 state1 index baseIndex in
  applied calls = run_heads state0 (tokens_from batch i todo) /\
  s1 = List.last (tokens_from batch i todo) state1.
Proof.
  induction todo as [|todo IH]; intros i state0 state1 index baseIndex;
    cbn [drawRegion_loop tokens_from run_heads]; [split; reflexivity|].
  fold (token_at batch i).
  rewrite last_cons_default.
  destruct (strict_ne (token_at batch i) state0) eqn:Hne.
  - destruct (i >? index).
    + specialize (IH (i + 1) (token_at batch i) (token_at batch i) i
                    (baseIndex + (i - index) * 6)).
      destruct (drawRegion_loop todo batch (i + 1) _ _ i _)
        as [[[s1 ix] bi] calls].
      destruct IH as (Ha & Hs). split; [|exact Hs].
      rewrite applied_app. cbn [app]. rewrite <- Ha. reflexivity.
    + specialize (IH (i + 1) (token_at batch i) (token_at batch i) i
                    baseIndex).
      destruct (drawRegion_loop todo batch (i + 1) _ _ i _)
        as [[[s1 ix] bi] calls].
      destruct IH as (Ha & Hs). split; [|exact Hs].
      cbn [app]. rewrite <- Ha. reflexivity.
  - unfold strict_ne in Hne. apply negb_false_iff in Hne.
    apply bool_decide_eq_true in Hne.
    specialize (IH (i + 1) state0 (token_at batch i) index baseIndex).
    destruct (drawRegion_loop todo batch (i + 1) _ _ index _)
      as [[[s1 ix] bi] calls].
    destruct IH as (Ha & Hs). split; [|exact Hs].
    cbn [app]. rewrite Ha, Hne. reflexivity.
Qed.

(** [drawRegion] hands the callback the state of a quad exactly when it
    differs from the state of the quad before it, the state before the
    first quad being [currentState]; afterwards [currentState] is the
    state of the last quad examined.  The quads examined are those at
    positions [0 .. count - 1] of [order]. *)
Theorem drawRegion_applies_run_heads this batch offset count baseIndex :
  applied (snd (drawRegion this batch offset count baseIndex)) =
    run_heads (currentState this) (tokens_from batch 0 (Z.to_nat count)) /\
  currentState (fst (drawRegion this batch offset count baseIndex)) =
    List.last (tokens_from batch 0 (Z.to_nat count)) (currentState this).
Proof.
  unfold drawRegion.
  pose proof (drawRegion_loop_applied (Z.to_nat count) batch 0
                (currentState this) (currentState this) 0 baseIndex) as Hl.
  destruct (drawRegion_loop _ _ _ _ _ _ _) as [[[s1 ix] bi] calls].
  destruct Hl as (Ha & Hs). cbn [fst snd currentState].
  split; [|exact Hs].
  rewrite applied_app, Ha. cbn. apply app_nil_r.
Qed.
End RegionStates.
(** ** What one buffering pass writes *)

Section Buffering.
Context {num : Type}.
Implicit Types (this : QuadEffect) (batch : QuadBatch num).

(** The vertices generated and the byte ranges uploaded by
    [bufferData] lie inside the vertex and index buffers, whatever count
    is asked for. *)
Theorem bufferData_stays_in_bounds this batch offset count :
  vertexCapacity this mod 4 = 0 ->
  indexCapacity this = 6 * (vertexCapacity this / 4) ->
  0 <= vertexSize this -> 0 <= indexSize this ->
  ring_inv this ->
  0 <= count ->
  Forall (call_in_bounds this) (snd (bufferData this batch offset count)).
Proof.
  intros Hcap Hicap Hvs His Hinv Hcount.
  destruct (Z.eq_dec count 0) as [->|Hne].
  - destruct Hinv as (Hrange & _). unfold bufferData.
    replace (vertexCapacity this <? vertexOffset this + 0 * 4) with false
      by (symmetry; lia).
    simpl. constructor.
  - destruct (bufferData_step this batch offset count Hcap Hinv)
      as (this1 & q & -> & Hq & Hfit & _); [lia|].
    destruct Hinv as (Hrange & Hoff & Hidx). cbn [snd].
    apply Z.mod_divide in Hcap; [|lia]. destruct Hcap as [c Hc].
    apply Z.mod_divide in Hoff; [|lia]. destruct Hoff as [o Ho].
    rewrite Hc, Z.div_mul in Hicap by lia.
    rewrite Ho, Z.div_mul in Hidx by lia.
    repeat constructor; cbn [call_in_bounds]; try lia; try nia.
Qed.
End Buffering.

Lemma bufferData_stays_in_bounds_witness :
  Forall (call_in_bounds (Examples.effect 2))
    (snd (bufferData (Examples.effect 2) Examples.two_states 0 5)).
Proof.
  apply (bufferData_stays_in_bounds (Examples.effect 2)
           Examples.two_states 0 5).
  - reflexivity.
  - reflexivity.
  - by vm_compute.
  - by vm_compute.
  - unfold ring_inv. simpl. repeat split; lia.
  - lia.
Defined.

Lemma aget_aset_same {A} (a : list A) (i j : Z) (v : A) :
  i = j /\ 0 <= i < Z.of_nat (length a) -> aget (aset a i v) j = Some v.
Proof. intros [<- Hi]. apply aget_aset_eq, Hi. Qed.

Lemma generateIndices_loop_spec (todo : nat) : forall buffer off base,
  0 <= off -> off + 6 * Z.of_nat todo <= Z.of_nat (length buffer) ->
  0 <= base -> base + 4 * Z.of_nat todo <= 65536 ->
  length (generateIndices_loop todo buffer off base) = length buffer /\
  (forall k j t, 0 <= k < Z.of_nat todo ->
     aget quad_triangles j = Some t ->
     aget (generateIndices_loop todo buffer off base) (off + 6 * k + j) =
       Some (base + 4 * k + t)) /\
  (forall p, p < off \/ off + 6 * Z.of_nat todo <= p ->
     aget (generateIndices_loop todo buffer off base) p = aget buffer p).
Proof.
  induction todo as [|todo IH]; intros buffer off base Hoff Hlen Hbase Hmax;
    cbn [generateIndices_loop].
  - split; [reflexivity|]. split; [intros; lia|reflexivity].
  - cbn [to_uint16]. rewrite !Z.mod_small by lia.
    set (b6 := aset (aset (aset (aset (aset (aset buffer _ _) _ _) _ _) _ _)
                 _ _) _ _).
    assert (Hl6 : length b6 = length buffer)
      by (subst b6; rewrite !length_aset; reflexivity).
    destruct (IH b6 (off + 6) (base + 4)) as (Hl & Hin & Hout);
      try lia.
    split; [congruence|]. split.
    + intros k j t Hk Hj.
      assert (Hjr : 0 <= j < 6).
      { apply aget_Some_range in Hj. simpl in Hj. lia. }
      destruct (Z.eq_dec k 0) as [->|Hk0].
      * rewrite Hout by lia. subst b6.
        assert (j = 0 \/ j = 1 \/ j = 2 \/ j = 3 \/ j = 4 \/ j = 5)
          as [-> | [-> | [-> | [-> | [-> | ->]]]]] by lia;
          injection Hj as <-;
          repeat (rewrite aget_aset_ne by lia);
          rewrite aget_aset_same by (rewrite ?length_aset; lia);
          f_equal; lia.
      * replace (off + 6 * k + j) with (off + 6 + 6 * (k - 1) + j) by lia.
        rewrite (Hin (k - 1) j t) by (lia || assumption). f_equal. lia.
    + intros p Hp. rewrite Hout by lia. subst b6.
      repeat (rewrite aget_aset_ne by lia). reflexivity.
Qed.

(** [generateIndices] writes, for each of the [quadCount] quads, the two
    triangles [1 0 2] and [2 0 3] over the quad's own four vertices,
    six indices per quad from [bufferOffset] on, and nothing else.  The
    vertex indices must fit 16 bits. *)
Theorem generateIndices_writes_quad_triangles (buffer : list Z)
    (bufferOffset baseVertex quadCount : Z) :
  0 <= quadCount ->
  0 <= bufferOffset ->
  bufferOffset + 6 * quadCount <= Z.of_nat (length buffer) ->
  0 <= baseVertex -> baseVertex + 4 * quadCount <= 65536 ->
  let buffer' := generateIndices buffer bufferOffset baseVertex quadCount in
  length buffer' = length buffer /\
  (forall k j t, 0 <= k < quadCount ->
     aget quad_triangles j = Some t ->
     aget buffer' (bufferOffset + 6 * k + j) =
       Some (baseVertex + 4 * k + t)) /\
  (forall p, p < bufferOffset \/ bufferOffset + 6 * quadCount <= p ->
     aget buffer' p = aget buffer p).
Proof.
  intros Hq Hoff Hlen Hbase Hmax. unfold generateIndices.
  destruct (generateIndices_loop_spec (Z.to_nat quadCount) buffer
              bufferOffset baseVertex) as (Hl & Hin & Hout); try lia.
  split; [exact Hl|]. split.
  - intros k j t Hk Hj. apply Hin; [lia|exact Hj].
  - intros p Hp. apply Hout. lia.
Qed.

Lemma generateIndices_writes_quad_triangles_witness :
  let buffer' := generateIndices (replicate 12 0) 6 4 1 in
  length buffer' = length (replicate 12 0) /\
  (forall k j t, 0 <= k < 1 ->
     aget quad_triangles j = Some t ->
     aget buffer' (6 + 6 * k + j) = Some (4 + 4 * k + t)) /\
  (forall p, p < 6 \/ 6 + 6 * 1 <= p ->
     aget buffer' p = aget (replicate 12 0) p).
Proof.
  apply (generateIndices_writes_quad_triangles (replicate 12 0) 6 4 1).
  - lia.
  - lia.
  - simpl. lia.
  - lia.
  - lia.
Defined.
(** ** Adding quads *)

Section Adding.
Context {num : Type} `{Arith num}.
Implicit Types (b : QuadBatch num).

Lemma resize_typed_sized b (capacity : Z) :
  0 <= capacity -> typed_sized (resize b capacity).
Proof.
  intros Hc.
  destruct (resize_spec b capacity)
    as (Hcap & _ & Ho & Hs & Ht & Hp & Hf & Hc' & Ha & Hd & _).
  unfold typed_sized.
  rewrite Hcap, Ho, Hs, Ht, Hp, Hf, Hc', Ha, Hd. lia.
Qed.

(** [add] with room left stores every attribute of the quad at the
    insertion index it returns, which is the previous [quadCount], and
    leaves the entries of all other quads as they were. *)
Theorem add_stores_the_quad b st x y d ox oy sx sy o color
    srx sry srw srh iw ih :
  typed_sized b ->
  0 <= quadCount b < quadCapacity b ->
  quadCount b < 65536 ->
  quadCount b < Z.of_nat (length (state b)) ->
  let n := quadCount b in
  let b' := fst (add b st x y d ox oy sx sy o color srx sry srw srh iw ih) in
  snd (add b st x y d ox oy sx sy o color srx sry srw srh iw ih) = n /\
  quadCount b' = n + 1 /\
  typed_sized b' /\
  aget (order b') n = Some n /\
  state_at b' (Some n) = st /\
  aget (depth b') n = Some (f32 d) /\
  aget (orientation b') n = Some (f32 o) /\
  aget (tintColor b') n = Some (color mod 4294967296) /\
  (aget (sourceRects b') (4 * n) = Some (f32 srx) /\
   aget (sourceRects b') (4 * n + 1) = Some (f32 sry) /\
   aget (sourceRects b') (4 * n + 2) = Some (f32 srw) /\
   aget (sourceRects b') (4 * n + 3) = Some (f32 srh)) /\
  (aget (targetRects b') (4 * n) = Some (f32 x) /\
   aget (targetRects b') (4 * n + 1) = Some (f32 y) /\
   aget (targetRects b') (4 * n + 2) = Some (f32 (nmul srw sx)) /\
   aget (targetRects b') (4 * n + 3) = Some (f32 (nmul srh sy))) /\
  (aget (originPoint b') (2 * n) = Some (f32 ox) /\
   aget (originPoint b') (2 * n + 1) = Some (f32 oy)) /\
  (aget (scaleFactor b') (2 * n) = Some (f32 (ndiv n_one iw)) /\
   aget (scaleFactor b') (2 * n + 1) = Some (f32 (ndiv n_one ih))) /\
  (forall j, j <> n ->
     aget (order b') j = aget (order b) j /\
     state_at b' (Some j) = state_at b (Some j) /\
     aget (depth b') j = aget (depth b) j /\
     aget (orientation b') j = aget (orientation b) j /\
     aget (tintColor b') j = aget (tintColor b) j) /\
  (forall p, p < 4 * n \/ 4 * n + 4 <= p ->
     aget (sourceRects b') p = aget (sourceRects b) p /\
     aget (targetRects b') p = aget (targetRects b) p) /\
  (forall p, p < 2 * n \/ 2 * n + 2 <= p ->
     aget (originPoint b') p = aget (originPoint b) p /\
     aget (scaleFactor b') p = aget (scaleFactor b) p).
Proof.
  intros (Hc & Ho & Hs & Ht & Hp & Hf & Hcl & Ha & Hd) Hn H16 Hst n b'.
  subst n b'. unfold add. cbn [fst snd quadCount order depth orientation
    tintColor sourceRects targetRects originPoint scaleFactor state
    quadCapacity].
  set (n := quadCount b) in *.
  assert (Hjs : js_array_set (state b) n st = aset (state b) n st).
  { unfold js_array_set, aset. destruct (n <? 0); [reflexivity|].
    replace (Z.to_nat n <? length (state b))%nat with true; [reflexivity|].
    symmetry. apply Nat.ltb_lt. lia. }
  rewrite Hjs.
  split; [reflexivity|]. split; [reflexivity|].
  split.
  { unfold typed_sized. cbn [quadCapacity order depth orientation
      tintColor sourceRects targetRects originPoint scaleFactor].
    rewrite !length_aset. lia. }
  split.
  { unfold to_uint16. rewrite Z.mod_small by lia. apply aget_aset_eq. lia. }
  split.
  { unfold state_at. cbn [state]. rewrite aget_aset_eq by lia. reflexivity. }
  split; [apply aget_aset_eq; lia|].
  split; [apply aget_aset_eq; lia|].
  split; [apply aget_aset_eq; lia|].
  split.
  { repeat split;
      repeat (rewrite aget_aset_ne by lia);
      apply aget_aset_same; rewrite ?length_aset; lia. }
  split.
  { repeat split;
      repeat (rewrite aget_aset_ne by lia);
      apply aget_aset_same; rewrite ?length_aset; lia. }
  split.
  { repeat split;
      repeat (rewrite aget_aset_ne by lia);
      apply aget_aset_same; rewrite ?length_aset; lia. }
  split.
  { repeat split;
      repeat (rewrite aget_aset_ne by lia);
      apply aget_aset_same; rewrite ?length_aset; lia. }
  split.
  { intros j Hj. unfold state_at. cbn [state].
    repeat split; rewrite aget_aset_ne by lia; reflexivity. }
  split.
  { intros p Hp'. split; repeat (rewrite aget_aset_ne by lia); reflexivity. }
  intros p Hp'. split; repeat (rewrite aget_aset_ne by lia); reflexivity.
Qed.

(** [add] on a batch that is full does not fail: the typed arrays
    ignore the stores, so no attribute of the quad is kept and [order]
    has no entry for it, but [quadCount] grows past [quadCapacity] all
    the same and the state array grows with it. *)
Theorem add_beyond_capacity_keeps_no_quad b st x y d ox oy sx sy o color
    srx sry srw srh iw ih :
  typed_sized b ->
  quadCapacity b <= quadCount b ->
  Z.of_nat (length (state b)) <= quadCount b ->
  let b' := fst (add b st x y d ox oy sx sy o color srx sry srw srh iw ih) in
  quadCount b' = quadCount b + 1 /\
  quadCapacity b' = quadCapacity b /\
  order b' = order b /\
  sourceRects b' = sourceRects b /\
  targetRects b' = targetRects b /\
  originPoint b' = originPoint b /\
  scaleFactor b' = scaleFactor b /\
  tintColor b' = tintColor b /\
  orientation b' = orientation b /\
  depth b' = depth b /\
  aget (order b') (quadCount b) = None /\
  Z.of_nat (length (state b')) = quadCount b + 1 /\
  state_at b' (Some (quadCount b)) = st.
Proof.
  intros (Hc & Ho & Hs & Ht & Hp & Hf & Hcl & Ha & Hd) Hfull Hst b'.
  subst b'. unfold add. cbn [fst quadCount order depth orientation
    tintColor sourceRects targetRects originPoint scaleFactor state
    quadCapacity].
  set (n := quadCount b) in *.
  assert (Hout : forall (A : Type) (a : list A) (i : Z) (v : A),
             Z.of_nat (length a) <= i -> aset a i v = a).
  { intros A a i v Hi. unfold aset. destruct (i <? 0); [reflexivity|].
    apply list_insert_ge. lia. }
  rewrite !Hout by (rewrite ?length_aset; lia).
  repeat split; try reflexivity.
  - unfold aget. destruct (n <? 0); [reflexivity|].
    apply lookup_ge_None. lia.
  - unfold js_array_set. replace (n <? 0) with false by (symmetry; lia).
    replace (Z.to_nat n <? length (state b))%nat with false
      by (symmetry; apply Nat.ltb_ge; lia).
    rewrite !length_app, length_replicate. cbn [length]. lia.
  - unfold state_at. cbn [state]. unfold js_array_set, aget.
    replace (n <? 0) with false by (symmetry; lia).
    replace (Z.to_nat n <? length (state b))%nat with false
      by (symmetry; apply Nat.ltb_ge; lia).
    rewrite lookup_app_r by lia.
    rewrite lookup_app_r by (rewrite length_replicate; lia).
    rewrite length_replicate.
    replace (Z.to_nat n - length (state b) -
             (Z.to_nat n - length (state b)))%nat with 0%nat by lia.
    reflexivity.
Qed.
End Adding.

Lemma add_stores_the_quad_witness :
  let b := Examples.quad (newQuadBatch 3) (Obj 1) 3%Q in
  let n := quadCount b in
  let b' := fst (add b (Obj 2) 1%Q 2%Q 5%Q 0%Q 0%Q 1%Q 1%Q 0%Q 255
                   0%Q 0%Q 4%Q 4%Q 8%Q 8%Q) in
  snd (add b (Obj 2) 1%Q 2%Q 5%Q 0%Q 0%Q 1%Q 1%Q 0%Q 255
         0%Q 0%Q 4%Q 4%Q 8%Q 8%Q) = n /\
  quadCount b' = n + 1 /\
  typed_sized b' /\
  aget (order b') n = Some n /\
  state_at b' (Some n) = Obj 2 /\
  aget (depth b') n = Some (f32 5%Q) /\
  aget (orientation b') n = Some (f32 0%Q) /\
  aget (tintColor b') n = Some (255 mod 4294967296) /\
  (aget (sourceRects b') (4 * n) = Some (f32 0%Q) /\
   aget (sourceRects b') (4 * n + 1) = Some (f32 0%Q) /\
   aget (sourceRects b') (4 * n + 2) = Some (f32 4%Q) /\
   aget (sourceRects b') (4 * n + 3) = Some (f32 4%Q)) /\
  (aget (targetRects b') (4 * n) = Some (f32 1%Q) /\
   aget (targetRects b') (4 * n + 1) = Some (f32 2%Q) /\
   aget (targetRects b') (4 * n + 2) = Some (f32 (nmul 4%Q 1%Q)) /\
   aget (targetRects b') (4 * n + 3) = Some (f32 (nmul 4%Q 1%Q))) /\
  (aget (originPoint b') (2 * n) = Some (f32 0%Q) /\
   aget (originPoint b') (2 * n + 1) = Some (f32 0%Q)) /\
  (aget (scaleFactor b') (2 * n) = Some (f32 (ndiv n_one 8%Q)) /\
   aget (scaleFactor b') (2 * n + 1) = Some (f32 (ndiv n_one 8%Q))) /\
  (forall j, j <> n ->
     aget (order b') j = aget (order b) j /\
     state_at b' (Some j) = state_at b (Some j) /\
     aget (depth b') j = aget (depth b) j /\
     aget (orientation b') j = aget (orientation b) j /\
     aget (tintColor b') j = aget (tintColor b) j) /\
  (forall p, p < 4 * n \/ 4 * n + 4 <= p ->
     aget (sourceRects b') p = aget (sourceRects b) p /\
     aget (targetRects b') p = aget (targetRects b) p) /\
  (forall p, p < 2 * n \/ 2 * n + 2 <= p ->
     aget (originPoint b') p = aget (originPoint b) p /\
     aget (scaleFactor b') p = aget (scaleFactor b) p).
Proof.
  apply (add_stores_the_quad (Examples.quad (newQuadBatch 3) (Obj 1) 3%Q)
           (Obj 2) 1%Q 2%Q 5%Q 0%Q 0%Q 1%Q 1%Q 0%Q 255
           0%Q 0%Q 4%Q 4%Q 8%Q 8%Q).
  - unfold typed_sized. simpl. lia.
  - simpl. lia.
  - simpl. lia.
  - simpl. lia.
Defined.

Lemma add_beyond_capacity_keeps_no_quad_witness :
  let b := Examples.two_states in
  let b' := fst (add b (Obj 3) 1%Q 2%Q 5%Q 0%Q 0%Q 1%Q 1%Q 0%Q 255
                   0%Q 0%Q 4%Q 4%Q 8%Q 8%Q) in
  quadCount b' = quadCount b + 1 /\
  quadCapacity b' = quadCapacity b /\
  order b' = order b /\
  sourceRects b' = sourceRects b /\
  targetRects b' = targetRects b /\
  originPoint b' = originPoint b /\
  scaleFactor b' = scaleFactor b /\
  tintColor b' = tintColor b /\
  orientation b' = orientation b /\
  depth b' = depth b /\
  aget (order b') (quadCount b) = None /\
  Z.of_nat (length (state b')) = quadCount b + 1 /\
  state_at b' (Some (quadCount b)) = Obj 3.
Proof.
  apply (add_beyond_capacity_keeps_no_quad Examples.two_states
           (Obj 3) 1%Q 2%Q 5%Q 0%Q 0%Q 1%Q 1%Q 0%Q 255
           0%Q 0%Q 4%Q 4%Q 8%Q 8%Q).
  - unfold typed_sized. simpl. lia.
  - simpl. lia.
  - simpl. lia.
Defined.
(** ** The order a sort leaves *)

Section SortedByDepth.
Context {num : Type} `{Arith num}.
Implicit Types (b : QuadBatch num).

Lemma sorted_by_policy b (compare : comparator num) (fuel : nat) :
  compare = backToFront \/ compare = frontToBack ->
  batch_ok b ->
  depth_order_ok b ->
  (Z.to_nat (2 * quadCount b) + 4 <= fuel)%nat ->
  exists b',
    sort fuel b compare = Done b' /\
    forall p q, 0 <= p < q -> q < quadCount b ->
      exists x y dx dy,
        aget (order b') p = Some x /\ aget (order b') q = Some y /\
        depth_at b (Some x) = Some dx /\ depth_at b (Some y) = Some dy /\
        dx ∈ depth b /\ dy ∈ depth b /\
        sorts_before compare b (Some y) (Some x) = false.
Proof.
  intros Hc (Hn & Hok) Hdepth Hfuel.
  assert (Hframe : forall (b1 : QuadBatch num) (a : list Z) x y,
             compare (set_order b1 a) x y = compare b1 x y)
    by (destruct Hc as [-> | ->]; reflexivity).
  destruct (sort_sorted compare b (valid_entry b) Hframe
              (fun v Hv => proj1 Hv)
              (fun x y => policy_asym b Hdepth compare x y Hc)
              (fun x y z => policy_negtrans b Hdepth compare x y z Hc)
              fuel (order b) Hn Hok Hfuel)
    as (a' & Hrun & Hsorted & Hwit & Hok').
  rewrite set_order_order in Hrun.
  exists (set_order b a'). split; [exact Hrun|].
  cbn [order set_order]. intros p q Hpq Hq.
  destruct (Hok' p ltac:(lia)) as (x & Hx & Vx).
  destruct (Hok' q ltac:(lia)) as (y & Hy & Vy).
  destruct (depth_at_valid b x Vx) as (dx & Hdx & Dx).
  destruct (depth_at_valid b y Vy) as (dy & Hdy & Dy).
  exists x, y, dx, dy. repeat split; try assumption.
  specialize (Hsorted p q Hpq Hq ltac:(lia)).
  rewrite Hx, Hy in Hsorted. exact Hsorted.
Qed.

(** A back-to-front sort leaves the quads in order of non-increasing
    depth, a front-to-back sort in order of non-decreasing depth: no
    quad is followed by one whose depth compares the wrong way. *)
Theorem sort_orders_by_depth b (fuel : nat) :
  batch_ok b ->
  depth_order_ok b ->
  (Z.to_nat (2 * quadCount b) + 4 <= fuel)%nat ->
  (exists b',
     sort fuel b backToFront = Done b' /\
     forall p q x y, 0 <= p < q -> q < quadCount b ->
       aget (order b') p = Some x -> aget (order b') q = Some y ->
       js_lt (depth_at b (Some x)) (depth_at b (Some y)) = false) /\
  (exists b',
     sort fuel b frontToBack = Done b' /\
     forall p q x y, 0 <= p < q -> q < quadCount b ->
       aget (order b') p = Some x -> aget (order b') q = Some y ->
       js_lt (depth_at b (Some y)) (depth_at b (Some x)) = false).
Proof.
  intros Hok Hdepth Hfuel. split.
  - destruct (sorted_by_policy b backToFront fuel (or_introl eq_refl)
                Hok Hdepth Hfuel) as (b' & Hrun & Hs).
    exists b'. split; [exact Hrun|]. intros p q x y Hpq Hq Hx Hy.
    destruct (Hs p q Hpq Hq)
      as (x' & y' & dx & dy & Hx' & Hy' & Hdx & Hdy & Dx & Dy & Hb).
    assert (x' = x) as -> by congruence.
    assert (y' = y) as -> by congruence.
    rewrite (backToFront_before b Hdepth y x dy dx) in Hb by assumption.
    rewrite Hdx, Hdy. cbn [js_lt]. unfold lex_before in Hb.
    destruct (nlt dx dy); [discriminate|reflexivity].
  - destruct (sorted_by_policy b frontToBack fuel (or_intror eq_refl)
                Hok Hdepth Hfuel) as (b' & Hrun & Hs).
    exists b'. split; [exact Hrun|]. intros p q x y Hpq Hq Hx Hy.
    destruct (Hs p q Hpq Hq)
      as (x' & y' & dx & dy & Hx' & Hy' & Hdx & Hdy & Dx & Dy & Hb).
    assert (x' = x) as -> by congruence.
    assert (y' = y) as -> by congruence.
    rewrite (frontToBack_before b y x dy dx) in Hb by assumption.
    rewrite Hdx, Hdy. cbn [js_lt]. unfold lex_before in Hb.
    destruct (nlt dy dx); [discriminate|reflexivity].
Qed.

(** Both policies answer with opposite signs when their two quads are
    exchanged, and with 0 exactly when the two are the same quad. *)
Theorem policy_antisymmetric_zero_on_same_quad b
    (compare : comparator num) (x y : Z) :
  compare = backToFront \/ compare = frontToBack ->
  depth_order_ok b ->
  valid_entry b x -> valid_entry b y ->
  compare b (Some y) (Some x) = - compare b (Some x) (Some y) /\
  (compare b (Some x) (Some y) = 0 <-> x = y).
Proof.
  intros Hc Hdepth Vx Vy.
  destruct (depth_at_valid b x Vx) as (dx & Hx & Dx).
  destruct (depth_at_valid b y Vy) as (dy & Hy & Dy).
  destruct Hdepth as [Hasym _].
  pose proof (Hasym dx dy Dx Dy) as Hxy.
  pose proof (Hasym dy dx Dy Dx) as Hyx.
  assert (Hsame : x = y -> nlt dx dy = false /\ nlt dy dx = false).
  { intros ->. assert (dx = dy) as -> by congruence.
    destruct (nlt dy dy); [specialize (Hxy eq_refl); discriminate|].
    split; reflexivity. }
  destruct Hc as [-> | ->]; unfold backToFront, frontToBack;
    rewrite Hx, Hy; cbn [js_lt insertion_cmp];
    destruct (nlt dx dy) eqn:E1, (nlt dy dx) eqn:E2;
    try (specialize (Hxy eq_refl); discriminate);
    (split; [|split; [intros Hz|intros Heq]]);
    try (destruct (Hsame Heq); discriminate);
    try discriminate;
    try (destruct (Z.gtb_spec x y), (Z.ltb_spec x y),
           (Z.gtb_spec y x), (Z.ltb_spec y x); lia).
Qed.
End SortedByDepth.

Lemma sort_orders_by_depth_witness :
  (exists b',
     sort 10 TieExamples.depths_2_1_2 backToFront = Done b' /\
     forall p q x y, 0 <= p < q -> q < quadCount TieExamples.depths_2_1_2 ->
       aget (order b') p = Some x -> aget (order b') q = Some y ->
       js_lt (depth_at TieExamples.depths_2_1_2 (Some x))
             (depth_at TieExamples.depths_2_1_2 (Some y)) = false) /\
  (exists b',
     sort 10 TieExamples.depths_2_1_2 frontToBack = Done b' /\
     forall p q x y, 0 <= p < q -> q < quadCount TieExamples.depths_2_1_2 ->
       aget (order b') p = Some x -> aget (order b') q = Some y ->
       js_lt (depth_at TieExamples.depths_2_1_2 (Some y))
             (depth_at TieExamples.depths_2_1_2 (Some x)) = false).
Proof.
  apply (sort_orders_by_depth TieExamples.depths_2_1_2 10).
  - exact depths_2_1_2_ok.
  - apply QNum_depth_order_ok.
  - vm_compute. lia.
Defined.

Lemma policy_antisymmetric_zero_on_same_quad_witness :
  backToFront TieExamples.depths_2_1_2 (Some 2) (Some 0) =
    - backToFront TieExamples.depths_2_1_2 (Some 0) (Some 2) /\
  (backToFront TieExamples.depths_2_1_2 (Some 0) (Some 2) = 0 <-> 0 = 2).
Proof.
  apply (policy_antisymmetric_zero_on_same_quad TieExamples.depths_2_1_2
           backToFront 0 2).
  - left. reflexivity.
  - apply QNum_depth_order_ok.
  - by vm_compute.
  - by vm_compute.
Defined.
(** ** A comparator that orders a quad before itself *)

Section SelfComparison.
Context {num : Type} `{Arith num}.
Implicit Types (b : QuadBatch num).



End SelfComparison.

(** ** The vertices [ptcg] writes *)

Section VertexLayout.
Context {num : Type} `{Arith num} `{VertexMath num}.
Implicit Types (batch : QuadBatch num) (view : BufferView).

Lemma ptcg_corners_targets corners view v aip aic aia
    sx sy sw sh dx dy dw dh xc yc su sv st ct cR cG cB cA d g0 g1 :
  aip = v * asp view + aop view ->
  aic = v * asc view + aoc view ->
  aia = v * asa view + aoa view ->
  map target (ptcg_corners corners view aip aic aia sx sy sw sh
                dx dy dw dh xc yc su sv st ct cR cG cB cA d g0 g1) =
  flat_map (vertex_targets view) (vertices_from v (length corners)).
Proof.
  revert v aip aic aia.
  induction corners as [|[xo yo] corners IH]; intros v aip aic aia Hp Hc Ha;
    [reflexivity|].
  cbn [ptcg_corners length vertices_from flat_map].
  rewrite map_app. rewrite (IH (v + 1)) by lia.
  subst aip aic aia. reflexivity.
Qed.

Lemma vertices_from_app v (n m : nat) :
  vertices_from v (n + m) =
  vertices_from v n ++ vertices_from (v + Z.of_nat n) m.
Proof.
  revert v. induction n as [|n IH]; intros v.
  - cbn. f_equal. lia.
  - cbn [Nat.add vertices_from app]. rewrite IH. do 3 f_equal. lia.
Qed.

Lemma ptcg_loop_targets todo view batch v i aip aic aia :
  aip = v * asp view + aop view ->
  aic = v * asc view + aoc view ->
  aia = v * asa view + aoa view ->
  map target (ptcg_loop todo view batch i aip aic aia) =
  flat_map (vertex_targets view) (vertices_from v (4 * todo)).
Proof.
  revert v i aip aic aia.
  induction todo as [|todo IH]; intros v i aip aic aia Hp Hc Ha;
    [reflexivity|].
  cbn [ptcg_loop]. rewrite map_app.
  replace (4 * S todo)%nat with (4 + 4 * todo)%nat by lia.
  rewrite vertices_from_app, flat_map_app.
  rewrite (IH (v + 4)) by lia.
  unfold ptcg_quad.
  rewrite (ptcg_corners_targets _ view v) by assumption.
  reflexivity.
Qed.

(** [ptcg] stores the vertices [bufferOffset], [bufferOffset + 1],
    ... one after the other, four for each quad, and for each vertex
    eleven elements: four position and texture elements, four colour
    elements and three generic ones, each at the vertex's stride from
    the base offset of its view. *)
Theorem ptcg_fills_consecutive_vertices view bufferOffset batch
    batchOffset quadCount :
  map target (ptcg view bufferOffset batch batchOffset quadCount) =
  flat_map (vertex_targets view)
    (vertices_from bufferOffset (4 * Z.to_nat quadCount)).
Proof.
  unfold ptcg. apply ptcg_loop_targets; reflexivity.
Qed.

Lemma ptcg_corners_colours corners view aip aic aia
    sx sy sw sh dx dy dw dh xc yc su sv st ct cR cG cB cA d g0 g1 :
  clr_values (ptcg_corners corners view aip aic aia sx sy sw sh
                dx dy dw dh xc yc su sv st ct cR cG cB cA d g0 g1) =
  flat_map (fun _ => [cR; cG; cB; cA]) corners.
Proof.
  revert aip aic aia.
  induction corners as [|[xo yo] corners IH]; intros aip aic aia;
    [reflexivity|].
  cbn [ptcg_corners flat_map]. unfold clr_values in *.
  rewrite omap_app, IH. reflexivity.
Qed.

Lemma colour_bytes (c : Z) :
  0 <= c < 4294967296 ->
  Z.land (Z.shiftr (to_int32 c) 24) 255 = c / 16777216 /\
  Z.land (Z.shiftr (to_int32 c) 16) 255 = (c / 65536) mod 256 /\
  Z.land (Z.shiftr (to_int32 c) 8) 255 = (c / 256) mod 256 /\
  Z.land (Z.shiftr (to_int32 c) 0) 255 = c mod 256.
Proof.
  intros Hc. change 255 with (Z.ones 8).
  rewrite !Z.land_ones, !Z.shiftr_div_pow2 by lia.
  change (2 ^ 8) with 256. change (2 ^ 24) with 16777216.
  change (2 ^ 16) with 65536. change (2 ^ 0) with 1.
  unfold to_int32. rewrite (Z.mod_small c) by lia.
  destruct (c <? 2147483648); repeat split; dlia.
Qed.

(** The colour given to [add] reaches the colour view unchanged.
    For a quad added with room left, [ptcg] stores into each of its
    four vertices the four bytes of the colour (taken modulo 2^32, as
    the [Uint32Array] keeps it), the most significant byte first. *)
Theorem added_colour_reaches_every_vertex (b : QuadBatch num) (st : token)
    (x y dpth originX originY scaleX scaleY orient : num) (color : Z)
    (sourceX sourceY sourceWidth sourceHeight imageWidth imageHeight : num)
    view bufferOffset :
  typed_sized b ->
  0 <= quadCount b < quadCapacity b ->
  quadCount b < 65536 ->
  exists r g bl a,
    (0 <= r < 256 /\ 0 <= g < 256 /\ 0 <= bl < 256 /\ 0 <= a < 256) /\
    rgba r g bl a = color mod 4294967296 /\
    clr_values
      (ptcg view bufferOffset
         (fst (add b st x y dpth originX originY scaleX scaleY orient color
                 sourceX sourceY sourceWidth sourceHeight
                 imageWidth imageHeight))
         (quadCount b) 1) =
    [r; g; bl; a; r; g; bl; a; r; g; bl; a; r; g; bl; a].
Proof.
  intros (Hcap & Ho & _ & _ & _ & _ & Ht & _) Hn H16.
  set (c := color mod 4294967296).
  assert (Hc : 0 <= c < 4294967296) by (apply Z.mod_pos_bound; lia).
  destruct (colour_bytes c Hc) as (HR & HG & HB & HA).
  exists (c / 16777216), ((c / 65536) mod 256), ((c / 256) mod 256),
         (c mod 256).
  split; [repeat split; dlia|]. split; [unfold rgba; dlia|].
  unfold ptcg. change (Z.to_nat 1) with 1%nat. cbn [ptcg_loop].
  rewrite app_nil_r. unfold ptcg_quad.
  rewrite ptcg_corners_colours. cbn [fst add order tintColor].
  rewrite (aget_aset_same (order b) (quadCount b) (quadCount b)) by lia.
  cbn [to_uint16]. rewrite (Z.mod_small (quadCount b) 65536) by lia.
  cbn [default].
  rewrite (aget_aset_same (tintColor b) (quadCount b) (quadCount b)) by lia.
  cbn [default]. fold c. unfold to_uint32. fold c.
  unfold Datatypes.id. rewrite HR, HG, HB, HA. reflexivity.
Qed.
End VertexLayout.

Lemma added_colour_reaches_every_vertex_witness :
  exists r g bl a,
    (0 <= r < 256 /\ 0 <= g < 256 /\ 0 <= bl < 256 /\ 0 <= a < 256) /\
    rgba r g bl a = 4278255615 mod 4294967296 /\
    clr_values
      (ptcg RExamples.view 0
         (fst (add (newQuadBatch 1) (Obj 1) 0%R 0%R 1%R 0%R 0%R 1%R 1%R 0%R
                 4278255615 0%R 0%R 1%R 1%R 1%R 1%R))
         (quadCount (newQuadBatch (num := R) 1)) 1) =
    [r; g; bl; a; r; g; bl; a; r; g; bl; a; r; g; bl; a].
Proof.
  apply (added_colour_reaches_every_vertex (newQuadBatch 1) (Obj 1)
           0%R 0%R 1%R 0%R 0%R 1%R 1%R 0%R 4278255615
           0%R 0%R 1%R 1%R 1%R 1%R RExamples.view 0).
  - repeat split; vm_compute; try reflexivity; discriminate.
  - split; vm_compute; [discriminate|reflexivity].
  - vm_compute. reflexivity.
Defined.
(** ** The indices a pass leaves in [indexData] *)

Section PassIndices.
Context {num : Type}.
Implicit Types (this : QuadEffect) (batch : QuadBatch num).

Lemma bufferData_indexData this batch offset count :
  indexData (fst (fst (bufferData this batch offset count))) =
  generateIndices (indexData this) (indexOffset this) (vertexOffset this)
    (snd (fst (bufferData this batch offset count))).
Proof.
  unfold bufferData.
  destruct (vertexCapacity this <? vertexOffset this + count * 4);
    match goal with
    | |- context [?q =? 0] => destruct (q =? 0) eqn:Hq
    end; try reflexivity;
    match goal with
    | |- context [?a =? ?b] => destruct (a =? b)
    end; reflexivity.
Qed.

(** The quads [bufferData] buffers are indexed by the vertices it had
    generated for them: for the [k]-th quad of the pass the six
    entries of [indexData] from [indexOffset + 6 k] name the two
    triangles over the four vertices from [vertexOffset + 4 k], which
    are the vertices the pass's [generateVertices] call fills for that
    quad; the rest of [indexData] is as it was. *)
Theorem bufferData_indexes_the_generated_vertices this batch offset count :
  vertexCapacity this mod 4 = 0 ->
  vertexCapacity this <= 65536 ->
  indexCapacity this = 6 * (vertexCapacity this / 4) ->
  Z.of_nat (length (indexData this)) = indexCapacity this ->
  ring_inv this ->
  0 <= count ->
  let this' := fst (fst (bufferData this batch offset count)) in
  let q := snd (fst (bufferData this batch offset count)) in
  length (indexData this') = length (indexData this) /\
  (forall k j t, 0 <= k < q ->
     aget quad_triangles j = Some t ->
     aget (indexData this') (indexOffset this + 6 * k + j) =
       Some (vertexOffset this + 4 * k + t)) /\
  (forall p, p < indexOffset this \/ indexOffset this + 6 * q <= p ->
     aget (indexData this') p = aget (indexData this) p).
Proof.
  intros Hcap H16 Hicap Hlen Hinv Hcount this' q. subst this' q.
  rewrite bufferData_indexData.
  destruct (Z.eq_dec count 0) as [->|Hne].
  - assert (Hz : snd (fst (bufferData this batch offset 0)) = 0).
    { destruct Hinv as (Hrange & _). unfold bufferData.
      replace (vertexCapacity this <? vertexOffset this + 0 * 4) with false
        by (symmetry; lia).
      reflexivity. }
    rewrite Hz. unfold generateIndices. change (Z.to_nat 0) with 0%nat.
    cbn [generateIndices_loop].
    split; [reflexivity|]. split; [intros; lia|reflexivity].
  - destruct (bufferData_step this batch offset count Hcap Hinv)
      as (this1 & q & -> & Hq & Hfit & _); [lia|].
    cbn [fst snd]. destruct Hinv as (Hrange & Hoff & Hidx).
    apply Z.mod_divide in Hcap; [|lia]. destruct Hcap as [c Hc].
    apply Z.mod_divide in Hoff; [|lia]. destruct Hoff as [o Ho].
    rewrite Hc, Z.div_mul in Hicap by lia.
    rewrite Ho, Z.div_mul in Hidx by lia.
    unfold generateIndices.
    destruct (generateIndices_loop_spec (Z.to_nat q) (indexData this)
                (indexOffset this) (vertexOffset this))
      as (Hl & Hin & Hout); try lia.
    rewrite Z2Nat.id in Hin, Hout by lia.
    split; [exact Hl|]. split; [exact Hin|exact Hout].
Qed.
End PassIndices.

Lemma bufferData_indexes_the_generated_vertices_witness :
  let this := Examples.effect 2 in
  let this' := fst (fst (bufferData this Examples.two_states 0 5)) in
  let q := snd (fst (bufferData this Examples.two_states 0 5)) in
  length (indexData this') = length (indexData this) /\
  (forall k j t, 0 <= k < q ->
     aget quad_triangles j = Some t ->
     aget (indexData this') (indexOffset this + 6 * k + j) =
       Some (vertexOffset this + 4 * k + t)) /\
  (forall p, p < indexOffset this \/ indexOffset this + 6 * q <= p ->
     aget (indexData this') p = aget (indexData this) p).
Proof.
  apply (bufferData_indexes_the_generated_vertices (Examples.effect 2)
           Examples.two_states 0 5).
  - reflexivity.
  - by vm_compute.
  - reflexivity.
  - reflexivity.
  - unfold ring_inv. simpl. repeat split; lia.
  - lia.
Defined.
(** ** The binding cache of [GLContext] *)

Module GLFacts.
Import GL.

Lemma gl_replay_app g (c1 c2 : list rawcall) :
  gl_replay g (c1 ++ c2) = gl_replay (gl_replay g c1) c2.
Proof. apply fold_left_app. Qed.

Lemma targets_differ : ARRAY_BUFFER <> ELEMENT_ARRAY_BUFFER.
Proof. discriminate. Qed.

Lemma is_active_true a p : is_active a p = true <-> a = Some p.
Proof.
  destruct a as [q|]; cbn; [|split; discriminate].
  rewrite Nat.eqb_eq. split; congruence.
Qed.

Lemma is_active_false a p : is_active a p = false <-> a <> Some p.
Proof.
  rewrite <- is_active_true. destruct (is_active a p); split; congruence.
Qed.

(** An active proxy is active for its own bind target only. *)
Lemma coherent_active_target this g p px :
  coherent this g ->
  proxies this !! p = Some px ->
  (activeArrayBuffer this = Some p -> bindTarget px = ARRAY_BUFFER) /\
  (activeElementBuffer this = Some p ->
   bindTarget px = ELEMENT_ARRAY_BUFFER).
Proof.
  intros [Ha He] Hp. split; intros Hact.
  - destruct (Ha p Hact) as (px' & Hp' & Ht & _). congruence.
  - destruct (He p Hact) as (px' & Hp' & Ht & _). congruence.
Qed.

Lemma unbindBuffer_coherent this g target :
  coherent this g ->
  coherent (fst (unbindBuffer this target))
    (gl_replay g (snd (unbindBuffer this target))) /\
  proxies (fst (unbindBuffer this target)) = proxies this /\
  created (fst (unbindBuffer this target)) = created this /\
  identity (fst (unbindBuffer this target)) = identity this.
Proof.
  intros [Ha He]. unfold unbindBuffer.
  destruct (Z.eqb_spec ARRAY_BUFFER target) as [<-|Hna]; cbn [andb].
  - case_bool_decide as Hs.
    + cbn. split; [|done]. split; cbn; [discriminate|exact He].
    + change (ELEMENT_ARRAY_BUFFER =? ARRAY_BUFFER) with false.
      cbn. split; [|done]. split; [exact Ha|exact He].
  - destruct (Z.eqb_spec ELEMENT_ARRAY_BUFFER target) as [<-|Hne];
      cbn [andb]; [case_bool_decide as Hs|].
    + cbn. split; [|done]. split; cbn; [exact Ha|discriminate].
    + cbn. split; [|done]. split; [exact Ha|exact He].
    + cbn. split; [|done]. split; [exact Ha|exact He].
Qed.

Lemma useBuffer_coherent this g p px :
  coherent this g ->
  proxies this !! p = Some px ->
  exists this' calls,
    useBuffer this p = Some (this', calls) /\
    coherent this' (gl_replay g calls) /\
    proxies this' = proxies this /\
    created this' = created this /\
    identity this' = identity this.
Proof.
  intros Hco Hp. pose proof Hco as [Ha He].
  destruct (coherent_active_target this g p px Hco Hp) as [Hta Hte].
  unfold useBuffer. rewrite Hp.
  destruct (Z.eqb_spec ARRAY_BUFFER (bindTarget px)) as [Har|Har].
  - replace (ELEMENT_ARRAY_BUFFER =? bindTarget px) with false
      by (symmetry; apply Z.eqb_neq; rewrite <- Har; discriminate).
    cbn [andb].
    destruct (is_active (activeArrayBuffer this) p) eqn:Hact; cbn.
    + eexists _, _. split; [reflexivity|]. by split.
    + eexists _, _. split; [reflexivity|]. split; [|done].
      split; cbn.
      * intros q [= <-]. exists px. by rewrite Har.
      * exact He.
  - cbn [andb].
    destruct (Z.eqb_spec ELEMENT_ARRAY_BUFFER (bindTarget px)) as [Hel|Hel];
      [destruct (is_active (activeElementBuffer this) p) eqn:Hact|]; cbn.
    + eexists _, _. split; [reflexivity|]. by split.
    + eexists _, _. split; [reflexivity|]. split; [|done].
      split; cbn.
      * exact Ha.
      * intros q [= <-]. exists px. by rewrite Hel.
    + eexists _, _. split; [reflexivity|]. by split.
Qed.

Lemma unbind_deleted_other bound r :
  bound <> Some r -> unbind_deleted bound (Some r) = bound.
Proof.
  intros Hne. destruct bound as [b|]; cbn; [|reflexivity].
  destruct (Z.eqb_spec b r); congruence.
Qed.

Lemma deleteBufferResource_coherent this g p px :
  coherent this g ->
  resources_distinct this ->
  proxies this !! p = Some px ->
  exists this' calls,
    deleteBufferResource this p = Some (this', calls) /\
    coherent this' (gl_replay g calls) /\
    resources_distinct this' /\
    length (proxies this') = length (proxies this) /\
    identity this' = identity this.
Proof.
  intros Hco [Hfresh Hdist] Hp.
  destruct (coherent_active_target this g p px Hco Hp) as [Hta Hte].
  unfold deleteBufferResource. rewrite Hp.
  case_bool_decide as Hown;
    [|eexists _, _; split; [reflexivity|]; split; [exact Hco|];
      split; [split; assumption|]; split; reflexivity].
  set (u := if is_active (activeArrayBuffer this) p ||
               is_active (activeElementBuffer this) p
            then unbindBuffer this (bindTarget px) else (this, [])).
  assert (Hu : coherent (fst u) (gl_replay g (snd u)) /\
               proxies (fst u) = proxies this /\
               created (fst u) = created this /\
               identity (fst u) = identity this /\
               activeArrayBuffer (fst u) <> Some p /\
               activeElementBuffer (fst u) <> Some p).
  { subst u.
    destruct (is_active (activeArrayBuffer this) p) eqn:Haa;
      [|destruct (is_active (activeElementBuffer this) p) eqn:Hae];
      cbn [orb].
    - apply is_active_true in Haa.
      destruct (unbindBuffer_coherent this g (bindTarget px) Hco)
        as (H1 & H2 & H3 & H4).
      split; [exact H1|]. split; [exact H2|]. split; [exact H3|].
      split; [exact H4|].
      unfold unbindBuffer. rewrite (Hta Haa), Haa.
      rewrite bool_decide_eq_true_2 by eauto. cbn.
      split; [discriminate|].
      intros Hpe. rewrite (Hte Hpe) in Hta. specialize (Hta Haa).
      discriminate.
    - apply is_active_true in Hae. apply is_active_false in Haa.
      destruct (unbindBuffer_coherent this g (bindTarget px) Hco)
        as (H1 & H2 & H3 & H4).
      split; [exact H1|]. split; [exact H2|]. split; [exact H3|].
      split; [exact H4|].
      unfold unbindBuffer. rewrite (Hte Hae), Hae.
      change (ARRAY_BUFFER =? ELEMENT_ARRAY_BUFFER) with false.
      cbn [andb]. rewrite bool_decide_eq_true_2 by eauto. cbn.
      split; [exact Haa|discriminate].
    - apply is_active_false in Hae. apply is_active_false in Haa.
      cbn. split; [exact Hco|]. do 3 (split; [reflexivity|]).
      split; assumption. }
  destruct u as [this1 unbound]. cbn [fst snd] in Hu.
  destruct Hu as ([Ha1 He1] & Hpr & Hcr & Hid & Hna & Hne).
  eexists _, _. split; [reflexivity|].
  rewrite gl_replay_app. cbn [gl_replay fold_left gl_step].
  set (g1 := gl_replay g unbound) in *.
  split; [|split; [|split]].
  - split; cbn [activeArrayBuffer activeElementBuffer proxies boundArray
                  boundElement]; intros q Hq.
    + destruct (Ha1 q Hq) as (qx & Hqx & Ht & Hb).
      assert (q <> p) by congruence.
      exists qx. rewrite list_lookup_insert_ne by done.
      split; [exact Hqx|]. split; [exact Ht|].
      rewrite <- Hb. destruct (bufferResource px) as [r|] eqn:Hr;
        [|by destruct (boundArray g1)].
      apply unbind_deleted_other. intros Hbr. rewrite Hbr in Hb.
      rewrite Hpr in Hqx. symmetry in Hb.
      pose proof (Hdist p q px qx r Hp Hqx Hr Hb). congruence.
    + destruct (He1 q Hq) as (qx & Hqx & Ht & Hb).
      assert (q <> p) by congruence.
      exists qx. rewrite list_lookup_insert_ne by done.
      split; [exact Hqx|]. split; [exact Ht|].
      rewrite <- Hb. destruct (bufferResource px) as [r|] eqn:Hr;
        [|by destruct (boundElement g1)].
      apply unbind_deleted_other. intros Hbr. rewrite Hbr in Hb.
      rewrite Hpr in Hqx. symmetry in Hb.
      pose proof (Hdist p q px qx r Hp Hqx Hr Hb). congruence.
  - unfold resources_distinct. cbn [proxies created]. rewrite Hpr, Hcr.
    split.
    + intros q qx r Hq Hr.
      destruct (decide (q = p)) as [->|Hqp].
      * rewrite list_lookup_insert_eq in Hq
          by (apply lookup_lt_is_Some; eauto).
        injection Hq as <-. discriminate.
      * rewrite list_lookup_insert_ne in Hq by done. eauto.
    + intros q1 q2 x1 x2 r H1 H2 Hr1 Hr2.
      destruct (decide (q1 = p)) as [->|Hq1].
      { rewrite list_lookup_insert_eq in H1
          by (apply lookup_lt_is_Some; eauto).
        injection H1 as <-. discriminate. }
      destruct (decide (q2 = p)) as [->|Hq2].
      { rewrite list_lookup_insert_eq in H2
          by (apply lookup_lt_is_Some; eauto).
        injection H2 as <-. discriminate. }
      rewrite list_lookup_insert_ne in H1, H2 by done. eauto.
  - cbn [proxies]. rewrite length_insert, Hpr. reflexivity.
  - cbn [identity]. exact Hid.
Qed.
Lemma createBufferProxy_coherent this g :
  coherent this g ->
  resources_distinct this ->
  coherent (fst (createBufferProxy this)) g /\
  resources_distinct (fst (createBufferProxy this)) /\
  length (proxies (fst (createBufferProxy this))) =
    S (length (proxies this)).
Proof.
  intros [Ha He] [Hfresh Hdist]. unfold createBufferProxy. cbn [fst].
  assert (Hold : forall q qx,
            (proxies this ++
               [mkBufferProxy None (Some (identity this)) 0 0 0 0 0]) !! q =
              Some qx ->
            bufferResource qx <> None ->
            proxies this !! q = Some qx).
  { intros q qx Hq Hr. apply lookup_app_Some in Hq.
    destruct Hq as [Hq|[_ Hq]]; [exact Hq|].
    apply list_lookup_singleton_Some in Hq. destruct Hq as [_ <-]. done. }
  split; [|split].
  - split; cbn; intros q Hq.
    + destruct (Ha q Hq) as (qx & Hqx & Ht & Hb). exists qx.
      split; [|done]. apply lookup_app_l_Some, Hqx.
    + destruct (He q Hq) as (qx & Hqx & Ht & Hb). exists qx.
      split; [|done]. apply lookup_app_l_Some, Hqx.
  - split; cbn [proxies created].
    + intros p px r Hp Hr. apply (Hfresh p px r); [|exact Hr].
      apply Hold; [exact Hp|congruence].
    + intros p q px qx r Hp Hq Hr1 Hr2.
      apply (Hdist p q px qx r); try assumption;
        apply Hold; try assumption; congruence.
  - cbn. rewrite length_app. cbn. lia.
Qed.

Lemma createBufferResource_coherent this g p px target usage es ec :
  coherent this g ->
  resources_distinct this ->
  proxies this !! p = Some px ->
  create_unshadowed this p target ->
  exists this' ok calls,
    createBufferResource this p target usage es ec =
      Some (this', ok, calls) /\
    coherent this' (gl_replay g calls) /\
    resources_distinct this' /\
    length (proxies this') = length (proxies this).
Proof.
  intros Hco [Hfresh Hdist] Hp (Hsh & Hua & Hue).
  pose proof Hco as [Ha He].
  unfold createBufferResource. rewrite Hp.
  case_bool_decide as Hown;
    [|eexists _, _, _; split; [reflexivity|]; split; [exact Hco|];
      split; [split; assumption|reflexivity]].
  eexists _, _, _. split; [reflexivity|].
  assert (Hlt : (p < length (proxies this))%nat)
    by (apply lookup_lt_is_Some; eauto).
  split; [|split].
  - cbn [gl_replay fold_left gl_step].
    split; cbn [activeArrayBuffer activeElementBuffer proxies]; intros q Hq.
    + destruct (decide (q = p)) as [->|Hqp].
      * rewrite (Hua Hq). eexists. rewrite list_lookup_insert_eq by done.
        split; [reflexivity|]. cbn. done.
      * destruct (Ha q Hq) as (qx & Hqx & Ht & Hb). exists qx.
        rewrite list_lookup_insert_ne by done.
        split; [exact Hqx|]. split; [exact Ht|].
        destruct (Z.eqb_spec target ARRAY_BUFFER) as [->|Hnt].
        { exfalso. apply Hqp, Hsh. unfold active_on.
          rewrite Z.eqb_refl. exact Hq. }
        destruct (target =? ELEMENT_ARRAY_BUFFER); exact Hb.
    + destruct (decide (q = p)) as [->|Hqp].
      * rewrite (Hue Hq). eexists. rewrite list_lookup_insert_eq by done.
        split; [reflexivity|]. cbn. done.
      * destruct (He q Hq) as (qx & Hqx & Ht & Hb). exists qx.
        rewrite list_lookup_insert_ne by done.
        split; [exact Hqx|]. split; [exact Ht|].
        destruct (Z.eqb_spec target ARRAY_BUFFER) as [->|Hnt];
          [exact Hb|].
        destruct (Z.eqb_spec target ELEMENT_ARRAY_BUFFER) as [->|Hne];
          [|exact Hb].
        exfalso. apply Hqp, Hsh. unfold active_on.
        change (ELEMENT_ARRAY_BUFFER =? ARRAY_BUFFER) with false.
        rewrite Z.eqb_refl. exact Hq.
  - unfold resources_distinct. cbn [proxies created]. split.
    + intros q qx r Hq Hr.
      destruct (decide (q = p)) as [->|Hqp].
      * rewrite list_lookup_insert_eq in Hq by done.
        injection Hq as <-. cbn in Hr. injection Hr as <-. lia.
      * rewrite list_lookup_insert_ne in Hq by done.
        specialize (Hfresh q qx r Hq Hr). lia.
    + intros q1 q2 x1 x2 r H1 H2 Hr1 Hr2.
      destruct (decide (q1 = p)) as [->|Hq1];
        destruct (decide (q2 = p)) as [->|Hq2]; [reflexivity| | |].
      * rewrite list_lookup_insert_eq in H1 by done.
        rewrite list_lookup_insert_ne in H2 by done.
        injection H1 as <-. cbn in Hr1. injection Hr1 as <-.
        specialize (Hfresh q2 x2 _ H2 Hr2). lia.
      * rewrite list_lookup_insert_eq in H2 by done.
        rewrite list_lookup_insert_ne in H1 by done.
        injection H2 as <-. cbn in Hr2. injection Hr2 as <-.
        specialize (Hfresh q1 x1 _ H1 Hr1). lia.
      * rewrite list_lookup_insert_ne in H1, H2 by done. eauto.
  - cbn [proxies]. apply length_insert.
Qed.
Import GLPrograms.

Lemma exec_coherent this g o ops :
  coherent this g ->
  resources_distinct this ->
  proxies_in_scope (length (proxies this)) (o :: ops) ->
  creates_unshadowed this (o :: ops) ->
  exists this' calls,
    exec this o = Some (this', calls) /\
    coherent this' (gl_replay g calls) /\
    resources_distinct this' /\
    proxies_in_scope (length (proxies this')) ops /\
    creates_unshadowed this' ops.
Proof.
  intros Hco Hdi Hscope [Hun Hrest].
  assert (Hlook : forall p, (p < length (proxies this))%nat ->
            exists px, proxies this !! p = Some px)
    by (intros p Hp; apply lookup_lt_is_Some in Hp; exact Hp).
  destruct o as [|p target usage es ec|p|p|target|off|off|count start];
    cbn [proxies_in_scope] in Hscope; cbn [exec] in *.
  - destruct (createBufferProxy_coherent this g Hco Hdi) as (H1 & H2 & H3).
    eexists _, _. split; [reflexivity|].
    rewrite H3. done.
  - destruct Hscope as [Hp Hscope]. destruct (Hlook p Hp) as (px & Hpx).
    destruct (createBufferResource_coherent this g p px target usage es ec
                Hco Hdi Hpx Hun) as (this' & ok & calls & He & H1 & H2 & H3).
    rewrite He in *. eexists _, _. split; [reflexivity|].
    rewrite H3. done.
  - destruct Hscope as [Hp Hscope]. destruct (Hlook p Hp) as (px & Hpx).
    destruct (deleteBufferResource_coherent this g p px Hco Hdi Hpx)
      as (this' & calls & He & H1 & H2 & H3 & _).
    rewrite He in *. eexists _, _. split; [reflexivity|].
    rewrite H3. done.
  - destruct Hscope as [Hp Hscope]. destruct (Hlook p Hp) as (px & Hpx).
    destruct (useBuffer_coherent this g p px Hco Hpx)
      as (this' & calls & He & H1 & H2 & H3 & _).
    rewrite He in *. eexists _, _. split; [reflexivity|].
    destruct Hdi as [Hf Hd].
    unfold resources_distinct. rewrite H2, H3. done.
  - destruct (unbindBuffer_coherent this g target Hco) as (H1 & H2 & H3 & _).
    destruct (unbindBuffer this target) as [this' calls]. cbn [fst snd] in *.
    eexists _, _. split; [reflexivity|].
    destruct Hdi as [Hf Hd].
    unfold resources_distinct. rewrite H2, H3. done.
  - eexists _, _. split; [reflexivity|].
    split; [|done]. unfold uploadArrayBufferRegion.
    destruct (activeArrayBuffer this); exact Hco.
  - eexists _, _. split; [reflexivity|].
    split; [|done]. unfold uploadIndexBufferRegion.
    destruct (activeElementBuffer this); exact Hco.
  - unfold drawIndexed in *.
    destruct (activeElementBuffer this) as [q|] eqn:Hq.
    + destruct Hco as [Ha He]. destruct (He q Hq) as (qx & Hqx & _).
      rewrite Hqx in *.
      destruct (elementSize qx =? 1);
        [|destruct (elementSize qx =? 2);
          [|destruct (elementSize qx =? 4)]];
        (eexists _, _; split; [reflexivity|]; split; [|done];
         split; [exact Ha|exact He]).
    + eexists _, _. split; [reflexivity|]. done.
Qed.

Lemma run_ops_coherent ops : forall this g,
  coherent this g ->
  resources_distinct this ->
  proxies_in_scope (length (proxies this)) ops ->
  creates_unshadowed this ops ->
  exists this' calls,
    run_ops this ops = Some (this', calls) /\
    coherent this' (gl_replay g calls) /\
    resources_distinct this'.
Proof.
  induction ops as [|o ops IH]; intros this g Hco Hdi Hscope Hun.
  - eexists _, _. split; [reflexivity|]. done.
  - destruct (exec_coherent this g o ops Hco Hdi Hscope Hun)
      as (this1 & calls1 & He & Hco1 & Hdi1 & Hscope1 & Hun1).
    destruct (IH this1 (gl_replay g calls1) Hco1 Hdi1 Hscope1 Hun1)
      as (this2 & calls2 & Hr & Hco2 & Hdi2).
    cbn [run_ops]. rewrite He, Hr.
    eexists _, _. split; [reflexivity|].
    rewrite gl_replay_app. done.
Qed.

(** From a new context, any program of buffer calls that names only
    proxies it has created, and that creates the buffer of a proxy
    only while no other proxy is recorded as active for the same
    target, runs to its end, and then the record of the context agrees
    with the WebGL context: the buffer of the proxy recorded as active
    for a target is the buffer bound to it.  So every upload and draw
    the context lets through works on the buffer of the active
    proxy. *)
Theorem binding_record_stays_coherent (id : Z) (ops : list op) :
  proxies_in_scope 0 ops ->
  creates_unshadowed (newGLContext id) ops ->
  exists this' calls,
    run_ops (newGLContext id) ops = Some (this', calls) /\
    coherent this' (gl_replay unbound calls).
Proof.
  intros Hscope Hun.
  destruct (run_ops_coherent ops (newGLContext id) unbound)
    as (this' & calls & Hr & Hco & _); try assumption.
  - split; intros q; discriminate.
  - split; intros *; cbn; intros Hp; by rewrite lookup_nil in Hp.
  - eauto.
Qed.

(** While a proxy is recorded as active for the array target, creating
    the buffer of another proxy for that target binds the new buffer
    without the record changing: selecting the first proxy again binds
    nothing, and the uploads that follow go to the buffer of the other
    proxy. *)
Theorem createBufferResource_shadows_the_active_buffer this g p q px qx
    usage elemSize elemCount byteOffset :
  resources_distinct this ->
  activeArrayBuffer this = Some q ->
  proxies this !! q = Some qx ->
  bindTarget qx = ARRAY_BUFFER ->
  q <> p ->
  proxies this !! p = Some px ->
  webglContext px = Some (identity this) ->
  exists this' calls,
    createBufferResource this p ARRAY_BUFFER usage elemSize elemCount =
      Some (this', true, calls) /\
    useBuffer this' q = Some (this', []) /\
    uploadArrayBufferRegion this' byteOffset =
      [BufferSubData ARRAY_BUFFER byteOffset] /\
    boundArray (gl_replay g calls) = resource_of this' p /\
    resource_of this' p <> resource_of this' q.
Proof.
  intros [Hfresh Hdist] Hact Hqx Hqt Hqp Hp Hown.
  assert (Hlt : (p < length (proxies this))%nat)
    by (apply lookup_lt_is_Some; eauto).
  unfold createBufferResource. rewrite Hp.
  rewrite bool_decide_eq_true_2 by exact Hown.
  eexists _, _. split; [reflexivity|].
  split; [|split; [|split]].
  - unfold useBuffer. cbn [proxies activeArrayBuffer activeElementBuffer].
    rewrite list_lookup_insert_ne by done. rewrite Hqx.
    rewrite Hact, Hqt. cbn [is_active]. rewrite Nat.eqb_refl.
    reflexivity.
  - unfold uploadArrayBufferRegion. cbn. rewrite Hact. reflexivity.
  - cbn. unfold resource_of. cbn.
    rewrite list_lookup_insert_eq by done. reflexivity.
  - unfold resource_of. cbn [proxies].
    rewrite list_lookup_insert_eq by done.
    rewrite list_lookup_insert_ne by done. rewrite Hqx. cbn.
    intros Hr. symmetry in Hr. specialize (Hfresh q qx _ Hqx Hr). lia.
Qed.

(** Selecting the buffer that was selected last binds nothing and
    changes nothing. *)
Theorem useBuffer_again_binds_nothing this p this' calls :
  useBuffer this p = Some (this', calls) ->
  useBuffer this' p = Some (this', []).
Proof.
  unfold useBuffer at 1. destruct (proxies this !! p) as [px|] eqn:Hp;
    [|discriminate].
  destruct px as [res ctx t us ts es ec]. cbn [bindTarget bufferResource].
  destruct (Z.eqb_spec ARRAY_BUFFER t) as [<-|Har].
  - change (ELEMENT_ARRAY_BUFFER =? ARRAY_BUFFER) with false.
    cbn [andb].
    destruct (is_active (activeArrayBuffer this) p) eqn:Hact;
      cbn [negb]; cbv beta iota zeta; intros [= <- <-];
      unfold useBuffer, set_activeArrayBuffer;
      cbn [proxies activeArrayBuffer activeElementBuffer];
      rewrite Hp; cbn [bindTarget bufferResource];
      change (ELEMENT_ARRAY_BUFFER =? ARRAY_BUFFER) with false;
      rewrite Z.eqb_refl.
    + rewrite Hact. reflexivity.
    + cbn [is_active]. rewrite Nat.eqb_refl. reflexivity.
  - cbn [andb].
    destruct (Z.eqb_spec ELEMENT_ARRAY_BUFFER t) as [<-|Hel].
    + destruct (is_active (activeElementBuffer this) p) eqn:Hact;
        cbn [andb negb]; cbv beta iota zeta; intros [= <- <-];
        unfold useBuffer, set_activeElementBuffer;
        cbn [proxies activeArrayBuffer activeElementBuffer];
        rewrite Hp; cbn [bindTarget bufferResource];
        change (ARRAY_BUFFER =? ELEMENT_ARRAY_BUFFER) with false;
        rewrite Z.eqb_refl; cbn [andb]; cbv beta iota zeta;
        cbn [activeArrayBuffer activeElementBuffer].
      * rewrite Hact. reflexivity.
      * cbn [is_active]. rewrite Nat.eqb_refl. reflexivity.
    + cbn [andb]. cbv beta iota zeta. intros [= <- <-].
      unfold useBuffer. rewrite Hp. cbn [bindTarget].
      apply Z.eqb_neq in Har, Hel. rewrite Har, Hel. reflexivity.
Qed.

(** Deleting the buffer of the active index proxy first unbinds it;
    after that no draw and no index upload reaches the WebGL context
    until a buffer is selected again. *)
Theorem deleted_index_buffer_is_not_drawn_from this p px :
  activeElementBuffer this = Some p ->
  proxies this !! p = Some px ->
  bindTarget px = ELEMENT_ARRAY_BUFFER ->
  webglContext px = Some (identity this) ->
  exists this',
    deleteBufferResource this p =
      Some (this', [BindBuffer ELEMENT_ARRAY_BUFFER None;
                   DeleteBuffer (bufferResource px)]) /\
    resource_of this' p = None /\
    (forall count startIndex, drawIndexed this' count startIndex = Some []) /\
    (forall byteOffset, uploadIndexBufferRegion this' byteOffset = []).
Proof.
  intros Hact Hp Ht Hown.
  assert (Hlt : (p < length (proxies this))%nat)
    by (apply lookup_lt_is_Some; eauto).
  unfold deleteBufferResource. rewrite Hp.
  rewrite bool_decide_eq_true_2 by exact Hown.
  rewrite Hact. cbn [is_active]. rewrite Nat.eqb_refl, orb_true_r.
  unfold unbindBuffer. rewrite Ht, Hact.
  change (ARRAY_BUFFER =? ELEMENT_ARRAY_BUFFER) with false.
  cbn [andb]. rewrite Z.eqb_refl.
  rewrite bool_decide_eq_true_2 by eauto. cbn [andb].
  eexists. split; [reflexivity|].
  split; [|split].
  - unfold resource_of. cbn.
    rewrite list_lookup_insert_eq by done. reflexivity.
  - reflexivity.
  - reflexivity.
Qed.
End GLFacts.

Module EffectOnGLFacts.
Import GL EffectOnGL.

Lemma run_ops_app this ops1 ops2 :
  run_ops this (ops1 ++ ops2) =
  match run_ops this ops1 with
  | Some (this1, calls1) =>
    match run_ops this1 ops2 with
    | Some (this2, calls2) => Some (this2, calls1 ++ calls2)
    | None => None
    end
  | None => None
  end.
Proof.
  revert this. induction ops1 as [|o ops1 IH]; intros this; cbn.
  - by destruct (run_ops this ops2) as [[this2 calls2]|].
  - destruct (exec this o) as [[this1 calls1]|]; [|reflexivity].
    rewrite IH.
    destruct (run_ops this1 ops1) as [[this2 calls2]|]; [|reflexivity].
    destruct (run_ops this2 ops2) as [[this3 calls3]|]; [|reflexivity].
    by rewrite app_assoc.
Qed.

(** With both buffers of the effect selected, each call of the effect
    passes the context unchanged and reaches the WebGL context as
    [reaching] tells. *)
Lemma selected_calls_reach this vbo ibo vx ix :
  proxies this !! vbo = Some vx ->
  bindTarget vx = ARRAY_BUFFER ->
  proxies this !! ibo = Some ix ->
  bindTarget ix = ELEMENT_ARRAY_BUFFER ->
  elementSize ix = 2 ->
  activeArrayBuffer this = Some vbo ->
  activeElementBuffer this = Some ibo ->
  forall calls,
    run_ops this (flat_map (buffer_ops vbo ibo) calls) =
      Some (this, omap reaching calls).
Proof.
  intros Hv Hvt Hi Hit Hsz Hav Hae.
  induction calls as [|c calls IH]; [reflexivity|].
  destruct c; cbn [flat_map buffer_ops app omap reaching]; try exact IH;
    cbn [run_ops exec].
  - unfold useBuffer. rewrite Hi, Hit.
    change (ARRAY_BUFFER =? ELEMENT_ARRAY_BUFFER) with false.
    cbn [andb]. cbv beta iota zeta.
    rewrite Hae, Z.eqb_refl. cbn [is_active]. rewrite Nat.eqb_refl.
    cbn [negb andb]. cbv beta iota zeta.
    rewrite IH. reflexivity.
  - unfold useBuffer. rewrite Hv, Hvt, Z.eqb_refl, Hav. cbn [is_active].
    rewrite Nat.eqb_refl. cbn [negb andb]. cbv beta iota zeta.
    change (ELEMENT_ARRAY_BUFFER =? ARRAY_BUFFER) with false.
    cbn [andb]. cbv beta iota zeta.
    rewrite IH. reflexivity.
  - unfold uploadArrayBufferRegion. rewrite Hav, IH. reflexivity.
  - unfold uploadIndexBufferRegion. rewrite Hae, IH. reflexivity.
  - unfold drawIndexed. rewrite Hae, Hi, Hsz.
    change (2 =? 1) with false. change (2 =? 2) with true.
    cbv iota. rewrite IH. reflexivity.
Qed.

Lemma useBuffer_selects this p px :
  proxies this !! p = Some px ->
  exists this' calls,
    useBuffer this p = Some (this', calls) /\
    proxies this' = proxies this /\
    List.filter is_work calls = [] /\
    (bindTarget px = ARRAY_BUFFER ->
     activeArrayBuffer this' = Some p /\
     activeElementBuffer this' = activeElementBuffer this) /\
    (bindTarget px = ELEMENT_ARRAY_BUFFER ->
     activeElementBuffer this' = Some p /\
     activeArrayBuffer this' = activeArrayBuffer this).
Proof.
  intros Hp. unfold useBuffer. rewrite Hp.
  destruct px as [res ctx t us ts es ec]. cbn [bindTarget bufferResource].
  destruct (Z.eqb_spec ARRAY_BUFFER t) as [<-|Har].
  - change (ELEMENT_ARRAY_BUFFER =? ARRAY_BUFFER) with false.
    cbn [andb].
    destruct (is_active (activeArrayBuffer this) p) eqn:Hact;
      cbn [negb]; cbv beta iota zeta;
      (eexists _, _; split; [reflexivity|]);
      (split; [reflexivity|]); (split; [reflexivity|]);
      (split; [|discriminate]); intros _.
    + apply GLFacts.is_active_true in Hact. done.
    + done.
  - cbn [andb].
    destruct (Z.eqb_spec ELEMENT_ARRAY_BUFFER t) as [<-|Hel].
    + destruct (is_active (activeElementBuffer this) p) eqn:Hact;
        cbn [andb negb]; cbv beta iota zeta;
        (eexists _, _; split; [reflexivity|]);
        (split; [reflexivity|]); (split; [reflexivity|]);
        (split; [discriminate|]); intros _.
      * apply GLFacts.is_active_true in Hact. done.
      * done.
    + cbn [andb]. cbv beta iota zeta.
      eexists _, _. split; [reflexivity|].
      split; [reflexivity|]. split; [reflexivity|].
      split; intros Heq; congruence.
Qed.

(** After [makeCurrent], every upload of [bufferData] and every draw of
    [drawRegion] reaches the WebGL context, in order, a draw of
    [nindex] indices from [baseIndex] as a [drawElements] of 16-bit
    indices at byte offset [2 * baseIndex]; nothing else is uploaded or
    drawn, and the two buffers of the effect stay selected. *)
Theorem calls_after_makeCurrent_reach_gl this (e : QuadEffect)
    vbo ibo vx ix (calls : list glcall) :
  proxies this !! vbo = Some vx ->
  bindTarget vx = ARRAY_BUFFER ->
  proxies this !! ibo = Some ix ->
  bindTarget ix = ELEMENT_ARRAY_BUFFER ->
  elementSize ix = 2 ->
  exists this' raw,
    run_ops this
      (flat_map (buffer_ops vbo ibo) (snd (makeCurrent e) ++ calls)) =
      Some (this', raw) /\
    List.filter is_work raw = omap reaching calls /\
    activeArrayBuffer this' = Some vbo /\
    activeElementBuffer this' = Some ibo.
Proof.
  intros Hv Hvt Hi Hit Hsz.
  rewrite flat_map_app, run_ops_app.
  cbn [makeCurrent snd flat_map buffer_ops app run_ops exec].
  destruct (useBuffer_selects this ibo ix Hi)
    as (this1 & c1 & -> & Hp1 & Hw1 & _ & Hs1).
  destruct (Hs1 Hit) as [He1 Ha1].
  rewrite <- Hp1 in Hv, Hi.
  destruct (useBuffer_selects this1 vbo vx Hv)
    as (this2 & c2 & -> & Hp2 & Hw2 & Hs2 & _).
  destruct (Hs2 Hvt) as [Ha2 He2]. rewrite He1 in He2.
  rewrite <- Hp2 in Hv, Hi.
  rewrite (selected_calls_reach this2 vbo ibo vx ix Hv Hvt Hi Hit Hsz
             Ha2 He2 calls).
  eexists _, _. split; [reflexivity|].
  split; [|done].
  rewrite !app_nil_r, !List.filter_app, Hw1, Hw2. cbn [app].
  clear. induction calls as [|c calls IH]; [reflexivity|].
  change (omap reaching (c :: calls))
    with (match reaching c with
          | Some y => y :: omap reaching calls
          | None => omap reaching calls
          end).
  destruct c; cbn [reaching]; try exact IH;
    cbn [List.filter is_work]; by rewrite IH.
Qed.
End EffectOnGLFacts.
Module GLWitnesses.
Import GL GLPrograms EffectOnGL GLExamples.

Lemma binding_record_stays_coherent_witness :
  exists this' calls,
    run_ops (newGLContext 1) sprite_program = Some (this', calls) /\
    coherent this' (gl_replay unbound calls).
Proof.
  apply (GLFacts.binding_record_stays_coherent 1 sprite_program).
  - cbn. repeat split; lia.
  - cbn. repeat split; intros; discriminate.
Defined.

Lemma createBufferResource_shadows_the_active_buffer_witness :
  let this := after (construct ++ select ++ [OpCreateBufferProxy]) in
  exists this' calls,
    createBufferResource this 2 ARRAY_BUFFER 35048 32 8192 =
      Some (this', true, calls) /\
    useBuffer this' 0 = Some (this', []) /\
    uploadArrayBufferRegion this' 0 = [BufferSubData ARRAY_BUFFER 0] /\
    boundArray (gl_replay unbound calls) = resource_of this' 2 /\
    resource_of this' 2 <> resource_of this' 0.
Proof.
  eapply (GLFacts.createBufferResource_shadows_the_active_buffer
            (after (construct ++ select ++ [OpCreateBufferProxy]))
            unbound 2 0).
  - split.
    + intros [|[|[|p]]] px r Hp Hr; vm_compute in Hp; simplify_eq;
        try (vm_compute in Hr); simplify_eq; reflexivity.
    + intros [|[|[|p]]] [|[|[|q]]] px qx r Hp Hq Hr1 Hr2;
        vm_compute in Hp, Hq; simplify_eq;
        try (vm_compute in Hr1); try (vm_compute in Hr2); simplify_eq;
        reflexivity.
  - reflexivity.
  - reflexivity.
  - reflexivity.
  - discriminate.
  - reflexivity.
  - reflexivity.
Defined.

Lemma useBuffer_again_binds_nothing_witness :
  useBuffer (after (construct ++ [OpUseBuffer 0])) 0 =
    Some (after (construct ++ [OpUseBuffer 0]), []).
Proof.
  apply (GLFacts.useBuffer_again_binds_nothing (after construct) 0
           (after (construct ++ [OpUseBuffer 0]))
           [BindBuffer ARRAY_BUFFER (Some 0)]).
  reflexivity.
Defined.

Lemma deleted_index_buffer_is_not_drawn_from_witness :
  exists this',
    deleteBufferResource (after (construct ++ select)) 1 =
      Some (this', [BindBuffer ELEMENT_ARRAY_BUFFER None;
                   DeleteBuffer (Some 1)]) /\
    resource_of this' 1 = None /\
    (forall count startIndex, drawIndexed this' count startIndex = Some []) /\
    (forall byteOffset, uploadIndexBufferRegion this' byteOffset = []).
Proof.
  apply (GLFacts.deleted_index_buffer_is_not_drawn_from
           (after (construct ++ select)) 1
           (mkBufferProxy (Some 1) (Some 1) ELEMENT_ARRAY_BUFFER 35048
              24576 2 12288)).
  - reflexivity.
  - reflexivity.
  - reflexivity.
  - reflexivity.
Defined.

Lemma calls_after_makeCurrent_reach_gl_witness :
  exists this' raw,
    run_ops (after construct)
      (flat_map (buffer_ops 0 1)
         (snd (makeCurrent (Examples.effect 2)) ++ two_quads_drawn)) =
      Some (this', raw) /\
    List.filter is_work raw = omap reaching two_quads_drawn /\
    activeArrayBuffer this' = Some 0%nat /\
    activeElementBuffer this' = Some 1%nat.
Proof.
  eapply (EffectOnGLFacts.calls_after_makeCurrent_reach_gl
            (after construct) (Examples.effect 2) 0 1 _ _ two_quads_drawn).
  - reflexivity.
  - reflexivity.
  - reflexivity.
  - reflexivity.
  - reflexivity.
Defined.
End GLWitnesses.
(** ** The index ranges a batch draws *)

Section BatchDraws.
Context {num : Type}.
Implicit Types (this : QuadEffect) (batch : QuadBatch num).

Lemma draw_sizes_app (c1 c2 : list glcall) :
  draw_sizes (c1 ++ c2) = draw_sizes c1 ++ draw_sizes c2.
Proof. unfold draw_sizes. apply omap_app. Qed.

Lemma Zsum_app (l1 l2 : list Z) : Zsum (l1 ++ l2) = Zsum l1 + Zsum l2.
Proof.
  induction l1 as [|x l1 IH]; [reflexivity|].
  cbn [app Zsum fold_right]. fold (Zsum (l1 ++ l2)). fold (Zsum l1). lia.
Qed.

Lemma draw_within_weaken lo hi lo' hi' (calls : list glcall) :
  lo' <= lo -> hi <= hi' ->
  Forall (draw_within lo hi) calls -> Forall (draw_within lo' hi') calls.
Proof.
  intros Hlo Hhi Hall. eapply Forall_impl; [exact Hall|].
  intros []; cbn; lia.
Qed.

Lemma contiguous_within (calls : list glcall) : forall base fin,
  draws_contiguous base calls = Some fin ->
  Forall (fun n => 0 <= n) (draw_sizes calls) ->
  Forall (draw_within base fin) calls /\
  base <= fin /\
  Zsum (draw_sizes calls) = fin - base.
Proof.
  induction calls as [|c calls IH]; intros base fin Hc Hs.
  - injection Hc as <-. split; [constructor|]. cbn. lia.
  - destruct c as [| | | | | | | | | | | |n b];
      try (destruct (IH base fin Hc Hs) as (H1 & H2 & H3);
           split; [constructor; [exact I|exact H1]|]; split; assumption).
    cbn [draws_contiguous] in Hc.
    destruct (Z.eqb_spec b base) as [->|]; [|discriminate].
    change (draw_sizes (DrawIndexed n base :: calls))
      with (n :: draw_sizes calls) in *.
    apply Forall_cons in Hs. destruct Hs as [Hn Hs].
    destruct (IH (base + n) fin Hc Hs) as (H1 & H2 & H3).
    split; [|split].
    + constructor; [cbn; lia|].
      eapply draw_within_weaken; [| |exact H1]; lia.
    + lia.
    + cbn [Zsum fold_right]. fold (Zsum (draw_sizes calls)). lia.
Qed.

Lemma drawRegion_within this batch offset count baseIndex :
  0 <= count ->
  Forall (draw_within baseIndex (baseIndex + 6 * count))
    (snd (drawRegion this batch offset count baseIndex)) /\
  Zsum (draw_sizes (snd (drawRegion this batch offset count baseIndex))) =
    6 * count.
Proof.
  intros Hc. unfold drawRegion.
  pose proof (drawRegion_loop_ranges (Z.to_nat count) batch 0
                (currentState this) (currentState this) 0 baseIndex
                ltac:(lia)) as Hl.
  destruct (drawRegion_loop _ _ _ _ _ _ _) as [[[s1 ix] bi] calls].
  destruct Hl as (Hcont & Hbi & Hi1 & Hi2 & Hall).
  cbn [snd].
  assert (Hfull : draws_contiguous baseIndex
                    (calls ++ [DrawIndexed ((count - ix) * 6) bi]) =
                  Some (baseIndex + 6 * count)).
  { rewrite (draws_contiguous_app _ _ _ _ Hcont). simpl.
    rewrite Z.eqb_refl. f_equal. lia. }
  destruct (contiguous_within _ _ _ Hfull) as (H1 & _ & H3).
  - rewrite draw_sizes_app. apply Forall_app. split.
    + eapply Forall_impl; [exact Hall|]. cbn. intros; lia.
    + repeat constructor. lia.
  - split; [exact H1|]. rewrite H3. lia.
Qed.

Lemma drawBatch_loop_draws_within fuel : forall this batch quadIndex quadCount,
  vertexCapacity this mod 4 = 0 ->
  indexCapacity this = 6 * (vertexCapacity this / 4) ->
  ring_inv this ->
  0 <= quadCount ->
  (Z.to_nat quadCount < fuel)%nat ->
  exists this' calls passes,
    drawBatch_loop fuel this batch (indexOffset this) quadIndex quadCount =
      Some (this', calls, passes) /\
    Zsum (draw_sizes calls) = 6 * quadCount /\
    Forall (draw_within 0 (indexCapacity this)) calls.
Proof.
  induction fuel as [|fuel IH];
    intros this batch quadIndex quadCount Hcap Hicap Hinv Hq Hfuel; [lia|].
  cbn [drawBatch_loop].
  destruct (Z.gtb_spec quadCount 0) as [Hpos|Hzero].
  2: { exists this, [], []. assert (quadCount = 0) as -> by lia.
       split; [reflexivity|]. split; [reflexivity|constructor]. }
  destruct (bufferData_step this batch quadIndex quadCount Hcap Hinv)
    as (this1 & q & -> & Hqr & Hfit & Hinv1 & Hcap1 & Hicap1 & _); [lia|].
  pose proof (drawRegion_cursors this1 batch quadIndex q (indexOffset this))
    as Hcur.
  destruct (drawRegion_within this1 batch quadIndex q (indexOffset this))
    as [Hin Hsum]; [lia|].
  destruct (drawRegion this1 batch quadIndex q (indexOffset this))
    as [this2 drawn].
  cbn [fst snd] in Hcur, Hin, Hsum.
  destruct Hcur as (Hv & Hi & Hvc & Hic & _).
  assert (Hinv2 : ring_inv this2).
  { unfold ring_inv in *. rewrite Hv, Hi, Hvc. exact Hinv1. }
  destruct (IH this2 batch (quadIndex + q) (quadCount - q))
    as (this' & calls & passes & -> & Hsum' & Hin');
    try assumption; try lia.
  { rewrite Hvc, Hcap1. exact Hcap. }
  { rewrite Hic, Hvc, Hicap1, Hcap1. exact Hicap. }
  eexists _, _, _. split; [reflexivity|].
  assert (Hrange : 0 <= indexOffset this /\
                   indexOffset this + 6 * q <= indexCapacity this).
  { destruct Hinv as (Hrange & Hoff & Hidx).
    apply Z.mod_divide in Hcap; [|lia]. destruct Hcap as [c Hc].
    apply Z.mod_divide in Hoff; [|lia]. destruct Hoff as [o Ho].
    rewrite Hc, Z.div_mul in Hicap by lia.
    rewrite Ho, Z.div_mul in Hidx by lia. lia. }
  split.
  - rewrite !draw_sizes_app, !Zsum_app, Hsum, Hsum'.
    change (draw_sizes [GenerateVertices (vertexOffset this) quadIndex q;
              UploadArrayBufferRegion (vertexOffset this * vertexSize this)
                (q * vertexSize this * 4);
              UploadIndexBufferRegion (indexOffset this * indexSize this)
                (q * 6)]) with (@nil Z).
    cbn [Zsum fold_right]. lia.
  - apply Forall_app. split; [repeat constructor|].
    apply Forall_app. split.
    + eapply draw_within_weaken; [| |exact Hin]; lia.
    + rewrite Hic, Hicap1 in Hin'. exact Hin'.
Qed.

(** With cursors that satisfy the invariant, the draws of [drawBatch]
    read six indices for every quad of the batch in total, and each of
    them reads inside the index buffer. *)
Theorem drawBatch_draws_inside_the_index_buffer this batch (fuel : nat) :
  vertexCapacity this mod 4 = 0 ->
  indexCapacity this = 6 * (vertexCapacity this / 4) ->
  ring_inv this ->
  0 <= quadCount batch ->
  (Z.to_nat (quadCount batch) < fuel)%nat ->
  exists this' calls passes,
    drawBatch fuel this batch = Some (this', calls, passes) /\
    Zsum (draw_sizes calls) = 6 * quadCount batch /\
    Forall (draw_within 0 (indexCapacity this)) calls.
Proof.
  intros Hcap Hicap Hinv Hq Hfuel. unfold drawBatch.
  apply drawBatch_loop_draws_within; assumption.
Qed.
End BatchDraws.

Lemma drawBatch_draws_inside_the_index_buffer_witness :
  exists this' calls passes,
    drawBatch 3 (Examples.effect 1) Examples.two_states =
      Some (this', calls, passes) /\
    Zsum (draw_sizes calls) = 6 * quadCount Examples.two_states /\
    Forall (draw_within 0 (indexCapacity (Examples.effect 1))) calls.
Proof.
  apply (drawBatch_draws_inside_the_index_buffer (Examples.effect 1)
           Examples.two_states 3).
  - reflexivity.
  - reflexivity.
  - unfold ring_inv. simpl. repeat split; lia.
  - by vm_compute.
  - vm_compute. lia.
Defined.
(** ** The order a sort leaves does not depend on the order it finds *)

Section Canonical.
Context {num : Type} `{Arith num}.
Implicit Types (b : QuadBatch num).

(** Two lists with the same elements, both in order for a comparison
    that decides between any two different elements, are equal. *)
Lemma sorted_perm_unique (B : Z -> Z -> bool) (V : Z -> Prop) :
  (forall x y, V x -> V y -> x <> y -> B x y = true \/ B y x = true) ->
  forall l1 l2 : list Z,
    Forall V l1 -> l1 ≡ₚ l2 ->
    (forall i j x y, (i < j)%nat ->
       l1 !! i = Some x -> l1 !! j = Some y -> B y x = false) ->
    (forall i j x y, (i < j)%nat ->
       l2 !! i = Some x -> l2 !! j = Some y -> B y x = false) ->
    l1 = l2.
Proof.
  intros Htotal. induction l1 as [|x l1 IH]; intros l2 HV Hp H1 H2.
  - symmetry. apply Permutation_nil, Hp.
  - destruct l2 as [|y l2];
      [symmetry in Hp; apply Permutation_nil_cons in Hp; contradiction|].
    apply Forall_cons in HV. destruct HV as [Vx HV].
    assert (Hxy : x = y).
    { destruct (decide (x = y)) as [|Hne]; [assumption|]. exfalso.
      assert (Hx : x ∈ l2).
      { assert (Hin : x ∈ y :: l2) by (rewrite <- Hp; left).
        apply elem_of_cons in Hin. tauto. }
      assert (Hy : y ∈ l1).
      { assert (Hin : y ∈ x :: l1) by (rewrite Hp; left).
        apply elem_of_cons in Hin. destruct Hin; [congruence|assumption]. }
      assert (Vy : V y) by (rewrite Forall_forall in HV; apply HV, Hy).
      apply list_elem_of_lookup_1 in Hx as [j Hj].
      apply list_elem_of_lookup_1 in Hy as [i Hi].
      pose proof (H2 0%nat (S j) y x ltac:(lia) eq_refl Hj) as Hb2.
      pose proof (H1 0%nat (S i) x y ltac:(lia) eq_refl Hi) as Hb1.
      destruct (Htotal x y Vx Vy Hne); congruence. }
    subst y. f_equal. apply IH.
    + exact HV.
    + eapply Permutation_cons_inv, Hp.
    + intros i j u v Hij Hu Hv. apply (H1 (S i) (S j) u v); [lia|done..].
    + intros i j u v Hij Hu Hv. apply (H2 (S i) (S j) u v); [lia|done..].
Qed.

Lemma policy_total b (compare : comparator num) x y :
  compare = backToFront \/ compare = frontToBack ->
  depth_order_ok b ->
  valid_entry b x -> valid_entry b y -> x <> y ->
  sorts_before compare b (Some x) (Some y) = true \/
  sorts_before compare b (Some y) (Some x) = true.
Proof.
  intros Hc Hdepth Vx Vy Hne.
  destruct (depth_at_valid b x Vx) as (dx & Hx & Dx).
  destruct (depth_at_valid b y Vy) as (dy & Hy & Dy).
  destruct Hc as [-> | ->].
  - rewrite (backToFront_before b Hdepth x y dx dy),
      (backToFront_before b Hdepth y x dy dx) by assumption.
    unfold lex_before.
    destruct (nlt dy dx); [by left|]. destruct (nlt dx dy); [by right|].
    destruct (Z.ltb_spec x y); [by left|].
    destruct (Z.ltb_spec y x); [by right|]. lia.
  - rewrite (frontToBack_before b x y dx dy),
      (frontToBack_before b y x dy dx) by assumption.
    unfold lex_before.
    destruct (nlt dx dy); [by left|]. destruct (nlt dy dx); [by right|].
    destruct (Z.ltb_spec x y); [by left|].
    destruct (Z.ltb_spec y x); [by right|]. lia.
Qed.

Lemma sorted_take (L : option Z -> option Z -> bool) (a : list Z) (n : Z) :
  tail_sorted L a n 0 ->
  forall i j x y, (i < j)%nat ->
    take (Z.to_nat n) a !! i = Some x -> take (Z.to_nat n) a !! j = Some y ->
    L (Some y) (Some x) = false.
Proof.
  intros Hs i j x y Hij Hx Hy.
  apply lookup_take_Some in Hx as [Hx Hi].
  apply lookup_take_Some in Hy as [Hy Hj].
  specialize (Hs (Z.of_nat i) (Z.of_nat j) ltac:(lia) ltac:(lia) ltac:(lia)).
  unfold aget in Hs.
  replace (Z.of_nat i <? 0) with false in Hs by (symmetry; lia).
  replace (Z.of_nat j <? 0) with false in Hs by (symmetry; lia).
  rewrite !Nat2Z.id, Hx, Hy in Hs. exact Hs.
Qed.

Lemma entries_ok_take (P : Z -> Prop) (a : list Z) (n : Z) :
  entries_ok P a n -> Forall P (take (Z.to_nat n) a).
Proof.
  intros Hok. apply Forall_forall. intros v Hv.
  apply elem_of_take in Hv as (i & Hi & Hlt).
  destruct (Hok (Z.of_nat i) ltac:(lia)) as (w & Hw & Pw).
  unfold aget in Hw.
  replace (Z.of_nat i <? 0) with false in Hw by (symmetry; lia).
  rewrite Nat2Z.id in Hw. congruence.
Qed.

Lemma take_entries_ok (P : Z -> Prop) (a : list Z) (n : Z) :
  n <= Z.of_nat (length a) ->
  Forall P (take (Z.to_nat n) a) -> entries_ok P a n.
Proof.
  intros Hlen Hall i Hi.
  destruct (aget_in_range a i) as [v Hv]; [lia|].
  exists v. split; [exact Hv|].
  rewrite Forall_forall in Hall. apply Hall.
  apply elem_of_take. exists (Z.to_nat i). split; [|lia].
  unfold aget in Hv. destruct (i <? 0); [discriminate|exact Hv].
Qed.

(** Sorting with [backToFront] or [frontToBack] gives the same drawing
    order whatever order the same quads were in before: the order
    [sort] leaves depends on the depths of the quads and on their
    insertion indexes only.  In particular sorting a sorted batch
    again changes nothing. *)
Theorem sort_order_is_canonical b (a2 : list Z)
    (compare : comparator num) (fuel : nat) :
  compare = backToFront \/ compare = frontToBack ->
  batch_ok b ->
  depth_order_ok b ->
  quadCount b <= Z.of_nat (length (order b)) ->
  quadCount b <= Z.of_nat (length a2) ->
  draw_order b ≡ₚ draw_order (set_order b a2) ->
  (Z.to_nat (2 * quadCount b) + 4 <= fuel)%nat ->
  exists r r2,
    sort fuel b compare = Done r /\
    sort fuel (set_order b a2) compare = Done r2 /\
    draw_order r = draw_order r2.
Proof.
  intros Hc [Hn Hok] Hdepth Hlen1 Hlen2 Hperm Hfuel.
  assert (Hframe : forall (b1 : QuadBatch num) (a : list Z) x y,
             compare (set_order b1 a) x y = compare b1 x y)
    by (destruct Hc as [-> | ->]; reflexivity).
  unfold draw_order in Hperm. cbn [set_order quadCount order] in Hperm.
  assert (Hok2 : entries_ok (valid_entry b) a2 (quadCount b)).
  { apply take_entries_ok; [exact Hlen2|].
    rewrite <- Hperm. apply entries_ok_take, Hok. }
  destruct (sort_sorted compare b (valid_entry b) Hframe
              (fun v Hv => proj1 Hv)
              (fun x y => policy_asym b Hdepth compare x y Hc)
              (fun x y z => policy_negtrans b Hdepth compare x y z Hc)
              fuel (order b) Hn Hok Hfuel)
    as (a1' & Hrun1 & Hs1 & Hw1 & Hok1').
  destruct (sort_sorted compare b (valid_entry b) Hframe
              (fun v Hv => proj1 Hv)
              (fun x y => policy_asym b Hdepth compare x y Hc)
              (fun x y z => policy_negtrans b Hdepth compare x y z Hc)
              fuel a2 Hn Hok2 Hfuel)
    as (a2' & Hrun2 & Hs2 & Hw2 & Hok2').
  rewrite set_order_order in Hrun1.
  exists (set_order b a1'), (set_order b a2').
  split; [exact Hrun1|]. split; [exact Hrun2|].
  unfold draw_order. cbn [set_order quadCount order].
  apply (sorted_perm_unique
           (fun x y => sorts_before compare b (Some x) (Some y))
           (valid_entry b)).
  - intros x y Vx Vy Hne. apply policy_total; assumption.
  - apply entries_ok_take, Hok1'.
  - rewrite <- (within_draw_order (order b) a1' (quadCount b) Hn Hlen1 Hw1).
    rewrite Hperm.
    apply (within_draw_order a2 a2' (quadCount b) Hn Hlen2 Hw2).
  - apply sorted_take, Hs1.
  - apply sorted_take, Hs2.
Qed.
End Canonical.

Lemma sort_order_is_canonical_witness :
  exists r r2,
    sort 10 TieExamples.depths_2_1_2 backToFront = Done r /\
    sort 10 (set_order TieExamples.depths_2_1_2 [2; 1; 0]) backToFront =
      Done r2 /\
    draw_order r = draw_order r2.
Proof.
  apply (sort_order_is_canonical TieExamples.depths_2_1_2 [2; 1; 0]
           backToFront 10).
  - left. reflexivity.
  - exact depths_2_1_2_ok.
  - apply QNum_depth_order_ok.
  - by vm_compute.
  - by vm_compute.
  - exact (Permutation_rev [0; 1; 2]).
  - vm_compute. lia.
Defined.
(** ** A flushed batch is used again *)

Section Frames.
Context {num : Type} `{Arith num}.
Implicit Types (b : QuadBatch num).

Lemma flush_order_inv b : order_inv b -> order_inv (flush b).
Proof.
  intros ((Hn & Hnc) & Hlen & Hcap & Hperm).
  unfold order_inv, order_is_permutation, draw_order, flush.
  cbn [set_quadCount quadCount quadCapacity order].
  repeat split; try lia. reflexivity.
Qed.

Lemma run_frames_order_inv (frames : list (list (call num))) : forall b,
  order_inv b -> frames_in_capacity b frames ->
  order_inv (run_frames b frames).
Proof.
  induction frames as [|calls frames IH]; intros b Hinv Hroom;
    [exact Hinv|].
  destruct Hroom as [Hadds Hroom]. cbn [run_frames].
  apply IH; [|exact Hroom].
  apply flush_order_inv, run_order_inv; assumption.
Qed.

(** A batch of at most 65536 quads can be flushed and filled again any
    number of times: in every frame, after any [add] calls made with
    room left and any [sort] calls, [order[0 .. quadCount)] is a
    permutation of [0 .. quadCount - 1], although [flush] leaves the
    entries of the frame before in [order]. *)
Theorem order_is_permutation_in_every_frame (capacity : Z)
    (frames : list (list (call num))) (calls : list (call num)) :
  0 < capacity <= 65536 ->
  frames_in_capacity (newQuadBatch capacity) frames ->
  adds_in_capacity (run_frames (newQuadBatch capacity) frames) calls ->
  order_is_permutation
    (run (run_frames (newQuadBatch capacity) frames) calls).
Proof.
  intros Hc Hframes Hadds.
  apply (run_order_inv calls (run_frames (newQuadBatch capacity) frames));
    [|exact Hadds].
  apply run_frames_order_inv; [|exact Hframes].
  apply newQuadBatch_order_inv, Hc.
Qed.
End Frames.

Lemma order_is_permutation_in_every_frame_witness :
  order_is_permutation
    (run (run_frames (newQuadBatch 2)
            [[add_plain (num := Q) (Obj 1); add_plain (Obj 2);
              Sort 10 backToFront];
             [add_plain (Obj 3)]])
       [add_plain (Obj 1); add_plain (Obj 2); Sort 10 frontToBack]).
Proof.
  apply (order_is_permutation_in_every_frame 2
           [[add_plain (num := Q) (Obj 1); add_plain (Obj 2);
             Sort 10 backToFront];
            [add_plain (Obj 3)]]
           [add_plain (Obj 1); add_plain (Obj 2); Sort 10 frontToBack]).
  - lia.
  - vm_compute. repeat split; reflexivity.
  - vm_compute. repeat split; reflexivity.
Defined.
(** ** Batch after batch *)

Section BatchAfterBatch.
Context {num : Type}.
Implicit Types (this : QuadEffect) (batch : QuadBatch num).

Lemma bufferData_capacities this batch offset count :
  let this' := fst (fst (bufferData this batch offset count)) in
  vertexCapacity this' = vertexCapacity this /\
  indexCapacity this' = indexCapacity this.
Proof.
  unfold bufferData.
  destruct (vertexCapacity this <? vertexOffset this + count * 4);
    match goal with
    | |- context [?q =? 0] => destruct (q =? 0)
    end; try (split; reflexivity);
    match goal with
    | |- context [?a =? ?b] => destruct (a =? b)
    end; split; reflexivity.
Qed.

Lemma drawBatch_loop_capacities fuel : forall this batch bi qi qc this' calls passes,
  drawBatch_loop fuel this batch bi qi qc = Some (this', calls, passes) ->
  vertexCapacity this' = vertexCapacity this /\
  indexCapacity this' = indexCapacity this.
Proof.
  induction fuel as [|fuel IH];
    intros this batch bi qi qc this' calls passes Hrun; [discriminate|].
  cbn [drawBatch_loop] in Hrun.
  destruct (qc >? 0); [|injection Hrun as <- _ _; split; reflexivity].
  pose proof (bufferData_capacities this batch qi qc) as Hb.
  destruct (bufferData this batch qi qc) as [[this1 n] buffered].
  cbn [fst] in Hb.
  pose proof (drawRegion_cursors this1 batch qi n bi) as Hd.
  destruct (drawRegion this1 batch qi n bi) as [this2 drawn].
  cbn [fst] in Hd. destruct Hd as (_ & _ & Hv & Hi & _).
  destruct (drawBatch_loop fuel this2 batch (indexOffset this2) (qi + n)
              (qc - n)) as [[[this3 calls3] passes3]|] eqn:Hrest;
    [|discriminate].
  injection Hrun as <- _ _.
  destruct (IH _ _ _ _ _ _ _ _ Hrest) as [H1 H2].
  destruct Hb as [Hb1 Hb2]. split; congruence.
Qed.

Lemma drawBatches_draws (batches : list (QuadBatch num)) : forall this,
  vertexCapacity this mod 4 = 0 ->
  indexCapacity this = 6 * (vertexCapacity this / 4) ->
  ring_inv this ->
  Forall (fun batch => 0 <= quadCount batch) batches ->
  exists this' calls,
    drawBatches this batches = Some (this', calls) /\
    Zsum (draw_sizes calls) = 6 * Zsum (map quadCount batches) /\
    Forall (draw_within 0 (indexCapacity this)) calls /\
    ring_inv this'.
Proof.
  induction batches as [|batch batches IH];
    intros this Hcap Hicap Hinv Hall.
  - exists this, []. split; [reflexivity|]. split; [reflexivity|].
    split; [constructor|exact Hinv].
  - apply Forall_cons in Hall. destruct Hall as [Hq Hall].
    cbn [drawBatches makeCurrent].
    set (this0 := mkQuadEffect Null (indexData this) (vertexCapacity this)
                    (vertexOffset this) (indexCapacity this)
                    (indexOffset this) (vertexSize this) (indexSize this)).
    assert (Hinv0 : ring_inv this0) by exact Hinv.
    destruct (drawBatch_loop_draws_within
                (S (Z.to_nat (quadCount batch))) this0 batch 0
                (quadCount batch) Hcap Hicap Hinv0 Hq ltac:(lia))
      as (this1 & calls & passes & Hrun & Hsum & Hin).
    destruct (drawBatch_loop_covers
                (S (Z.to_nat (quadCount batch))) this0 batch
                (indexOffset this0) 0 (quadCount batch) Hcap Hinv0 Hq
                ltac:(lia))
      as (this1' & calls' & passes' & Hrun' & _ & _ & _ & Hinv1 & _).
    rewrite Hrun in Hrun'. injection Hrun' as <- <- <-.
    destruct (drawBatch_loop_capacities _ _ _ _ _ _ _ _ _ Hrun)
      as [Hv1 Hi1].
    unfold drawBatch. rewrite Hrun.
    destruct (IH this1) as (this2 & calls2 & Hrun2 & Hsum2 & Hin2 & Hinv2);
      try assumption.
    { rewrite Hv1. exact Hcap. }
    { rewrite Hi1, Hv1. exact Hicap. }
    rewrite Hrun2. eexists _, _. split; [reflexivity|].
    split; [|split; [|exact Hinv2]].
    + rewrite !draw_sizes_app, !Zsum_app, Hsum, Hsum2.
      cbn [map Zsum fold_right]. fold (Zsum (map quadCount batches)).
      change (draw_sizes [UseProgram; UseIndexBuffer; UseVertexBuffer;
                EnableAttributes; ApplyBlendState; ApplyRasterState;
                ApplyDepthStencilState; SetupProgram]) with (@nil Z).
      cbn [Zsum fold_right]. lia.
    + apply Forall_app.
      split; [repeat constructor|].
      apply Forall_app. split; [exact Hin|].
      rewrite Hi1 in Hin2. exact Hin2.
Qed.

(** An effect is good for any number of batches: after
    [createResources] with a capacity of at least one quad, drawing any
    batches one after the other, each after [makeCurrent], returns for
    every one of them; together the draws read six indices for every
    quad of every batch, each of them inside the index buffer, and the
    ring cursors end within the invariant. *)
Theorem effect_draws_batch_after_batch (stride capacity : Z)
    (batches : list (QuadBatch num)) :
  0 < capacity ->
  Forall (fun batch => 0 <= quadCount batch) batches ->
  exists this' calls,
    drawBatches (createResources newQuadEffect stride capacity) batches =
      Some (this', calls) /\
    Zsum (draw_sizes calls) = 6 * Zsum (map quadCount batches) /\
    Forall (draw_within 0 (6 * capacity)) calls /\
    ring_inv this'.
Proof.
  intros Hc Hall.
  destruct (createResources_ring_inv newQuadEffect stride capacity Hc)
    as [Hinv Hcap].
  destruct (drawBatches_draws batches
              (createResources newQuadEffect stride capacity))
    as (this' & calls & Hrun & Hsum & Hin & Hinv'); try assumption.
  { cbn [createResources indexCapacity vertexCapacity].
    rewrite Z.div_mul by lia. lia. }
  exists this', calls. split; [exact Hrun|]. split; [exact Hsum|].
  split; [|exact Hinv'].
  cbn [createResources indexCapacity] in Hin.
  replace (6 * capacity) with (capacity * 6) by lia. exact Hin.
Qed.
End BatchAfterBatch.

Lemma effect_draws_batch_after_batch_witness :
  exists this' calls,
    drawBatches (createResources newQuadEffect 32 1)
      [Examples.two_states; Examples.depths_3_1_2] = Some (this', calls) /\
    Zsum (draw_sizes calls) =
      6 * Zsum (map quadCount [Examples.two_states; Examples.depths_3_1_2]) /\
    Forall (draw_within 0 (6 * 1)) calls /\
    ring_inv this'.
Proof.
  apply (effect_draws_batch_after_batch 32 1
           [Examples.two_states; Examples.depths_3_1_2]).
  - lia.
  - repeat constructor; by vm_compute.
Defined.
